(** * anchor-agent: a shallow embedding of the backend's logic

    The backend is a Node.js program.  This development embeds the parts of
    it that its specification makes checkable statements about:

    - [Buffer], [VideoGeneration]: the WAV header writer
      ([utils/videoGeneration.js], [convertPCMToWAV]);
    - [JsString]: the string primitives of the runtime that the program
      uses ([trim], [split], [includes], [indexOf], [substring], ...);
    - [Clean], [MediaKeys]: [cleanResponseText] and the media-key
      endpoints ([server.js]);
    - [VideoJob], [Turn]: [generateVideo] as a promise that settles or
      stays pending, and the two chat endpoints over it ([server.js]);
    - [Db]: [DatabaseService.saveConversation] over the table of chats
      ([utils/db.js]);
    - [Json]: [JSON.parse], property access and truth values;
    - [Comfy]: [ComfyUI.queue] and the socket's message handler
      ([utils/ComfyUI.js]);
    - [BrightData]: [waitForCrawlCompletion] and [crawlRedditNews]
      ([utils/brightdata.js]).

    Effects are explicit: a function that can throw returns a [result],
    calls to the outside world are answered by a record of the world, what
    a handler does to the outside world is returned as a trace, and a loop
    that need not end takes a bound on its iterations. *)

From Stdlib Require Import List ZArith NArith Lia Bool String Ascii Arith.
Import ListNotations.

(** [length] and [++] are the list ones throughout; strings of the modelled
  program are lists of code units, see [JsString]. *)
Abbreviation length := Datatypes.length.

(* ================================================================== *)
(** * Outcomes of a call that may throw *)

Module Outcome.

(** The exceptions the embedded code can raise or observe. *)
Inductive exn : Type :=
| ERR_OUT_OF_RANGE            (* RangeError of a Buffer write *)
| TypeError                   (* property access on null/undefined, call of a non-function *)
| SyntaxError                 (* JSON.parse *)
| StatusError (status : nat)  (* new Error(`Server responded with status ${status}`) *)
| Error (msg : string).       (* new Error(msg) *)

Inductive result (A : Type) : Type :=
| Ok (a : A)
| Throw (e : exn).

Arguments Ok {A} a.
Arguments Throw {A} e.

Definition bind {A B} (m : result A) (k : A -> result B) : result B :=
  match m with
  | Ok a => k a
  | Throw e => Throw e
  end.

(** [try m catch h]. *)
Definition catch {A} (m : result A) (h : exn -> result A) : result A :=
  match m with
  | Ok a => Ok a
  | Throw e => h e
  end.

Definition is_ok {A} (m : result A) : bool :=
  match m with Ok _ => true | Throw _ => false end.

End Outcome.
Import Outcome.

Declare Scope js_scope.
Delimit Scope js_scope with js.
Notation "x <- m ;; k" := (bind m (fun x => k))
(at level 61, m at next level, right associativity) : js_scope.
Open Scope js_scope.

(* ================================================================== *)
(** * Buffers *)

Module Buffer.

(** A Node [Buffer]: a sequence of octets, each kept as an integer. *)
Definition buffer := list Z.

(** [Buffer.alloc(n)]: zero-filled. *)
Definition alloc (n : nat) : buffer := repeat 0%Z n.

(** The octets of an ASCII literal. *)
Definition ascii_bytes (s : string) : list Z :=
  map (fun c => Z.of_nat (nat_of_ascii c)) (list_ascii_of_string s).

(** Overwrite [bs] into [buf] at [off]; [buf] keeps its length. *)
Definition blit (buf : buffer) (off : nat) (bs : list Z) : buffer :=
  firstn off buf ++ firstn (length buf - off) bs
    ++ skipn (off + length bs) buf.

(** [buf.write(string, offset)] for an ASCII string: writes what fits,
    throws when the offset lies beyond the buffer. *)
Definition write (buf : buffer) (s : string) (off : nat) : result buffer :=
  if Nat.ltb (length buf) off then Throw ERR_OUT_OF_RANGE
  else Ok (blit buf off (ascii_bytes s)).

(** Little-endian octets of [v], lowest first. *)
Fixpoint le_bytes (n : nat) (v : Z) : list Z :=
  match n with
  | O => []
  | S k => (v mod 256)%Z :: le_bytes k (v / 256)%Z
  end.

Definition le_value (bs : list Z) : Z :=
  fold_right (fun b acc => (b + 256 * acc)%Z) 0%Z bs.

(** [buf.writeUIntLE]-style write of [n] octets: Node checks the value
    against [0, 2^(8n) - 1] and the offset against the buffer, and throws
    a RangeError otherwise. *)
Definition writeUIntLE (n : nat) (buf : buffer) (v : Z) (off : nat)
  : result buffer :=
  if negb ((0 <=? v)%Z && (v <? 256 ^ Z.of_nat n)%Z) then Throw ERR_OUT_OF_RANGE
  else if Nat.ltb (length buf) (off + n) then Throw ERR_OUT_OF_RANGE
  else Ok (blit buf off (le_bytes n v)).

Definition writeUInt32LE := writeUIntLE 4.
Definition writeUInt16LE := writeUIntLE 2.

(** [buf.readUIntLE]: [None] where Node would throw. *)
Definition readUIntLE (n : nat) (buf : buffer) (off : nat) : option Z :=
  if Nat.ltb (length buf) (off + n) then None
  else Some (le_value (firstn n (skipn off buf))).

Definition readUInt32LE := readUIntLE 4.
Definition readUInt16LE := readUIntLE 2.

(** [buf.slice(a, b)] for in-range bounds. *)
Definition slice (buf : buffer) (a b : nat) : buffer :=
  firstn (b - a) (skipn a buf).

(** [Buffer.concat]. *)
Definition concat (bufs : list buffer) : buffer := List.concat bufs.

End Buffer.

(* ================================================================== *)
(** * utils/videoGeneration.js *)

Module VideoGeneration.
Import Buffer.

Definition sampleRate : Z := 24000.
Definition numChannels : Z := 1.
Definition bitsPerSample : Z := 16.
Definition byteRate : Z := sampleRate * numChannels * bitsPerSample / 8.
Definition blockAlign : Z := numChannels * bitsPerSample / 8.

(** [VideoGenerationService.convertPCMToWAV]. *)
Definition convertPCMToWAV (pcmBuffer : buffer) : result buffer :=
  let dataSize := Z.of_nat (length pcmBuffer) in
  let fileSize := (36 + dataSize)%Z in
  let wavHeader := alloc 44 in
  (* RIFF header *)
  wavHeader <- write wavHeader "RIFF" 0 ;;
  wavHeader <- writeUInt32LE wavHeader fileSize 4 ;;
  wavHeader <- write wavHeader "WAVE" 8 ;;
  (* fmt chunk *)
  wavHeader <- write wavHeader "fmt " 12 ;;
  wavHeader <- writeUInt32LE wavHeader 16 16 ;;
  wavHeader <- writeUInt16LE wavHeader 1 20 ;;
  wavHeader <- writeUInt16LE wavHeader numChannels 22 ;;
  wavHeader <- writeUInt32LE wavHeader sampleRate 24 ;;
  wavHeader <- writeUInt32LE wavHeader byteRate 28 ;;
  wavHeader <- writeUInt16LE wavHeader blockAlign 32 ;;
  wavHeader <- writeUInt16LE wavHeader bitsPerSample 34 ;;
  (* data chunk *)
  wavHeader <- write wavHeader "data" 36 ;;
  wavHeader <- writeUInt32LE wavHeader dataSize 40 ;;
  Ok (concat [wavHeader; pcmBuffer]).

(** The header the function builds for a payload of [dataSize] octets. *)
Definition wav_header (dataSize : Z) : buffer :=
  ascii_bytes "RIFF" ++ le_bytes 4 (36 + dataSize) ++ ascii_bytes "WAVE"
    ++ ascii_bytes "fmt " ++ le_bytes 4 16 ++ le_bytes 2 1
    ++ le_bytes 2 1 ++ le_bytes 4 24000 ++ le_bytes 4 48000
    ++ le_bytes 2 2 ++ le_bytes 2 16
    ++ ascii_bytes "data" ++ le_bytes 4 dataSize.

End VideoGeneration.

(* ================================================================== *)
(** * Strings of the runtime *)

Module JsString.

(** A JavaScript string is a sequence of UTF-16 code units. *)
Definition char := N.
Definition jsstring := list char.

Definition of_ascii (s : string) : jsstring :=
  map N_of_ascii (list_ascii_of_string s).

(** A literal in which an apostrophe stands for a double quote, for JSON
    text. *)
Definition quoted (s : string) : jsstring :=
  map (fun c => if N.eqb c 39 then 34%N else c) (of_ascii s).

Fixpoint eqb (a b : jsstring) : bool :=
  match a, b with
  | [], [] => true
  | x :: a', y :: b' => N.eqb x y && eqb a' b'
  | _, _ => false
  end.

(** WhiteSpace and LineTerminator of ECMAScript: what [\s] matches and
    what [trim] strips. *)
Definition is_ws (c : char) : bool :=
  ((9 <=? c) && (c <=? 13) || (c =? 32) || (c =? 160) || (c =? 5760)
   || (8192 <=? c) && (c <=? 8202) || (c =? 8232) || (c =? 8233)
   || (c =? 8239) || (c =? 8287) || (c =? 12288) || (c =? 65279))%N.

(** Skip a maximal run of white space. *)
Fixpoint drop_ws (s : jsstring) : jsstring :=
  match s with
  | [] => []
  | c :: t => if is_ws c then drop_ws t else s
  end.

Definition trimStart (s : jsstring) : jsstring := drop_ws s.

Fixpoint trimEnd (s : jsstring) : jsstring :=
  match s with
  | [] => []
  | c :: t =>
      match trimEnd t with
      | [] => if is_ws c then [] else [c]
      | t' => c :: t'
      end
  end.

(** [s.trim()]. *)
Definition trim (s : jsstring) : jsstring := trimEnd (trimStart s).

(** [s.startsWith(p)]. *)
Fixpoint startsWith (s p : jsstring) : bool :=
  match p, s with
  | [], _ => true
  | x :: p', y :: s' => N.eqb x y && startsWith s' p'
  | _ :: _, [] => false
  end.

(** [s.endsWith(p)]. *)
Definition endsWith (s p : jsstring) : bool :=
  startsWith (rev s) (rev p).

(** [s.indexOf(p, from)] for [from] within the string; [-1] when absent.
    [find_from i s p] searches [s], whose first unit has index [i]. *)
Fixpoint find_from (i : Z) (s p : jsstring) : Z :=
  if startsWith s p then i
  else match s with
       | [] => (-1)%Z
       | _ :: t => find_from (i + 1) t p
       end.

Definition indexOfFrom (s p : jsstring) (from : nat) : Z :=
  find_from (Z.of_nat (Nat.min from (length s))) (skipn from s) p.

Definition indexOf (s p : jsstring) : Z := indexOfFrom s p 0.

(** [s.includes(p)]. *)
Definition includes (s p : jsstring) : bool :=
  negb (indexOf s p =? -1)%Z.

(** [s.lastIndexOf(p)]. *)
Fixpoint find_last (i : Z) (s p : jsstring) : Z :=
  match s with
  | [] => if startsWith [] p then i else (-1)%Z
  | _ :: t =>
      let r := find_last (i + 1) t p in
      if (r =? -1)%Z then (if startsWith s p then i else (-1)%Z) else r
  end.

Definition lastIndexOf (s p : jsstring) : Z := find_last 0 s p.

(** [s.substring(a, b)]: both ends are clamped to [0, length] and swapped
    when out of order. *)
Definition clamp (s : jsstring) (i : Z) : nat :=
  Nat.min (Z.to_nat i) (length s).

Definition substring (s : jsstring) (a b : Z) : jsstring :=
  let a' := clamp s a in
  let b' := clamp s b in
  firstn (Nat.max a' b' - Nat.min a' b') (skipn (Nat.min a' b') s).

(** [s.split(c)] for a one-unit separator: never empty. *)
Fixpoint split (sep : char) (s : jsstring) : list jsstring :=
  match s with
  | [] => [[]]
  | c :: t =>
      if N.eqb c sep then [] :: split sep t
      else match split sep t with
           | [] => [[c]]
           | w :: ws => (c :: w) :: ws
           end
  end.

(** Decimal digits of a natural number, as [String(n)] prints them. *)
Definition is_digit (c : char) : bool := ((48 <=? c) && (c <=? 57))%N.

End JsString.

(** [js "text"] is the string literal ["text"] of the program. *)
Abbreviation js := JsString.of_ascii.

(* ================================================================== *)
(** * server.js: text cleaning *)

Module Clean.
Import JsString.

Definition SPACE : char := 32%N.
Definition LBRACKET : char := 91%N.
Definition RBRACKET : char := 93%N.

(** [[^\]]*\]] anchored at the head of [s]: the rest after the first
    closing bracket, if there is one. *)
Fixpoint skip_to_close (s : jsstring) : option jsstring :=
  match s with
  | [] => None
  | c :: t => if N.eqb c RBRACKET then Some t else skip_to_close t
  end.

(** [/\s*\[[^\]]*\]\s*/] anchored at the head of [s]: what follows the
    match.  Every quantifier here is greedy and followed by a unit outside
    its class, so backtracking never finds a match that the greedy run
    misses. *)
Definition match_tag (s : jsstring) : option jsstring :=
  match drop_ws s with
  | c :: t =>
      if N.eqb c LBRACKET then
        match skip_to_close t with
        | Some r => Some (drop_ws r)
        | None => None
        end
      else None
  | [] => None
  end.

(** [text.replace(/\s*\[[^\]]*\]\s*/g, ' ')]: scan from the left; at the
    first position where the pattern matches emit a space and go on after
    the match, elsewhere copy the unit.  [fuel] bounds the number of steps
    by the length of the text. *)
Fixpoint replace_tags_from (fuel : nat) (s : jsstring) : jsstring :=
  match fuel with
  | O => s
  | S fuel' =>
      match s with
      | [] => []
      | c :: t =>
          match match_tag s with
          | Some r => SPACE :: replace_tags_from fuel' r
          | None => c :: replace_tags_from fuel' t
          end
      end
  end.

Definition replace_tags (s : jsstring) : jsstring :=
  replace_tags_from (length s) s.

(** [text.replace(/\s+/g, ' ')]; [in_run] tells whether the unit before was
    white space, that is, whether its run has been replaced already. *)
Fixpoint collapse_from (in_run : bool) (s : jsstring) : jsstring :=
  match s with
  | [] => []
  | c :: t =>
      if is_ws c then
        (if in_run then collapse_from true t
         else SPACE :: collapse_from true t)
      else c :: collapse_from false t
  end.

Definition collapse_ws (s : jsstring) : jsstring := collapse_from false s.

(** [cleanResponseText] on a string argument. *)
Definition cleanResponseText (text : jsstring) : jsstring :=
  match text with
  | [] => text                      (* if (!text) return text; *)
  | _ => trim (collapse_ws (replace_tags text))
  end.

(** No opening bracket is followed by a closing one. *)
Fixpoint tag_free (s : jsstring) : Prop :=
  match s with
  | [] => True
  | c :: t => (c = LBRACKET -> skip_to_close t = None) /\ tag_free t
  end.

(** Every white-space unit is a single space that follows a unit that is
    not white space ([prev] tells whether the unit before was). *)
Fixpoint collapsed (prev : bool) (s : jsstring) : Prop :=
  match s with
  | [] => True
  | c :: t =>
      if is_ws c then c = SPACE /\ prev = false /\ collapsed true t
      else collapsed false t
  end.

End Clean.

(* ================================================================== *)
(** * The outside world of the server *)

Module World.
Import JsString.

(** What [fetch] resolves to. [body_pipe] tells whether [response.body]
    has a [pipe] method (a Node stream) or not (a web stream). *)
Record fetch_response := {
  fr_ok : bool;
  fr_status : nat;
  fr_statusText : jsstring;
  fr_bytes : Buffer.buffer;
  fr_body_pipe : bool
}.

(** Calls that leave the process, in the order they are made. *)
Inductive call : Type :=
| S3Sign (key : jsstring) (expiresIn : nat)     (* s3Service.getSignedUrl *)
| HttpFetch (url : jsstring)                    (* fetch(url) *)
| Transcribe                                    (* ai.transcribeAudio *)
| TextGen (prompt : jsstring)                   (* ai.generateAIResponse *)
| SpeechGen (text : jsstring)                   (* ai.generateAudio and the like *)
| VideoGen (wav image : Buffer.buffer) (uid chatId : jsstring)
                                                (* videoGenerationService.generateVideo *)
| DbSave (chatId : jsstring).                   (* db.saveConversation *)

(** How the outside world answers. *)
Record env := {
  getSignedUrl : jsstring -> nat -> result jsstring;
  fetch : jsstring -> result fetch_response
}.

End World.

(* ================================================================== *)
(** * server.js: the media-key endpoints *)

Module MediaKeys.
Import JsString World.

Definition SLASH : char := 47%N.

Inductive body : Type :=
| ErrorJson (error : string)                       (* { error } *)
| UpstreamErrorJson (status : nat) (statusText : jsstring)
| SignedUrlJson (signedUrl : jsstring)             (* { signedUrl } *)
| AudioStream (bytes : Buffer.buffer).             (* piped S3 body *)

Record response := { status : nat; payload : body }.

(** The guard both handlers share:
    [keyParts.length !== 3 || !keyParts[2].endsWith('.pcm')]. *)
Definition invalid_key (s3Key : jsstring) : bool :=
  let keyParts := split SLASH s3Key in
  negb (Nat.eqb (length keyParts) 3)
  || negb (endsWith (nth 2 keyParts []) (js ".pcm")).

(** [GET /api/audio/sign/:s3Key]. *)
Definition sign_handler (w : env) (s3Key : jsstring)
  : response * list call :=
  if invalid_key s3Key then
    ({| status := 400; payload := ErrorJson "Invalid S3 key format" |}, [])
  else
    match getSignedUrl w s3Key 3600 with
    | Ok signedUrl =>
        ({| status := 200; payload := SignedUrlJson signedUrl |},
         [S3Sign s3Key 3600])
    | Throw _ =>
        ({| status := 500; payload := ErrorJson "Failed to generate signed URL" |},
         [S3Sign s3Key 3600])
    end.

(** [GET /api/audio/s3/*]; [s3Key] is what the route's group captured. *)
Definition proxy_handler (w : env) (s3Key : jsstring)
  : response * list call :=
  let failed :=
    {| status := 500; payload := ErrorJson "Failed to proxy audio file from S3" |} in
  if invalid_key s3Key then
    ({| status := 400; payload := ErrorJson "Invalid S3 key format" |}, [])
  else
    match getSignedUrl w s3Key 3600 with
    | Throw _ => (failed, [S3Sign s3Key 3600])
    | Ok signedUrl =>
        let calls := [S3Sign s3Key 3600; HttpFetch signedUrl] in
        match fetch w signedUrl with
        | Throw _ => (failed, calls)
        | Ok r =>
            if negb (fr_ok r) then
              ({| status := fr_status r;
                  payload := UpstreamErrorJson (fr_status r) (fr_statusText r) |},
               calls)
            else if fr_body_pipe r then
              ({| status := 200; payload := AudioStream (fr_bytes r) |}, calls)
            else (failed, calls)       (* response.body.pipe is not a function *)
        end
    end.

(** The key shape the specification promises, in its words: exactly three
    path segments [owner/chat/file.ext], the extension being [.pcm] or
    [.mp4]. *)
Definition promised_shape (key : jsstring) : bool :=
  match split SLASH key with
  | [_owner; _chat; file] =>
      endsWith file (js ".pcm") || endsWith file (js ".mp4")
  | _ => false
  end.

(** A world in which signing and fetching succeed. *)
Definition sample_world : env :=
  {| getSignedUrl := fun key _ => Ok (js "https://s3/" ++ key ++ js "?sig");
     fetch := fun _ => Ok {| fr_ok := true; fr_status := 200;
                             fr_statusText := js "OK";
                             fr_bytes := [1; 2]%Z; fr_body_pipe := true |} |}.

End MediaKeys.

(* ================================================================== *)
(** * utils/db.js: the conversation log *)

Module Db.
Import JsString.

(** A row of [personas]; [id] and [name] are [not null] columns. *)
Record persona := {
  p_id : jsstring;
  p_name : jsstring;
  p_voice_name : jsstring;
  p_image_url : option jsstring
}.

Inductive role : Type := user | assistant.

(** An element of [chats.messages].  A field the object literal does not
    set, or sets to [null], is [None]. *)
Record message := {
  m_role : role;
  m_content : jsstring;
  m_timestamp : jsstring;
  m_audioUrl : option jsstring;
  m_videoUrl : option jsstring;
  m_persona : option jsstring;
  m_personaId : option jsstring
}.

(** A row of [chats]. [messages] is a [not null] jsonb array, so that
    [existingChat.messages || []] is the array itself. *)
Record chat := {
  c_id : jsstring;
  c_user_id : jsstring;
  c_persona_id : option jsstring;
  c_title : jsstring;
  c_messages : list message;
  c_updated_at : jsstring
}.

Definition table := list chat.

(** Failures of the database client that the table does not explain
    (network, malformed identifiers). *)
Record faults := { select_fails : bool; write_fails : bool }.

Definition no_faults : faults :=
  {| select_fails := false; write_fails := false |}.

(** The three readings of the clock in one call. *)
Record clock := { t_user : jsstring; t_assistant : jsstring; t_update : jsstring }.

Definition owned_by (chatId uid : jsstring) (c : chat) : bool :=
  eqb (c_id c) chatId && eqb (c_user_id c) uid.

(** [.select(..).eq('id', chatId).eq('user_id', uid).maybeSingle()]:
    no row gives [null], one row gives the row, several rows are an
    error. *)
Definition select_maybeSingle (f : faults) (t : table) (chatId uid : jsstring)
  : result (option chat) :=
  if select_fails f then Throw (Error "select")
  else match filter (owned_by chatId uid) t with
       | [] => Ok None
       | [c] => Ok (Some c)
       | _ => Throw (Error "multiple rows")
       end.

Definition set_messages (ms : list message) (now : jsstring) (c : chat) : chat :=
  {| c_id := c_id c; c_user_id := c_user_id c; c_persona_id := c_persona_id c;
     c_title := c_title c; c_messages := ms; c_updated_at := now |}.

(** [.update({messages, updated_at}).eq(..).eq(..).select().single()]:
    the matching rows are rewritten; the answer is the row when exactly
    one matched and an error otherwise. *)
Definition update_single (f : faults) (t : table) (chatId uid : jsstring)
    (ms : list message) (now : jsstring) : result chat * table :=
  if write_fails f then (Throw (Error "update"), t)
  else
    let t' := map (fun c => if owned_by chatId uid c
                            then set_messages ms now c else c) t in
    match filter (owned_by chatId uid) t' with
    | [c] => (Ok c, t')
    | _ => (Throw (Error "no single row"), t')
    end.

(** [.insert(row).select().single()]: [id] is the primary key, a second
    row with the same [id] is refused. *)
Definition insert_single (f : faults) (t : table) (row : chat)
  : result chat * table :=
  if write_fails f then (Throw (Error "insert"), t)
  else if existsb (fun c => eqb (c_id c) (c_id row)) t
       then (Throw (Error "duplicate key"), t)
       else (Ok row, t ++ [row]).

(** [DatabaseService.saveConversation]: what it returns ([None] for
    [null]) and the table afterwards. *)
Definition saveConversation (f : faults) (now : clock) (t : table)
    (uid chatId userMessage responseText : jsstring)
    (selectedPersona : persona)
    (audioUrl userAudioUrl videoUrl : option jsstring)
  : option chat * table :=
  let newMessage :=
    {| m_role := user; m_content := userMessage; m_timestamp := t_user now;
       m_audioUrl := userAudioUrl; m_videoUrl := None;
       m_persona := None; m_personaId := None |} in
  let assistantMessage :=
    {| m_role := assistant; m_content := responseText;
       m_timestamp := t_assistant now;
       m_audioUrl := audioUrl; m_videoUrl := videoUrl;
       m_persona := Some (p_name selectedPersona);
       m_personaId := Some (p_id selectedPersona) |} in
  match select_maybeSingle f t chatId uid with
  | Throw _ => (None, t)                       (* catch (dbError): null *)
  | Ok (Some existingChat) =>
      let updatedMessages :=
        c_messages existingChat ++ [newMessage; assistantMessage] in
      match update_single f t chatId uid updatedMessages (t_update now) with
      | (Ok updatedChat, t') => (Some updatedChat, t')
      | (Throw _, t') => (None, t')
      end
  | Ok None =>
      (* the row's timestamps take the defaults of the database *)
      let row :=
        {| c_id := chatId; c_user_id := uid;
           c_persona_id := Some (p_id selectedPersona);
           c_title := js "Chat with " ++ p_name selectedPersona;
           c_messages := [newMessage; assistantMessage];
           c_updated_at := t_update now |} in
      match insert_single f t row with
      | (Ok newChat, t') => (Some newChat, t')
      | (Throw _, t') => (None, t')
      end
  end.

(** The messages stored for a chat id ([None]: no such row). *)
Definition messages_of (t : table) (chatId : jsstring) : option (list message) :=
  match find (fun c => eqb (c_id c) chatId) t with
  | Some c => Some (c_messages c)
  | None => None
  end.

(** [id] is the primary key of the table. *)
Definition unique_ids (t : table) : Prop := NoDup (map c_id t).

(** The two messages one call builds. *)
Definition user_message (now : clock) (userMessage : jsstring)
    (userAudioUrl : option jsstring) : message :=
  {| m_role := user; m_content := userMessage; m_timestamp := t_user now;
     m_audioUrl := userAudioUrl; m_videoUrl := None;
     m_persona := None; m_personaId := None |}.

Definition assistant_message (now : clock) (responseText : jsstring)
    (selectedPersona : persona) (audioUrl videoUrl : option jsstring) : message :=
  {| m_role := assistant; m_content := responseText;
     m_timestamp := t_assistant now;
     m_audioUrl := audioUrl; m_videoUrl := videoUrl;
     m_persona := Some (p_name selectedPersona);
     m_personaId := Some (p_id selectedPersona) |}.

Definition by_id (k : jsstring) (c : chat) : bool := eqb (c_id c) k.

(** The rewrite that [update] applies to the rows of one owner's chat. *)
Definition rewrite_row chatId uid ms now (c : chat) : chat :=
  if owned_by chatId uid c then set_messages ms now c else c.

(** What a successful call did: the table either gained the row it
    answered with (no row of this owner had the id) or had one row
    rewritten (the owner's chat). *)
Inductive saved (t : table) (uid chatId : jsstring) (ms2 : list message)
    (now : jsstring) (p : persona) : chat -> table -> Prop :=
| saved_new row :
    filter (owned_by chatId uid) t = [] ->
    find (by_id chatId) t = None ->
    row = {| c_id := chatId; c_user_id := uid; c_persona_id := Some (p_id p);
             c_title := js "Chat with " ++ p_name p;
             c_messages := ms2; c_updated_at := now |} ->
    saved t uid chatId ms2 now p row (t ++ [row])
| saved_appended e :
    filter (owned_by chatId uid) t = [e] ->
    saved t uid chatId ms2 now p
      (set_messages (c_messages e ++ ms2) now e)
      (map (rewrite_row chatId uid (c_messages e ++ ms2) now) t).

(** ** Sample data *)

Definition sample_persona : persona :=
  {| p_id := js "p-1"; p_name := js "Morgan"; p_voice_name := js "charon";
     p_image_url := None |}.

Definition sample_clock : clock :=
  {| t_user := js "2025-01-02T10:00:00.000Z";
     t_assistant := js "2025-01-02T10:00:00.001Z";
     t_update := js "2025-01-02T10:00:00.002Z" |}.

(** One chat, [c-1], of user [u-1], holding one turn. *)
Definition sample_table : table :=
  [ {| c_id := js "c-1"; c_user_id := js "u-1";
       c_persona_id := Some (js "p-1");
       c_title := js "Chat with Morgan";
       c_messages :=
         [ user_message sample_clock (js "hi") None;
           assistant_message sample_clock (js "hello") sample_persona None None ];
       c_updated_at := js "2025-01-02T10:00:00.002Z" |} ].

End Db.

(* ================================================================== *)
(** * JSON values of the runtime *)

Module Json.
Import JsString.

(** What [JSON.parse] builds, and [undefined], which property access adds.
    A number is kept as its literal; an object is the list of its own
    properties in the order the runtime enumerates them. *)
#[warnings="-register-all"]
Inductive value : Type :=
| JUndefined
| JNull
| JBool (b : bool)
| JNumber (literal : jsstring)
| JString (s : jsstring)
| JArray (items : list value)
| JObject (props : list (jsstring * value)).

(** ** Own properties in enumeration order

    Keys that are array indices come first, in ascending order, then the
    other keys in the order of their creation. *)

Fixpoint digits_value (acc : N) (s : jsstring) : N :=
  match s with
  | [] => acc
  | c :: t => digits_value (acc * 10 + (c - 48)) t
  end.

(** The canonical decimal text of an integer below [2^32 - 1]. *)
Definition array_index (k : jsstring) : option N :=
  match k with
  | [] => None
  | c :: t =>
      if forallb is_digit k && (negb (N.eqb c 48) || Nat.eqb (length t) 0)
         && Nat.leb (length k) 10
      then let n := digits_value 0 k in
           if (n <? 4294967295)%N then Some n else None
      else None
  end.

Fixpoint replace_prop (k : jsstring) (v : value) (props : list (jsstring * value))
  : option (list (jsstring * value)) :=
  match props with
  | [] => None
  | (k', v') :: t =>
      if eqb k' k then Some ((k, v) :: t)
      else match replace_prop k v t with
           | Some t' => Some ((k', v') :: t')
           | None => None
           end
  end.

Fixpoint insert_index (n : N) (k : jsstring) (v : value)
    (props : list (jsstring * value)) : list (jsstring * value) :=
  match props with
  | [] => [(k, v)]
  | (k', v') :: t =>
      match array_index k' with
      | Some m => if (m <? n)%N then (k', v') :: insert_index n k v t
                  else (k, v) :: props
      | None => (k, v) :: props
      end
  end.

(** Define or redefine the own property [k]. *)
Definition set_prop (props : list (jsstring * value)) (k : jsstring) (v : value)
  : list (jsstring * value) :=
  match replace_prop k v props with
  | Some props' => props'
  | None =>
      match array_index k with
      | Some n => insert_index n k v props
      | None => props ++ [(k, v)]
      end
  end.

Fixpoint lookup (k : jsstring) (props : list (jsstring * value)) : option value :=
  match props with
  | [] => None
  | (k', v) :: t => if eqb k' k then Some v else lookup k t
  end.

(** ** Reading values *)

(** [v.k] for a key [k] that is no index, not [length] and no member of a
    built-in prototype (the keys of the embedded code are of this kind):
    a TypeError on [null] and [undefined], the own property of an object,
    [undefined] elsewhere. *)
Definition get (v : value) (k : jsstring) : result value :=
  match v with
  | JUndefined | JNull => Throw TypeError
  | JObject props =>
      match lookup k props with
      | Some x => Ok x
      | None => Ok JUndefined
      end
  | _ => Ok JUndefined
  end.

(** [v?.k]. *)
Definition get_opt (v : value) (k : jsstring) : value :=
  match get v k with
  | Ok x => x
  | Throw _ => JUndefined
  end.

(** Whether a number literal denotes zero as a double: its digits are all
    zero, or it is so small that it rounds to zero (at most [2^-1075]). *)
Definition span_digits (s : jsstring) : jsstring * jsstring :=
  (fix go (s : jsstring) : jsstring * jsstring :=
     match s with
     | c :: t => if is_digit c then let (d, r) := go t in (c :: d, r)
                 else ([], s)
     | [] => ([], [])
     end) s.

Definition exponent_of (s : jsstring) : Z :=
  match s with
  | c :: t =>
      if N.eqb c 101 || N.eqb c 69 then                 (* e E *)
        match t with
        | sg :: d =>
            if N.eqb sg 45 then (- Z.of_N (digits_value 0 d))%Z      (* - *)
            else if N.eqb sg 43 then Z.of_N (digits_value 0 d)      (* + *)
            else Z.of_N (digits_value 0 t)
        | [] => 0%Z
        end
      else 0%Z
  | [] => 0%Z
  end.

Definition number_is_zero (literal : jsstring) : bool :=
  let unsigned := match literal with
                  | c :: t => if N.eqb c 45 then t else literal
                  | [] => [] end in
  let (int, r1) := span_digits unsigned in
  let (frac, r2) := match r1 with
                    | c :: t => if N.eqb c 46 then span_digits t else ([], r1)
                    | [] => ([], []) end in
  let m := Z.of_N (digits_value 0 (int ++ frac)) in
  let k := (exponent_of r2 - Z.of_nat (length frac))%Z in
  if (m =? 0)%Z then true
  else if (0 <=? k)%Z then false
  else if (Z.of_nat (length (int ++ frac)) + 330 <? - k)%Z then true
  else (m * 2 ^ 1075 <=? 10 ^ (- k))%Z.

(** [ToBoolean]. *)
Definition truthy (v : value) : bool :=
  match v with
  | JUndefined | JNull => false
  | JBool b => b
  | JNumber n => negb (number_is_zero n)
  | JString s => negb (Nat.eqb (length s) 0)
  | JArray _ | JObject _ => true
  end.

(** [v === 'literal']. *)
Definition is_string (v : value) (s : jsstring) : bool :=
  match v with
  | JString x => eqb x s
  | _ => false
  end.

(** ** Number literals as doubles *)

(** The integer nearest to [n / d], the even one of two that are equally
    near; [d] is positive. *)
Definition round_half_even (n d : Z) : Z :=
  let q := (n / d)%Z in
  let r := (n mod d)%Z in
  if (2 * r <? d)%Z then q
  else if (d <? 2 * r)%Z then (q + 1)%Z
  else if Z.even q then q else (q + 1)%Z.

(** The double nearest to [p / q] for positive [p] and [q], as
    [Some (m, e)] for [m * 2^e], or [None] for [Infinity].  The exponent
    is the one that leaves 53 bits before the binary point, and not less
    than that of the subnormal numbers. *)
Definition nearest_double (p q : Z) : option (Z * Z) :=
  let l := (Z.log2 p - Z.log2 q)%Z in               (* 2^(l-1) < p/q < 2^(l+1) *)
  let at_least := if (0 <=? l)%Z then (q * 2 ^ l <=? p)%Z
                  else (q <=? p * 2 ^ (- l))%Z in   (* 2^l <= p/q *)
  let floor_log2 := if at_least then l else (l - 1)%Z in
  let e := Z.max (floor_log2 - 52) (-1074) in
  let m := if (0 <=? e)%Z then round_half_even p (q * 2 ^ e)
           else round_half_even (p * 2 ^ (- e)) q in
  if (971 <? e)%Z || ((e =? 971)%Z && (m =? 2 ^ 53)%Z) then None
  else Some (m, e).

(** The value of a number literal: whether it has a minus sign, and the
    double nearest to its decimal value. *)
Definition double_of (literal : jsstring) : bool * option (Z * Z) :=
  let (negative, unsigned) :=
    match literal with
    | c :: t => if N.eqb c 45 then (true, t) else (false, literal)
    | [] => (false, [])
    end in
  let (int, r1) := span_digits unsigned in
  let (frac, r2) := match r1 with
                    | c :: t => if N.eqb c 46 then span_digits t else ([], r1)
                    | [] => ([], []) end in
  let m := Z.of_N (digits_value 0 (int ++ frac)) in
  let k := (exponent_of r2 - Z.of_nat (length frac))%Z in
  (negative,
   if (m =? 0)%Z then Some (0, 0)%Z
   else if (0 <=? k)%Z then nearest_double (m * 10 ^ k) 1
   else nearest_double m (10 ^ (- k))).

(** [x === y] for two doubles: by value, the two zeros being equal. *)
Definition double_eq (x y : bool * option (Z * Z)) : bool :=
  match x, y with
  | (s1, Some (m1, e1)), (s2, Some (m2, e2)) =>
      let e := Z.min e1 e2 in
      (m1 * 2 ^ (e1 - e) =? m2 * 2 ^ (e2 - e))%Z
      && ((m1 =? 0)%Z || Bool.eqb s1 s2)
  | (s1, None), (s2, None) => Bool.eqb s1 s2
  | _, _ => false
  end.

(** [a === b] for values of which at most one was built by the current
    call: primitives by value, numbers as doubles, objects never. *)
Definition strict_eq (a b : value) : bool :=
  match a, b with
  | JUndefined, JUndefined | JNull, JNull => true
  | JBool x, JBool y => Bool.eqb x y
  | JNumber x, JNumber y => double_eq (double_of x) (double_of y)
  | JString x, JString y => eqb x y
  | _, _ => false
  end.

(** ** Conversion to a primitive

    [ToPrimitive] of a value that [JSON.parse] built, as a template
    literal and a comparison with a number apply it.  An object with a
    [toString] property of its own has no method to call, since no JSON
    value is callable and [Object.prototype.valueOf] returns the object:
    a TypeError.  An array is joined, which converts its elements,
    [null] apart. *)
Fixpoint stringifiable (v : value) : bool :=
  match v with
  | JObject props =>
      match lookup (js "toString") props with
      | Some _ => false
      | None => true
      end
  | JArray items => forallb stringifiable items
  | _ => true
  end.

Definition to_primitive (v : value) : result unit :=
  if stringifiable v then Ok tt else Throw TypeError.

(** [Object.values(v)]: a TypeError on [null] and [undefined]. *)
Definition Object_values (v : value) : result (list value) :=
  match v with
  | JUndefined | JNull => Throw TypeError
  | JObject props => Ok (map snd props)
  | JArray items => Ok items
  | JString s => Ok (map (fun c => JString [c]) s)
  | _ => Ok []
  end.

(** [array.includes(v)] for an array of strings. *)
Definition includes_value (strings : list jsstring) (v : value) : bool :=
  match v with
  | JString s => existsb (eqb s) strings
  | _ => false
  end.

(** ** [JSON.parse] *)

(** JSON white space: space, tab, line feed, carriage return. *)
Definition is_json_ws (c : char) : bool :=
  (N.eqb c 32 || N.eqb c 9 || N.eqb c 10 || N.eqb c 13).

Fixpoint skip_ws (s : jsstring) : jsstring :=
  match s with
  | c :: t => if is_json_ws c then skip_ws t else s
  | [] => []
  end.

Definition hex_digit (c : char) : option N :=
  if ((48 <=? c) && (c <=? 57))%N then Some (c - 48)%N
  else if ((97 <=? c) && (c <=? 102))%N then Some (c - 87)%N
  else if ((65 <=? c) && (c <=? 70))%N then Some (c - 55)%N
  else None.

Definition escape (c : char) : option char :=
  if N.eqb c 34 then Some 34%N            (* quote *)
  else if N.eqb c 92 then Some 92%N       (* backslash *)
  else if N.eqb c 47 then Some 47%N       (* slash *)
  else if N.eqb c 98 then Some 8%N        (* b: backspace *)
  else if N.eqb c 102 then Some 12%N      (* f: form feed *)
  else if N.eqb c 110 then Some 10%N      (* n: line feed *)
  else if N.eqb c 114 then Some 13%N      (* r: carriage return *)
  else if N.eqb c 116 then Some 9%N       (* t: tab *)
  else None.

(** The characters of a string literal after its opening quote, and what
    follows the closing quote. *)
Fixpoint parse_chars (s : jsstring) : option (jsstring * jsstring) :=
  match s with
  | [] => None
  | c :: t =>
      if N.eqb c 34 then Some ([], t)
      else if (c <? 32)%N then None
      else if N.eqb c 92 then
        match t with
        | e :: t' =>
            if N.eqb e 117 then                             (* u and four hex digits *)
              match t' with
              | h1 :: h2 :: h3 :: h4 :: t'' =>
                  match hex_digit h1, hex_digit h2, hex_digit h3, hex_digit h4 with
                  | Some a, Some b, Some c', Some d =>
                      match parse_chars t'' with
                      | Some (cs, r) =>
                          Some ((((a * 16 + b) * 16 + c') * 16 + d)%N :: cs, r)
                      | None => None
                      end
                  | _, _, _, _ => None
                  end
              | _ => None
              end
            else
              match escape e with
              | Some x =>
                  match parse_chars t' with
                  | Some (cs, r) => Some (x :: cs, r)
                  | None => None
                  end
              | None => None
              end
        | [] => None
        end
      else
        match parse_chars t with
        | Some (cs, r) => Some (c :: cs, r)
        | None => None
        end
  end.

(** A number literal at the head of [s]: an optional minus sign, then
    zero or a digit sequence without leading zero, then optionally a dot
    with digits, then optionally e or E with an optional sign and
    digits. *)
Definition parse_number (s : jsstring) : option (jsstring * jsstring) :=
  let (sign, s1) := match s with
                    | c :: t => if N.eqb c 45 then ([c], t) else ([], s)
                    | [] => ([], []) end in
  let (int, s2) := span_digits s1 in
  match int with
  | [] => None
  | d :: ds =>
      if N.eqb d 48 && negb (Nat.eqb (length ds) 0) then None
      else
        let frac_part :=
          match s2 with
          | c :: t =>
              if N.eqb c 46 then
                let (f, r) := span_digits t in
                match f with [] => None | _ => Some (c :: f, r) end
              else Some ([], s2)
          | [] => Some ([], [])
          end in
        match frac_part with
        | None => None
        | Some (frac, s3) =>
            let exp_part :=
              match s3 with
              | c :: t =>
                  if N.eqb c 101 || N.eqb c 69 then
                    let (sg, t') :=
                      match t with
                      | x :: u => if N.eqb x 43 || N.eqb x 45 then ([x], u) else ([], t)
                      | [] => ([], []) end in
                    let (e, r) := span_digits t' in
                    match e with [] => None | _ => Some (c :: sg ++ e, r) end
                  else Some ([], s3)
              | [] => Some ([], [])
              end in
            match exp_part with
            | None => None
            | Some (ex, s4) => Some (sign ++ int ++ frac ++ ex, s4)
            end
        end
  end.

Definition expect (word : jsstring) (v : value) (s : jsstring)
  : option (value * jsstring) :=
  if startsWith s word then Some (v, skipn (length word) s) else None.

(** A value at the head of [s], after white space; [fuel] bounds the
    nesting of calls. *)
Fixpoint parse_value (fuel : nat) (s : jsstring) : option (value * jsstring) :=
  match fuel with
  | O => None
  | S fuel' =>
      match skip_ws s with
      | [] => None
      | c :: t =>
          if N.eqb c 110 then expect (js "null") JNull (c :: t)
          else if N.eqb c 116 then expect (js "true") (JBool true) (c :: t)
          else if N.eqb c 102 then expect (js "false") (JBool false) (c :: t)
          else if N.eqb c 34 then
            match parse_chars t with
            | Some (cs, r) => Some (JString cs, r)
            | None => None
            end
          else if N.eqb c 91 then                                  (* [ *)
            match skip_ws t with
            | d :: r => if N.eqb d 93 then Some (JArray [], r)
                        else parse_elements fuel' t []
            | [] => None
            end
          else if N.eqb c 123 then                                 (* { *)
            match skip_ws t with
            | d :: r => if N.eqb d 125 then Some (JObject [], r)
                        else parse_members fuel' t []
            | [] => None
            end
          else
            match parse_number (c :: t) with
            | Some (n, r) => Some (JNumber n, r)
            | None => None
            end
      end
  end
with parse_elements (fuel : nat) (s : jsstring) (acc : list value)
  : option (value * jsstring) :=
  match fuel with
  | O => None
  | S fuel' =>
      match parse_value fuel' s with
      | None => None
      | Some (v, r) =>
          match skip_ws r with
          | c :: r' =>
              if N.eqb c 44 then parse_elements fuel' r' (v :: acc)
              else if N.eqb c 93 then Some (JArray (rev (v :: acc)), r')
              else None
          | [] => None
          end
      end
  end
with parse_members (fuel : nat) (s : jsstring) (acc : list (jsstring * value))
  : option (value * jsstring) :=
  match fuel with
  | O => None
  | S fuel' =>
      match skip_ws s with
      | q :: t =>
          if N.eqb q 34 then
            match parse_chars t with
            | None => None
            | Some (k, r) =>
                match skip_ws r with
                | colon :: r1 =>
                    if N.eqb colon 58 then
                      match parse_value fuel' r1 with
                      | None => None
                      | Some (v, r2) =>
                          let acc' := set_prop acc k v in
                          match skip_ws r2 with
                          | c :: r3 =>
                              if N.eqb c 44 then parse_members fuel' r3 acc'
                              else if N.eqb c 125 then Some (JObject acc', r3)
                              else None
                          | [] => None
                          end
                      end
                    else None
                | [] => None
                end
            end
          else None
      | [] => None
      end
  end.

(** [JSON.parse(text)]: the whole text must be one value. *)
Definition JSON_parse (text : jsstring) : result value :=
  match parse_value (2 * length text + 2) text with
  | Some (v, rest) =>
      match skip_ws rest with
      | [] => Ok v
      | _ => Throw SyntaxError
      end
  | None => Throw SyntaxError
  end.

End Json.

(* ================================================================== *)
(** * utils/ComfyUI.js: the job bridge *)

Module Comfy.
Import JsString Json.

(** The fields of a [ComfyUI] instance that [queue] and the message
    handler read or write. [api_save] is [this.nodes.api_save], an array
    of node ids. *)
Record bridge := {
  clientId : jsstring;
  api_save : list jsstring;
  promptId : value;
  queueRemaining : value;
  has_onSaveCallback : bool;
  has_onMessageCallback : bool
}.

(** The bridge as the constructor leaves it. *)
Definition new_bridge (clientId : jsstring) (api_save : list jsstring)
    (onSave onMessage : bool) : bridge :=
  {| clientId := clientId; api_save := api_save;
     promptId := JNumber (js "-1"); queueRemaining := JNumber (js "0");
     has_onSaveCallback := onSave; has_onMessageCallback := onMessage |}.

Definition set_promptId (b : bridge) (v : value) : bridge :=
  {| clientId := clientId b; api_save := api_save b; promptId := v;
     queueRemaining := queueRemaining b;
     has_onSaveCallback := has_onSaveCallback b;
     has_onMessageCallback := has_onMessageCallback b |}.

Definition set_queueRemaining (b : bridge) (v : value) : bridge :=
  {| clientId := clientId b; api_save := api_save b; promptId := promptId b;
     queueRemaining := v;
     has_onSaveCallback := has_onSaveCallback b;
     has_onMessageCallback := has_onMessageCallback b |}.

(** What the bridge does that others can see. *)
Inductive event : Type :=
| Interrupt (promptId : value)            (* this.interupt(): POST /api/interrupt *)
| Resolved (responseData : value)         (* resolve(responseData) *)
| Rejected (e : exn)                      (* reject(e) *)
| SaveCallback (message promptId : value)     (* this.onSaveCallback(..) *)
| MessageCallback (message promptId : value). (* this.onMessageCallback(..) *)

(** What [fetch(.../prompt)] resolved to; [json] is [response.json()]. *)
Record http_reply := { ok : bool; status : nat; json : result value }.

(** [array.some(f)] for an [f] that may throw. *)
Fixpoint some_of {A} (f : A -> result bool) (l : list A) : result bool :=
  match l with
  | [] => Ok false
  | x :: t => b <- f x ;; if (b : bool) then Ok true else some_of f t
  end.

(** [outputs?.length > 0]: the comparison converts the [length] member
    of an object to a primitive; the length of an array or a string is a
    number, and other values have none. *)
Definition length_above_zero (outputs : value) : result unit :=
  match outputs with
  | JObject props =>
      match lookup (js "length") props with
      | Some x => to_primitive x
      | None => Ok tt
      end
  | _ => Ok tt
  end.

(** The loop that prints the node errors: all that matters of it is what
    it throws.  [nodeError.class_type] throws on a [null] entry, the
    template literal converts the class type to a string, and the test
    of [dependent_outputs?.length > 0] converts the length;
    [JSON.stringify] of a parsed value does not throw. *)
Fixpoint print_node_errors (entries : list value) : result unit :=
  match entries with
  | [] => Ok tt
  | nodeError :: t =>
      class_type <- get nodeError (js "class_type") ;;
      _ <- to_primitive class_type ;;
      _ <- get nodeError (js "errors") ;;
      outputs <- get nodeError (js "dependent_outputs") ;;
      _ <- length_above_zero outputs ;;
      print_node_errors t
  end.

(** [nodeError.dependent_outputs?.some(o => api_save.includes(o))]. *)
Definition affects_save (api_save : list jsstring) (nodeError : value)
  : result bool :=
  outputs <- get nodeError (js "dependent_outputs") ;;
  match outputs with
  | JUndefined | JNull => Ok false
  | JArray items => Ok (existsb (includes_value api_save) items)
  | _ => Throw TypeError                  (* .some is not a function *)
  end.

(** The part of [queue] between the assignment of the prompt id and the
    decision. *)
Definition saveNodeAffected (b : bridge) (responseData : value) : result bool :=
  node_errors <- get responseData (js "node_errors") ;;
  _ <- (if truthy node_errors then
          entries <- Object_values node_errors ;;
          print_node_errors entries
        else Ok tt) ;;
  entries <- Object_values node_errors ;;
  some_of (affects_save (api_save b)) entries.

(** [queue({ workflowDataAPI })], given what the submission resolved to
    ([Throw]: [fetch] itself failed). *)
Definition queue (b : bridge) (reply : result http_reply) : bridge * list event :=
  match reply with
  | Throw e => (b, [Rejected e])
  | Ok r =>
      if negb (ok r) then (b, [Rejected (StatusError (status r))])
      else
        match json r with
        | Throw e => (b, [Rejected e])
        | Ok responseData =>
            match get responseData (js "prompt_id") with
            | Throw e => (b, [Rejected e])
            | Ok prompt_id =>
                let b := if truthy prompt_id then set_promptId b prompt_id else b in
                match saveNodeAffected b responseData with
                | Throw e => (b, [Rejected e])
                | Ok true =>
                    (b, [Interrupt (promptId b);
                         Rejected (Error "Save node affected by errors.")])
                | Ok false => (b, [Resolved responseData])
                end
            end
        end
  end.

(** What arrives on the socket. *)
Inductive ws_data : Type :=
| Binary
| Text (data : jsstring).

Definition callback_types : list jsstring :=
  [js "executed"; js "execution_start"; js "execution_cache";
   js "execution_error"; js "execution_success"].

(** [this.comfyUI.onmessage]; anything thrown inside is logged and
    dropped. *)
Definition onmessage (b : bridge) (d : ws_data) : bridge * list event :=
  match d with
  | Binary => (b, [])
  | Text text =>
      match JSON_parse text with
      | Throw _ => (b, [])
      | Ok message =>
          match get message (js "type") with
          | Throw _ => (b, [])
          | Ok type =>
              let status_update :=
                if is_string type (js "status") then
                  data <- get message (js "data") ;;
                  status <- get data (js "status") ;;
                  exec_info <- get status (js "exec_info") ;;
                  queue_remaining <- get exec_info (js "queue_remaining") ;;
                  Ok (set_queueRemaining b queue_remaining)
                else Ok b in
              match status_update with
              | Throw _ => (b, [])
              | Ok b =>
                  let data := get_opt message (js "data") in
                  let prompt_id := get_opt data (js "prompt_id") in
                  if truthy prompt_id && strict_eq prompt_id (promptId b) then
                    let saved :=
                      if is_string type (js "executed")
                         && includes_value (api_save b) (get_opt data (js "node"))
                         && has_onSaveCallback b
                      then [SaveCallback message (promptId b)] else [] in
                    let told :=
                      if includes_value callback_types type
                         && has_onMessageCallback b
                      then [MessageCallback message (promptId b)] else [] in
                    (b, saved ++ told)
                  else (b, [])
              end
          end
      end
  end.

Definition is_save_callback (e : event) : bool :=
  match e with SaveCallback _ _ => true | _ => false end.

Definition is_interrupt (e : event) : bool :=
  match e with Interrupt _ => true | _ => false end.

(** The frames of the socket, handled one after the other. *)
Fixpoint receive (b : bridge) (frames : list ws_data) : bridge * list event :=
  match frames with
  | [] => (b, [])
  | d :: rest =>
      let (b1, events) := onmessage b d in
      let (b2, later) := receive b1 rest in
      (b2, events ++ later)
  end.

(** A [node_errors] entry in the server's format: an object whose
    [class_type], when present, converts to a string (the server sends a
    string) and whose [dependent_outputs], when present, is an array. *)
Definition node_error_ok (nodeError : value) : bool :=
  match nodeError with
  | JObject props =>
      match lookup (js "class_type") props with
      | Some class_type => stringifiable class_type
      | None => true
      end
      && match lookup (js "dependent_outputs") props with
         | None | Some JNull | Some (JArray _) => true
         | Some _ => false
         end
  | _ => false
  end.

(** The entry lists a save node among its dependent outputs. *)
Definition lists_save_node (api_save : list jsstring) (nodeError : value) : bool :=
  match nodeError with
  | JObject props =>
      match lookup (js "dependent_outputs") props with
      | Some (JArray items) => existsb (includes_value api_save) items
      | _ => false
      end
  | _ => false
  end.

(** ** Sample data *)

Definition sample_bridge : bridge :=
  new_bridge (js "client-1") [js "131"] true true.

(** A reply that validates the audio loader's input as missing, with the
    save node among the outputs that depend on it. *)
Definition sample_errors_text : jsstring :=
  quoted "{'prompt_id': 'job-1', 'number': 3, 'node_errors': {'125': {'class_type': 'LoadAudio', 'errors': [{'type': 'value_not_in_list'}], 'dependent_outputs': ['131']}}}".

(** The one entry of its [node_errors], and the whole reply, parsed. *)
Definition sample_entry : value :=
  JObject [(js "class_type", JString (js "LoadAudio"));
           (js "errors",
            JArray [JObject [(js "type", JString (js "value_not_in_list"))]]);
           (js "dependent_outputs", JArray [JString (js "131")])].

Definition sample_errors_data : value :=
  JObject [(js "prompt_id", JString (js "job-1"));
           (js "number", JNumber (js "3"));
           (js "node_errors", JObject [(js "125", sample_entry)])].

Definition sample_errors_reply (ok : bool) (status : nat) : http_reply :=
  {| ok := ok; status := status; json := JSON_parse sample_errors_text |}.

(** The same reply with a class type that is an object with a
    [toString] member. *)
Definition odd_class_reply : http_reply :=
  {| ok := true; status := 200;
     json := JSON_parse (quoted
       "{'prompt_id': 'job-1', 'number': 3, 'node_errors': {'125': {'class_type': {'toString': 1}, 'errors': [{'type': 'value_not_in_list'}], 'dependent_outputs': ['131']}}}") |}.

(** What the server sends when the save node has run for [job-1]. *)
Definition executed_frame : ws_data :=
  Text (quoted
    "{'type': 'executed', 'data': {'node': '131', 'prompt_id': 'job-1', 'output': {}}}").

(** A reply without [node_errors]. *)
Definition sample_bare_reply : http_reply :=
  {| ok := true; status := 200;
     json := JSON_parse (quoted "{'prompt_id': 'job-1', 'number': 3}") |}.

End Comfy.

(* ================================================================== *)
(** * utils/brightdata.js: the crawl *)

Module BrightData.
Import JsString Json.

Definition maxWaitTime : N := 45000.     (* 45 seconds max wait *)
Definition pollInterval : N := 3000.     (* check every 3 seconds *)

Definition LBRACE : char := 123%N.
Definition RBRACE : char := 125%N.
Definition NEWLINE : char := 10%N.

(** How a call ends: it returns, it throws, or it is still running when
    the budget of loop iterations is used up. *)
Inductive run (A : Type) : Type :=
| Returned (a : A)
| Thrown (e : exn)
| PollsExhausted        (* the polling loop wants another iteration *)
| ScanExhausted.        (* the extraction loop wants another iteration *)

Arguments Returned {A} a.
Arguments Thrown {A} e.
Arguments PollsExhausted {A}.
Arguments ScanExhausted {A}.

(** What [fetch] resolved to, with [response.text()]. *)
Record text_reply := { ok : bool; status : nat; text : jsstring }.

(** ** Reading the payloads *)

(** [text.split('\n').filter(line => line.trim())]. *)
Definition nonblank_lines (text_ : jsstring) : list jsstring :=
  filter (fun line => negb (Nat.eqb (length (trim line)) 0))
    (split NEWLINE text_).

(** The posts of a payload that came with the status answer: the lines
    that parse and carry a [post_id]; other lines are skipped. *)
Definition direct_posts (jsonText : jsstring) : list value :=
  flat_map
    (fun line =>
       match JSON_parse (trim line) with
       | Ok post =>
           match get post (js "post_id") with
           | Ok id => if truthy id then [post] else []
           | Throw _ => []
           end
       | Throw _ => []
       end)
    (nonblank_lines jsonText).

(** The end of the first prefix in which braces balance, [0] if there is
    none: [braceCount] after the units before index [i]. *)
Fixpoint balanced_prefix_end (s : jsstring) (braceCount : Z) (i : nat) : nat :=
  match s with
  | [] => 0
  | c :: t =>
      let braceCount := if N.eqb c LBRACE then (braceCount + 1)%Z else braceCount in
      let braceCount := if N.eqb c RBRACE then (braceCount - 1)%Z else braceCount in
      if (braceCount =? 0)%Z && N.eqb c RBRACE then i + 1
      else balanced_prefix_end t braceCount (i + 1)
  end.

(** The snapshot that a status answer holds. *)
Definition parse_snapshot (jsonText : jsstring) : result value :=
  catch (JSON_parse jsonText)
    (fun _firstError =>
       let jsonText :=
         if includes jsonText [RBRACE; LBRACE] then
           let firstBrace := indexOf jsonText [LBRACE] in
           let lastBrace := (indexOf jsonText [RBRACE] + 1)%Z in
           substring jsonText firstBrace lastBrace
         else
           let endPos := balanced_prefix_end jsonText 0 0 in
           if Nat.ltb 0 endPos then substring jsonText 0 (Z.of_nat endPos)
           else jsonText in
       catch (JSON_parse jsonText)
         (fun _secondError =>
            Throw (Error "Invalid JSON response from BrightData API"))).

(** From an opening brace on: the index after the brace that closes it,
    if any. [i] is the index of the head of [s]. *)
Fixpoint closing_end (s : jsstring) (braceCount : Z) (i : nat) : option nat :=
  match s with
  | [] => None
  | c :: t =>
      let braceCount := if N.eqb c LBRACE then (braceCount + 1)%Z else braceCount in
      let braceCount := if N.eqb c RBRACE then (braceCount - 1)%Z else braceCount in
      if (braceCount =? 0)%Z then Some (i + 1)
      else closing_end t braceCount (i + 1)
  end.

(** The last resort: cut the text at balanced braces and keep the pieces
    that parse. One iteration of the [while] per unit of [fuel]; [None]
    when the loop wants more. *)
Fixpoint extract_objects (fuel : nat) (dataText : jsstring) (currentPos : nat)
    (jsonObjects : list value) : option (list value) :=
  match fuel with
  | O => None
  | S fuel' =>
      if Nat.ltb currentPos (length dataText) then
        let nextBrace := indexOfFrom dataText [LBRACE] currentPos in
        if (nextBrace =? -1)%Z then Some jsonObjects
        else
          let nextBrace := Z.to_nat nextBrace in
          match closing_end (skipn nextBrace dataText) 0 nextBrace with
          | Some endPos =>
              let objText :=
                substring dataText (Z.of_nat nextBrace) (Z.of_nat endPos) in
              let jsonObjects :=
                match JSON_parse objText with
                | Ok obj => jsonObjects ++ [obj]
                | Throw _ => jsonObjects
                end in
              extract_objects fuel' dataText endPos jsonObjects
          | None =>
              (* braceCount is not 0: endPos is still nextBrace *)
              extract_objects fuel' dataText nextBrace jsonObjects
          end
      else Some jsonObjects
  end.

(** [results.map(f)] for an [f] that may throw. *)
Fixpoint map_result {A B} (f : A -> result B) (l : list A) : result (list B) :=
  match l with
  | [] => Ok []
  | x :: t => y <- f x ;; ys <- map_result f t ;; Ok (y :: ys)
  end.

(** The structured readings of the data payload. *)
Definition parse_structured (cleanDataText : jsstring) : result value :=
  if includes cleanDataText [RBRACE; LBRACE] then
    data <- map_result (fun line => JSON_parse (trim line))
              (nonblank_lines cleanDataText) ;;
    Ok (JArray data)
  else if startsWith cleanDataText (js "[")
          && includes cleanDataText (js "}]") then
    catch (JSON_parse cleanDataText)
      (fun arrayError =>
         let arrayStart := indexOf cleanDataText (js "[") in
         let arrayEnd := (lastIndexOf cleanDataText (js "]") + 1)%Z in
         if (0 <=? arrayStart)%Z && (arrayStart <? arrayEnd)%Z then
           JSON_parse (substring cleanDataText arrayStart arrayEnd)
         else Throw arrayError)
  else JSON_parse cleanDataText.

(** The data of a completed snapshot. *)
Definition parse_data (scan_fuel : nat) (dataText : jsstring) : run value :=
  match parse_structured (trim dataText) with
  | Ok data => Returned data
  | Throw _parseError =>
      match extract_objects scan_fuel dataText 0 [] with
      | None => ScanExhausted
      | Some [] =>
          Thrown (Error "Invalid JSON data response from BrightData API")
      | Some jsonObjects => Returned (JArray jsonObjects)
      end
  end.

(** ** Waiting for the snapshot *)

(** The world of one wait: the answers to the status and data requests of
    each iteration, and by how much each iteration outlasts the pause
    between polls. *)
Record polls := {
  status_reply : nat -> result text_reply;
  data_reply : nat -> result text_reply;
  delay : nat -> N
}.

(** One iteration of the loop up to its pause: [None] when the crawl is
    still running.  A template literal throws a TypeError on a value
    that does not convert to a string. *)
Definition poll_once (scan_fuel : nat) (w : polls) (i : nat)
  : option (run value) :=
  match status_reply w i with
  | Throw e => Some (Thrown e)
  | Ok response =>
      if negb (ok response) then
        Some (Thrown (Error "Failed to check snapshot status"))
      else
        let jsonText := trim (text response) in
        if includes jsonText (quoted "'post_id'") then
          Some (Returned (JArray (direct_posts jsonText)))
        else
          match parse_snapshot jsonText with
          | Throw _ =>
              Some (Thrown (Error "Invalid JSON response from BrightData API"))
          | Ok snapshot =>
              match get snapshot (js "status") with
              | Throw e => Some (Thrown e)
              | Ok st =>
                  if is_string st (js "completed") then
                    (* the log line prints snapshot.total_rows *)
                    if negb (stringifiable (get_opt snapshot (js "total_rows")))
                    then Some (Thrown TypeError)
                    else
                      match data_reply w i with
                      | Throw e => Some (Thrown e)
                      | Ok dataResponse =>
                          if negb (ok dataResponse) then
                            Some (Thrown (Error "Failed to fetch crawl data"))
                          else Some (parse_data scan_fuel (text dataResponse))
                      end
                  else if is_string st (js "failed") then
                    (* the message prints snapshot.error || 'Unknown error' *)
                    let error := get_opt snapshot (js "error") in
                    if truthy error && negb (stringifiable error)
                    then Some (Thrown TypeError)
                    else Some (Thrown (Error "Crawl failed"))
                  else
                    (* the log line prints snapshot.status *)
                    if negb (stringifiable st) then Some (Thrown TypeError)
                    else None
              end
          end
  end.

(** The loop of [waitForCrawlCompletion] from its [i]-th test on, [now]
    being [Date.now() - startTime] at that test; with the result, the
    number of status requests made. *)
Fixpoint wait_loop (poll_fuel scan_fuel : nat) (w : polls) (i : nat) (now : N)
  : run value * nat :=
  match poll_fuel with
  | O => (PollsExhausted, i)
  | S poll_fuel' =>
      if (now <? maxWaitTime)%N then
        match poll_once scan_fuel w i with
        | Some r => (r, i + 1)
        | None =>
            wait_loop poll_fuel' scan_fuel w (i + 1)
              (now + pollInterval + delay w i)
        end
      else
        (Thrown (Error "Crawl timeout: Results not ready within 60 seconds"), i)
  end.

Definition waitForCrawlCompletion (poll_fuel scan_fuel : nat) (w : polls)
  : run value :=
  fst (wait_loop poll_fuel scan_fuel w 0 0).

(** ** The crawl *)

Definition LOCATION_SUBREDDITS : list (jsstring * list jsstring) :=
  [ (js "ottawa", [js "ottawa"]);
    (js "toronto", [js "toronto"]);
    (js "montreal", [js "montreal"]);
    (js "vancouver", [js "vancouver"]);
    (js "calgary", [js "Calgary"]);
    (js "edmonton", [js "Edmonton"]);
    (js "winnipeg", [js "Winnipeg"]);
    (js "halifax", [js "halifax"]);
    (js "saskatoon", [js "saskatoon"]);
    (js "regina", [js "regina"]);
    (js "london", [js "londonontario"]);
    (js "kitchener", [js "kitchener"]);
    (js "hamilton", [js "Hamilton"]);
    (js "windsor", [js "windsorontario"]);
    (js "barrie", [js "barrie"]);
    (js "kingston", [js "KingstonOntario"]);
    (js "atlantic", [js "Maritime"]);
    (js "northern-ontario", [js "ontario"]);
    (js "british-columbia", [js "britishcolumbia"]) ].

(** Keys that every object inherits.  Looking one of them up in the table
    yields a function or the prototype: with the three functions that
    declare no parameter, [subreddits.length === 0] holds; on the others
    [subreddits.map] is not callable. *)
Definition inherited_nullary : list jsstring :=
  [ js "toString"; js "valueOf"; js "toLocaleString" ].

Definition inherited_keys : list jsstring :=
  [ js "constructor"; js "__proto__"; js "hasOwnProperty"; js "isPrototypeOf";
    js "propertyIsEnumerable"; js "__defineGetter__"; js "__defineSetter__";
    js "__lookupGetter__"; js "__lookupSetter__" ].

Fixpoint assoc (k : jsstring) (l : list (jsstring * list jsstring))
  : option (list jsstring) :=
  match l with
  | [] => None
  | (k', v) :: t => if eqb k' k then Some v else assoc k t
  end.

(** What [crawlRedditNews] returns. *)
Record crawl_result := {
  success : bool;
  error : option exn;
  resultsCount : option nat;
  articles : list value
}.

Record crawl_world := {
  api_key_set : bool;                           (* process.env.BRIGHT_DATA_KEY *)
  trigger_reply : result (bool * result value); (* ok, response.json() *)
  snapshot_polls : polls
}.

Section Crawl.

(** [String.prototype.toLowerCase] and the filter, score and sort
    pipeline of [processRedditResults] are taken as given. *)
Variable toLowerCase : jsstring -> jsstring.
Variable process_posts : list value -> jsstring -> jsstring -> result (list value).

(** [isLocationSupported]: an own property of the table. *)
Definition isLocationSupported (location : jsstring) : bool :=
  match assoc (toLowerCase location) LOCATION_SUBREDDITS with
  | Some _ => true
  | None => false
  end.

Definition processRedditResults (results : value) (location query : jsstring)
  : result (list value) :=
  match results with
  | JArray posts => process_posts posts location query
  | _ => Ok []
  end.

(** [crawlResults.length]: [None] for [undefined]. *)
Definition length_of (v : value) : result (option nat) :=
  match v with
  | JUndefined | JNull => Throw TypeError
  | JArray items => Ok (Some (length items))
  | JString s => Ok (Some (length s))
  | _ => Ok None
  end.

(** The body of the [try] of [crawlRedditNews]. *)
Definition crawl_body (poll_fuel scan_fuel : nat) (w : crawl_world)
    (location query : jsstring) : run crawl_result :=
  if negb (api_key_set w) then
    Thrown (Error "BRIGHT_DATA_KEY environment variable is required")
  else
    let key := toLowerCase location in
    if existsb (eqb key) inherited_keys then Thrown TypeError
    else
      match assoc key LOCATION_SUBREDDITS with
      | None | Some [] => Thrown (Error "No subreddits configured for location")
      | Some (_ :: _) =>
          match trigger_reply w with
          | Throw e => Thrown e
          | Ok (false, _) => Thrown (Error "BrightData API error")
          | Ok (true, Throw e) => Thrown e
          | Ok (true, Ok result) =>
              match get result (js "snapshot_id") with
              | Throw e => Thrown e
              | Ok snapshot_id =>
                  (* the log line and the URLs print the snapshot id *)
                  if negb (stringifiable snapshot_id) then Thrown TypeError
                  else
                  match waitForCrawlCompletion poll_fuel scan_fuel
                          (snapshot_polls w) with
                  | Returned crawlResults =>
                      match processRedditResults crawlResults location query with
                      | Throw e => Thrown e
                      | Ok processedArticles =>
                          match length_of crawlResults with
                          | Throw e => Thrown e
                          | Ok n =>
                              Returned {| success := true; error := None;
                                          resultsCount := n;
                                          articles := processedArticles |}
                          end
                      end
                  | Thrown e => Thrown e
                  | PollsExhausted => PollsExhausted
                  | ScanExhausted => ScanExhausted
                  end
              end
          end
      end.

(** [crawlRedditNews]: whatever the body throws is turned into the
    failure result. *)
Definition crawlRedditNews (poll_fuel scan_fuel : nat) (w : crawl_world)
    (location query : jsstring) : run crawl_result :=
  match crawl_body poll_fuel scan_fuel w location query with
  | Thrown e =>
      Returned {| success := false; error := Some e;
                  resultsCount := None; articles := [] |}
  | r => r
  end.

End Crawl.

(** How many more status requests the loop can make when the clock reads
    [now] at its test. *)
Definition polls_left (now : N) : nat :=
  if (now <? maxWaitTime)%N
  then N.to_nat ((maxWaitTime - 1 - now) / pollInterval) + 1
  else 0.


(** ** The maximal parseable subset

    A payload seen as records with text between them, and what the
    claim asks of the reading: the records that parse, in their
    order. *)








(** Every opening brace of the text is closed, by the count of the
    extraction. *)
Definition braces_close (dataText : jsstring) : Prop :=
  forall nb, nth_error dataText nb = Some LBRACE ->
             closing_end (skipn nb dataText) 0 nb <> None.

(** A test for it. *)
Definition braces_closeb (dataText : jsstring) : bool :=
  forallb
    (fun nb =>
       match nth_error dataText nb with
       | Some c =>
           if N.eqb c LBRACE
           then match closing_end (skipn nb dataText) 0 nb with
                | Some _ => true
                | None => false
                end
           else true
       | None => true
       end)
    (seq 0 (length dataText)).

(** The result of a crawl that failed with [e]. *)
Definition failure (e : exn) : crawl_result :=
  {| success := false; error := Some e; resultsCount := None; articles := [] |}.

(** ** Sample data *)

Definition completed_status : result text_reply :=
  Ok {| ok := true; status := 200;
        text := quoted "{'status': 'completed', 'total_rows': 2}" |}.

Definition running_status : result text_reply :=
  Ok {| ok := true; status := 200; text := quoted "{'status': 'running'}" |}.

(** Two records, one per line; the title of the first holds an opening
    brace. *)
Definition open_brace_payload : jsstring :=
  quoted "{'post_id': '1', 'title': 'a { b'}" ++ [NEWLINE]
    ++ quoted "{'post_id': '2', 'title': 'c'}".

(** Two records, one per line; the title of the first holds a closing
    brace. *)
Definition close_brace_line1 : jsstring :=
  quoted "{'post_id': '1', 'title': 'smile :}'}".
Definition close_brace_line2 : jsstring :=
  quoted "{'post_id': '2', 'title': 'ok'}".
Definition close_brace_payload : jsstring :=
  close_brace_line1 ++ [NEWLINE] ++ close_brace_line2.

Definition close_brace_record2 : value :=
  JObject [(js "post_id", JString (js "2")); (js "title", JString (js "ok"))].


(** Two records on two lines. *)
Definition two_lines_record1 : value :=
  JObject [(js "post_id", JString (js "1")); (js "title", JString (js "road works"))].

Definition two_lines_payload : jsstring :=
  quoted "{'post_id': '1', 'title': 'road works'}" ++ [NEWLINE]
    ++ quoted "{'post_id': '2', 'title': 'ok'}".

(** The snapshot is complete at the first poll and the data request is
    answered with [payload]. *)
Definition completed_with (payload : jsstring) : polls :=
  {| status_reply := fun _ => completed_status;
     data_reply := fun _ => Ok {| ok := true; status := 200; text := payload |};
     delay := fun _ => 0%N |}.

(** A crawl whose trigger succeeds and whose snapshot is complete at the
    first poll, with [payload] as its data. *)
Definition crawl_with (payload : jsstring) : crawl_world :=
  {| api_key_set := true;
     trigger_reply := Ok (true, Ok (JObject [(js "snapshot_id", JString (js "s_1"))]));
     snapshot_polls := completed_with payload |}.

(** The snapshot never completes. *)
Definition never_ready : polls :=
  {| status_reply := fun _ => running_status;
     data_reply := fun _ => Throw (Error "unused");
     delay := fun i => N.of_nat i |}.

End BrightData.

(* ================================================================== *)
(** * utils/db.js: reading and deleting chats *)

Module DbReads.
Import JsString Db.

(** [.select(..).eq('user_id', uid).eq('id', chatId).single()]: the row
    when exactly one matches, an error otherwise. *)
Definition select_single (f : faults) (t : table) (chatId uid : jsstring)
  : result chat :=
  if select_fails f then Throw (Error "select")
  else match filter (owned_by chatId uid) t with
       | [c] => Ok c
       | _ => Throw (Error "no single row")
       end.

(** What [getChatHistory] returns: the messages of one chat when it is
    given a chat id, the rows of the user otherwise. *)
Inductive history : Type :=
| Messages (messages : list message)
| Chats (rows : list chat).

Section Reads.

(** [.order('created_at', { ascending: false })]; the rows of the model do
    not carry the column. *)
Variable newest_first : table -> table.

(** [DatabaseService.getChatHistory]; [chatId] is a string or [null].
    Whatever is thrown is answered with the empty array. *)
Definition getChatHistory (f : faults) (t : table) (uid : jsstring)
    (chatId : option jsstring) : history :=
  match chatId with
  | Some (c :: k) =>
      match select_single f t (c :: k) uid with
      | Ok chat => Messages (c_messages chat)
      | Throw _ => Messages []
      end
  | _ =>
      if select_fails f then Chats []
      else Chats (newest_first (filter (fun c => eqb (c_user_id c) uid) t))
  end.

End Reads.

(** The columns of the joined [personas] row that the reads select. *)
Record persona_ref := {
  r_id : jsstring;
  r_name : jsstring;
  r_voice_name : jsstring
}.

(** A chat row with its [personas ( id, name, voice_name )]. *)
Record chat_view := {
  v_chat : chat;
  v_personas : option persona_ref
}.

Definition join_persona (ps : list persona) (c : chat) : option persona_ref :=
  match c_persona_id c with
  | Some i =>
      match find (fun p => eqb (p_id p) i) ps with
      | Some p => Some {| r_id := p_id p; r_name := p_name p;
                          r_voice_name := p_voice_name p |}
      | None => None
      end
  | None => None
  end.

(** [DatabaseService.getChat]: the row, [null] on any error. *)
Definition getChat (f : faults) (ps : list persona) (t : table)
    (uid chatId : jsstring) : option chat_view :=
  match select_single f t chatId uid with
  | Ok c => Some {| v_chat := c; v_personas := join_persona ps c |}
  | Throw _ => None
  end.

(** Messages come in turns: one of the user, then one of the assistant
    with its persona. *)
Fixpoint in_turns (ms : list message) : Prop :=
  match ms with
  | [] => True
  | u :: a :: rest =>
      m_role u = user /\ m_persona u = None /\ m_personaId u = None
      /\ m_role a = assistant /\ m_persona a <> None /\ m_personaId a <> None
      /\ in_turns rest
  | [_] => False
  end.

(** Every chat of the table holds whole turns. *)
Definition whole_turns (t : table) : Prop :=
  forall c, In c t -> in_turns (c_messages c).

End DbReads.

(* ================================================================== *)
(** * server.js: the chat endpoints that read and delete *)

Module Chats.
Import JsString World Db DbReads.

Definition with_content (content : jsstring) (m : message) : message :=
  {| m_role := m_role m; m_content := content; m_timestamp := m_timestamp m;
     m_audioUrl := m_audioUrl m; m_videoUrl := m_videoUrl m;
     m_persona := m_persona m; m_personaId := m_personaId m |}.

Definition with_audioUrl (audioUrl : option jsstring) (m : message) : message :=
  {| m_role := m_role m; m_content := m_content m; m_timestamp := m_timestamp m;
     m_audioUrl := audioUrl; m_videoUrl := m_videoUrl m;
     m_persona := m_persona m; m_personaId := m_personaId m |}.

Definition with_videoUrl (videoUrl : option jsstring) (m : message) : message :=
  {| m_role := m_role m; m_content := m_content m; m_timestamp := m_timestamp m;
     m_audioUrl := m_audioUrl m; m_videoUrl := videoUrl;
     m_persona := m_persona m; m_personaId := m_personaId m |}.

(** A stored reference that is an S3 key: it does not start with [http]
    and holds no question mark. *)
Definition is_s3_key (url : jsstring) : bool :=
  negb (startsWith url (js "http")) && negb (includes url (js "?")).

(** One media reference of a message: signed when it is an S3 key, left as
    it is otherwise. *)
Definition sign_reference (w : env) (url : option jsstring)
  : result (option jsstring) :=
  match url with
  | Some (c :: u) =>
      if is_s3_key (c :: u) then
        signed <- getSignedUrl w (c :: u) 3600 ;; Ok (Some signed)
      else Ok url
  | _ => Ok url
  end.

(** The body of the [map] in [signMediaUrlsInMessages]: the copy of the
    message keeps what was assigned before anything threw. *)
Definition sign_message (w : env) (message : Db.message) : Db.message :=
  match sign_reference w (m_audioUrl message) with
  | Throw _signError => message
  | Ok audioUrl =>
      let signedMessage := with_audioUrl audioUrl message in
      match sign_reference w (m_videoUrl message) with
      | Throw _signError => signedMessage
      | Ok videoUrl => with_videoUrl videoUrl signedMessage
      end
  end.

Definition signMediaUrlsInMessages (w : env) (messages : list message)
  : list message :=
  map (sign_message w) messages.

Inductive body : Type :=
| ErrorJson (error : string)
| ChatJson (chat : chat) (persona : option persona_ref)   (* { chat } *)
| DeletedJson.                      (* { success: true, message } *)

Record response := { status : nat; payload : body }.

Definition clean_message (m : message) : message :=
  with_content (Clean.cleanResponseText (m_content m)) m.

(** [GET /api/chats/:uid/:chatId]. *)
Definition get_chat_handler (w : env) (f : faults) (ps : list persona)
    (t : table) (uid chatId : jsstring) : response :=
  match getChat f ps t uid chatId with
  | None => {| status := 404; payload := ErrorJson "Chat not found" |}
  | Some v =>
      let chat := v_chat v in
      let messages := map clean_message (c_messages chat) in
      let messages := signMediaUrlsInMessages w messages in
      {| status := 200;
         payload :=
           ChatJson {| c_id := c_id chat; c_user_id := c_user_id chat;
                       c_persona_id := c_persona_id chat;
                       c_title := c_title chat; c_messages := messages;
                       c_updated_at := c_updated_at chat |}
                    (v_personas v) |}
  end.

(** [DELETE /api/chats/:uid/:chatId]: the rows that match are removed;
    that none matched is no error. *)
Definition delete_chat_handler (f : faults) (t : table) (uid chatId : jsstring)
  : response * table :=
  if write_fails f then
    ({| status := 500; payload := ErrorJson "Failed to delete chat" |}, t)
  else
    ({| status := 200; payload := DeletedJson |},
     filter (fun c => negb (owned_by chatId uid c)) t).

(** What signing may do to a stored reference: keep it, or replace an S3
    key by the URL that the signer answered for it with an hour's
    validity. *)
Definition kept_or_signed (w : env) (stored served : option jsstring) : Prop :=
  served = stored
  \/ exists key signed,
       stored = Some key /\ is_s3_key key = true
       /\ getSignedUrl w key 3600 = Ok signed /\ served = Some signed.

(** The fields of a message that signing does not touch. *)
Definition same_text (m m' : message) : Prop :=
  m_role m' = m_role m /\ m_content m' = m_content m
  /\ m_timestamp m' = m_timestamp m
  /\ m_persona m' = m_persona m /\ m_personaId m' = m_personaId m.

(** The messages a response carries. *)
Definition served_messages (r : response) : list message :=
  match payload r with
  | ChatJson chat _ => c_messages chat
  | _ => []
  end.

(** An assistant message whose audio was stored by the local fallback. *)
Definition local_audio_message : message :=
  {| m_role := assistant; m_content := js "[warmly] Good evening.";
     m_timestamp := js "2025-01-02T10:00:00.001Z";
     m_audioUrl := Some (js "http://localhost:3001/api/audio/u-1/c-1/a1.pcm");
     m_videoUrl := None;
     m_persona := Some (js "Morgan"); m_personaId := Some (js "p-1") |}.

(** A world whose signing fails. *)
Definition unsigned_world : env :=
  {| getSignedUrl := fun _ _ => Throw (Error "Failed to generate signed URL");
     fetch := fun _ => Throw (Error "fetch failed") |}.

End Chats.

(* ================================================================== *)
(** * utils/db.js: the personas and their cache *)

Module Personas.
Import JsString World Db.

Definition PERSONAS_CACHE_TTL : Z := 1000 * 60 * 60 * 24.     (* 24 hours *)

(** The two fields of the service that hold the cache; both are [null]
    at first. *)
Record cache := {
  personasCache : option (list persona);
  lastPersonasCacheTime : option Z
}.

Definition empty_cache : cache :=
  {| personasCache := None; lastPersonasCacheTime := None |}.

(** [personas || []]. *)
Definition or_empty (personas : option (list persona)) : list persona :=
  match personas with Some l => l | None => [] end.

(** [now - this.lastPersonasCacheTime]; [null] counts as zero. *)
Definition age (now : Z) (st : cache) : Z :=
  (now - match lastPersonasCacheTime st with Some t => t | None => 0 end)%Z.

(** [DatabaseService.getPersonas] at time [now], [query] being what the
    database would answer ([Ok None]: no error and no data).  It returns
    the personas, the cache afterwards, and whether the database was
    asked. *)
Definition getPersonas (st : cache) (now : Z)
    (query : result (option (list persona))) : list persona * cache * bool :=
  let fetch :=
    match query with
    | Ok personas =>
        let fresh := or_empty personas in
        (fresh,
         {| personasCache := Some fresh; lastPersonasCacheTime := Some now |},
         true)
    | Throw _ =>
        (match personasCache st with Some cached => cached | None => [] end,
         st, true)
    end in
  match personasCache st with
  | Some cached =>
      if (age now st <? PERSONAS_CACHE_TTL)%Z then (cached, st, false)
      else fetch
  | None => fetch
  end.

Definition with_image_url (image_url : option jsstring) (p : persona) : persona :=
  {| p_id := p_id p; p_name := p_name p; p_voice_name := p_voice_name p;
     p_image_url := image_url |}.

(** The body of the [map] in [GET /api/personas]; [url_pathname] is
    [new URL(u).pathname], which throws on what is no URL. *)
Definition sign_persona (w : env) (url_pathname : jsstring -> result jsstring)
    (persona : Db.persona) : Db.persona :=
  match p_image_url persona with
  | Some (c :: u) =>
      match (pathname <- url_pathname (c :: u) ;;
             let s3Key := skipn 1 pathname in
             getSignedUrl w s3Key 86400) with
      | Ok signedUrl => with_image_url (Some signedUrl) persona
      | Throw _ => with_image_url None persona
      end
  | _ => persona
  end.

(** [GET /api/personas]: the status, the personas served and the cache
    afterwards. *)
Definition personas_handler (w : env) (url_pathname : jsstring -> result jsstring)
    (st : cache) (now : Z) (query : result (option (list persona)))
  : nat * list persona * cache :=
  let '(personas, st', _) := getPersonas st now query in
  (200, map (sign_persona w url_pathname) personas, st').

End Personas.

(* ================================================================== *)
(** * Regular expressions of the shape the server uses *)

Module Regex.
Import JsString.

(** What one unit is matched against. *)
Inductive atom : Type :=
| Unit (c : char)            (* a literal unit *)
| NoSpaceNoAt.               (* [^\s@] *)

Definition AT : char := 64%N.
Definition DOT : char := 46%N.

Definition holds (a : atom) (c : char) : bool :=
  match a with
  | Unit x => N.eqb c x
  | NoSpaceNoAt => negb (is_ws c) && negb (N.eqb c AT)
  end.

Inductive item : Type :=
| One (a : atom)             (* a *)
| Plus (a : atom).           (* a+ *)

(** [/^p$/.test(s)] for a sequence [p] of items: a [+] takes one unit or
    more and gives units back until the rest matches. *)
Fixpoint test (p : list item) : jsstring -> bool :=
  match p with
  | [] => fun s => match s with [] => true | _ :: _ => false end
  | One a :: rest =>
      fun s => match s with
               | c :: t => holds a c && test rest t
               | [] => false
               end
  | Plus a :: rest =>
      fix plus (s : jsstring) : bool :=
        match s with
        | c :: t => holds a c && (plus t || test rest t)
        | [] => false
        end
  end.

(** [/^[^\s@]+@[^\s@]+\.[^\s@]+$/]. *)
Definition emailRegex : list item :=
  [Plus NoSpaceNoAt; One (Unit AT); Plus NoSpaceNoAt; One (Unit DOT);
   Plus NoSpaceNoAt].

(** A run that [[^\s@]+] matches: not empty, without white space and
    without an at sign. *)
Definition plain (s : jsstring) : Prop :=
  s <> [] /\ Forall (fun c => is_ws c = false /\ c <> AT) s.

End Regex.

(* ================================================================== *)
(** * utils/db.js and server.js: the profiles *)

Module Profiles.
Import JsString Json Db DbReads Regex.

(** A field of the request body that is a string, [null] or left out. *)
Inductive field : Type :=
| Absent
| Null
| Str (s : jsstring).

Definition given (f : field) : bool :=
  match f with
  | Str (_ :: _) => true
  | _ => false
  end.

(** A row of [profiles]; [user_id] is [not null] and [unique]. *)
Record profile := {
  user_id : jsstring;
  display_name : option jsstring;
  email : option jsstring;
  persona_id : option jsstring;
  is_saved_to_supabase : bool;
  updated_at : jsstring
}.

Definition profiles := list profile.

Definition of_user (uid : jsstring) (p : profile) : bool := eqb (user_id p) uid.

(** [.select(..).eq('user_id', uid).maybeSingle()]. *)
Definition select_profile (f : faults) (t : profiles) (uid : jsstring)
  : result (option profile) :=
  if select_fails f then Throw (Error "select")
  else match filter (of_user uid) t with
       | [] => Ok None
       | [p] => Ok (Some p)
       | _ => Throw (Error "multiple rows")
       end.

(** The value a column takes from a field of [profileData]: a field that
    is [undefined] is left out of the request, so that the column keeps
    [old] (its default on insert). *)
Definition column (f : field) (old : option jsstring) : option jsstring :=
  match f with
  | Absent => old
  | Null => None
  | Str s => Some s
  end.

(** [DatabaseService.saveProfile]: what it returns or throws, and the
    table afterwards. *)
Definition saveProfile (f : faults) (now : jsstring) (t : profiles)
    (uid : jsstring) (displayName : field) (email : jsstring) (personaId : field)
  : result profile * profiles :=
  match select_profile f t uid with
  | Throw selectError => (Throw selectError, t)
  | Ok (Some existingProfile) =>
      if write_fails f then (Throw (Error "update"), t)
      else
        let update p :=
          {| user_id := uid;
             display_name := column displayName (display_name p);
             email := Some email;
             persona_id := column personaId (persona_id p);
             is_saved_to_supabase := true;
             updated_at := now |} in
        let t' := map (fun p => if of_user uid p then update p else p) t in
        match filter (of_user uid) t' with
        | [updatedProfile] => (Ok updatedProfile, t')
        | _ => (Throw (Error "no single row"), t')
        end
  | Ok None =>
      if write_fails f then (Throw (Error "insert"), t)
      else
        let newProfile :=
          {| user_id := uid;
             display_name := column displayName None;
             email := Some email;
             persona_id := column personaId None;
             is_saved_to_supabase := true;
             updated_at := now |} in
        (Ok newProfile, t ++ [newProfile])
  end.

(** [DatabaseService.getProfile]. *)
Definition getProfile (f : faults) (t : profiles) (uid : jsstring)
  : result (option profile) :=
  select_profile f t uid.

(** [DatabaseService.deleteProfile]:
    [.delete().eq('user_id', uid).select().maybeSingle()]. *)
Definition deleteProfile (f : faults) (t : profiles) (uid : jsstring)
  : result (option profile) * profiles :=
  if write_fails f then (Throw (Error "delete"), t)
  else match filter (of_user uid) t with
       | [] => (Ok None, t)
       | [deletedProfile] =>
           (Ok (Some deletedProfile),
            filter (fun p => negb (of_user uid p)) t)
       | _ => (Throw (Error "multiple rows"), t)
       end.

(** The profile as the endpoints answer it; the row has no column [uid],
    so that the answer carries none. *)
Record profile_json := {
  j_displayName : option jsstring;
  j_email : option jsstring;
  j_personaId : option jsstring;
  j_persona : option persona_ref;
  j_isSavedToSupabase : bool;
  j_savedAt : jsstring
}.

Inductive body : Type :=
| ErrorJson (error : string)
| SavedJson (profile : profile_json)       (* { success: true, profile } *)
| ProfileJson (profile : profile_json)     (* { profile } *)
| DeletedJson (displayName email : option jsstring).

Record response := { status : nat; payload : body }.

Section Endpoints.

(** The joined [personas ( id, name, voice_name )] of a row. *)
Variable joined : profile -> option persona_ref.

Definition to_json (p : profile) : profile_json :=
  {| j_displayName := display_name p; j_email := email p;
     j_personaId := persona_id p; j_persona := joined p;
     j_isSavedToSupabase := is_saved_to_supabase p; j_savedAt := updated_at p |}.

(** [POST /api/profile/save]; [personas] is what [db.getPersonas()]
    returns, [email] any value of the body. *)
Definition save_profile_handler (f : faults) (now : jsstring)
    (personas : list persona) (t : profiles)
    (uid displayName : field) (email : value) (personaId : field)
  : response * profiles :=
  let failed := {| status := 500; payload := ErrorJson "Failed to save profile" |} in
  let required :=
    {| status := 400; payload := ErrorJson "Email is required to save profile" |} in
  match uid with
  | Str (u0 :: u) =>
      match email with
      | JString text =>
          if Nat.eqb (length text) 0 || Nat.eqb (length (trim text)) 0 then
            (required, t)
          else if negb (test emailRegex (trim text)) then
            ({| status := 400; payload := ErrorJson "Invalid email format" |}, t)
          else if given personaId
                  && match personaId with
                     | Str i =>
                         match find (fun p => eqb (p_id p) i) personas with
                         | Some _ => false
                         | None => true
                         end
                     | _ => false
                     end
          then ({| status := 400; payload := ErrorJson "Invalid persona ID" |}, t)
          else
            match saveProfile f now t (u0 :: u) displayName (trim text) personaId with
            | (Ok savedProfile, t') =>
                ({| status := 200; payload := SavedJson (to_json savedProfile) |}, t')
            | (Throw _, t') => (failed, t')
            end
      | other =>
          if truthy other then (failed, t)       (* email.trim is not a function *)
          else (required, t)
      end
  | _ => ({| status := 400; payload := ErrorJson "UID is required" |}, t)
  end.

(** [GET /api/profile/:uid]. *)
Definition get_profile_handler (f : faults) (t : profiles) (uid : jsstring)
  : response :=
  match uid with
  | [] => {| status := 400; payload := ErrorJson "UID is required" |}
  | _ =>
      match getProfile f t uid with
      | Throw _ => {| status := 500; payload := ErrorJson "Failed to load profile" |}
      | Ok None => {| status := 404; payload := ErrorJson "Profile not found" |}
      | Ok (Some profile) =>
          {| status := 200; payload := ProfileJson (to_json profile) |}
      end
  end.

(** [DELETE /api/profile/:uid]. *)
Definition delete_profile_handler (f : faults) (t : profiles) (uid : jsstring)
  : response * profiles :=
  match uid with
  | [] => ({| status := 400; payload := ErrorJson "UID is required" |}, t)
  | _ =>
      match deleteProfile f t uid with
      | (Throw _, t') =>
          ({| status := 500; payload := ErrorJson "Failed to delete profile" |}, t')
      | (Ok None, t') =>
          ({| status := 404; payload := ErrorJson "Profile not found" |}, t')
      | (Ok (Some deletedProfile), t') =>
          ({| status := 200;
              payload := DeletedJson (display_name deletedProfile)
                           (email deletedProfile) |}, t')
      end
  end.

End Endpoints.

(** [user_id] is unique in the table. *)
Definition unique_users (t : profiles) : Prop := NoDup (map user_id t).

(** The email of every row is one the save endpoint accepts: trimmed and
    of the form the expression asks for. *)
Definition emails_checked (t : profiles) : Prop :=
  forall p, In p t ->
    exists text, email p = Some text /\ test emailRegex text = true
                 /\ trim text = text.

(** What [saveProfile] does to the table. *)
Inductive saved_profile (now : jsstring) (t : profiles) (uid : jsstring)
    (displayName : field) (email : jsstring) (personaId : field)
  : profile -> profiles -> Prop :=
| saved_inserted :
    filter (of_user uid) t = [] ->
    let row := {| user_id := uid; display_name := column displayName None;
                  email := Some email; persona_id := column personaId None;
                  is_saved_to_supabase := true; updated_at := now |} in
    saved_profile now t uid displayName email personaId row (t ++ [row])
| saved_updated old :
    filter (of_user uid) t = [old] ->
    let row := {| user_id := uid;
                  display_name := column displayName (display_name old);
                  email := Some email;
                  persona_id := column personaId (persona_id old);
                  is_saved_to_supabase := true; updated_at := now |} in
    saved_profile now t uid displayName email personaId row
      (map (fun p => if of_user uid p then
                       {| user_id := uid;
                          display_name := column displayName (display_name p);
                          email := Some email;
                          persona_id := column personaId (persona_id p);
                          is_saved_to_supabase := true; updated_at := now |}
                     else p) t).

(** ** Sample data *)

Definition no_join : profile -> option persona_ref := fun _ => None.

Definition sample_profile : profile :=
  {| user_id := js "u-1"; display_name := Some (js "Ada");
     email := Some (js "ada@example.org"); persona_id := None;
     is_saved_to_supabase := true; updated_at := js "2025-01-02T09:00:00.000Z" |}.

End Profiles.

(* ================================================================== *)
(** * utils/s3.js: the object store *)

Module S3.
Import JsString.

(** The client: what [send(new PutObjectCommand(..))] and the presigner
    answer. *)
Record client := {
  put_object : jsstring -> Buffer.buffer -> result unit;
  presign : jsstring -> nat -> result jsstring
}.

(** [S3Service.uploadAudioFile]; [audioUuid] is what [randomUUID()]
    returns.  The message of the error thrown goes on with the cause. *)
Definition uploadAudioFile (s3 : client) (audioUuid : jsstring)
    (audioBuffer : Buffer.buffer) (uid chatId : jsstring) : result jsstring :=
  let filename := audioUuid ++ js ".pcm" in
  let key := uid ++ js "/" ++ chatId ++ js "/" ++ filename in
  match put_object s3 key audioBuffer with
  | Ok _ => Ok key
  | Throw _ => Throw (Error "Failed to upload audio to S3")
  end.

(** [S3Service.uploadVideoFile]. *)
Definition uploadVideoFile (s3 : client) (videoUuid : jsstring)
    (videoBuffer : Buffer.buffer) (uid chatId : jsstring) : result jsstring :=
  let filename := videoUuid ++ js ".mp4" in
  let key := uid ++ js "/" ++ chatId ++ js "/" ++ filename in
  match put_object s3 key videoBuffer with
  | Ok _ => Ok key
  | Throw _ => Throw (Error "Failed to upload video to S3")
  end.

(** [S3Service.uploadMultiSpeakerAudio]: the same audio twice, under two
    names. *)
Definition uploadMultiSpeakerAudio (s3 : client) (userUuid assistantUuid : jsstring)
    (audioBuffer : Buffer.buffer) (uid chatId : jsstring)
  : result (jsstring * jsstring) :=
  match (userKey <- uploadAudioFile s3 userUuid audioBuffer uid chatId ;;
         assistantKey <- uploadAudioFile s3 assistantUuid audioBuffer uid chatId ;;
         Ok (userKey, assistantKey)) with
  | Ok keys => Ok keys
  | Throw _ => Throw (Error "Failed to upload multi-speaker audio to S3")
  end.

(** [S3Service.getSignedUrl]. *)
Definition getSignedUrl (s3 : client) (key : jsstring) (expiresIn : nat)
  : result jsstring :=
  match presign s3 key expiresIn with
  | Ok signedUrl => Ok signedUrl
  | Throw _ => Throw (Error "Failed to generate signed URL")
  end.

(** A store that takes and signs everything. *)
Definition sample_client : client :=
  {| put_object := fun _ _ => Ok tt;
     presign := fun key _ => Ok (js "https://s3/" ++ key ++ js "?sig") |}.

End S3.

(* ================================================================== *)
(** * utils/helpers.js: saving the audio *)

Module Helpers.
Import JsString S3.

(** What the fallback reads of the request and of the environment. *)
Record request_info := {
  x_forwarded_proto : option jsstring;       (* req.get('x-forwarded-proto') *)
  x_forwarded_protocol : option jsstring;    (* req.get('x-forwarded-protocol') *)
  secure : bool;                             (* req.secure *)
  encrypted : bool;                          (* req.connection.encrypted *)
  host : option jsstring;                    (* req.get('host') *)
  env_PORT : option jsstring                 (* process.env.PORT *)
}.

(** [a || b] for strings that may be [undefined]. *)
Definition or_string (a b : option jsstring) : option jsstring :=
  match a with
  | Some (_ :: _) => a
  | _ => b
  end.

(** [saveAudioFileLocal]; [written] tells how creating the directory and
    writing the file went. *)
Definition saveAudioFileLocal (written : result unit) (audioUuid : jsstring)
    (req : request_info) (uid chatId : jsstring) : option jsstring :=
  let filename := audioUuid ++ js ".pcm" in
  match written with
  | Throw _ => None
  | Ok _ =>
      let forwardedProto :=
        or_string (x_forwarded_proto req) (x_forwarded_protocol req) in
      let isSecure :=
        match forwardedProto with
        | Some p => eqb p (js "https")
        | None => false
        end || secure req || encrypted req in
      let port := match or_string (env_PORT req) (Some (js "3000")) with
                  | Some p => p
                  | None => js "3000"
                  end in
      let host := match or_string (host req) (Some (js "localhost:" ++ port)) with
                  | Some h => h
                  | None => js "localhost:" ++ port
                  end in
      let isReplitDomain := includes host (js ".replit.dev") in
      let protocol := if isSecure || isReplitDomain then js "https" else js "http" in
      Some (protocol ++ js "://" ++ host ++ js "/api/audio/" ++ uid ++ js "/"
              ++ chatId ++ js "/" ++ filename)
  end.

(** [saveAudioFile], the audio being decoded already: the S3 key when the
    upload and its check succeed, what the fallback returns otherwise. *)
Definition saveAudioFile (s3 : client) (written : result unit)
    (s3Uuid localUuid : jsstring) (req : request_info)
    (audioBuffer : Buffer.buffer) (uid chatId : jsstring) : option jsstring :=
  match (s3Key <- uploadAudioFile s3 s3Uuid audioBuffer uid chatId ;;
         _ <- match getSignedUrl s3 s3Key 60 with
              | Ok url => Ok url
              | Throw _ => Throw (Error "S3 upload verification failed")
              end ;;
         Ok s3Key) with
  | Ok s3Key => Some s3Key
  | Throw _ => saveAudioFileLocal written localUuid req uid chatId
  end.

(** [saveMultiSpeakerAudio]: [(userAudioUrl, assistantAudioUrl)]. *)
Definition saveMultiSpeakerAudio (s3 : client) (written1 written2 : result unit)
    (userUuid assistantUuid localUuid1 localUuid2 : jsstring) (req : request_info)
    (audioBuffer : Buffer.buffer) (uid chatId : jsstring)
  : option jsstring * option jsstring :=
  match (keys <- uploadMultiSpeakerAudio s3 userUuid assistantUuid audioBuffer
                   uid chatId ;;
         let (userKey, assistantKey) := (keys : jsstring * jsstring) in
         _ <- match (_ <- getSignedUrl s3 userKey 60 ;;
                     getSignedUrl s3 assistantKey 60) with
              | Ok url => Ok url
              | Throw _ =>
                  Throw (Error "Multi-speaker S3 upload verification failed")
              end ;;
         Ok keys) with
  | Ok (userKey, assistantKey) => (Some userKey, Some assistantKey)
  | Throw _ =>
      (saveAudioFileLocal written1 localUuid1 req uid chatId,
       saveAudioFileLocal written2 localUuid2 req uid chatId)
  end.

(** A request that came over plain HTTP to a local server. *)
Definition local_request : request_info :=
  {| x_forwarded_proto := None; x_forwarded_protocol := None;
     secure := false; encrypted := false;
     host := Some (js "localhost:3001"); env_PORT := Some (js "3001") |}.

(** A store that refuses every upload. *)
Definition refusing_client : client :=
  {| put_object := fun _ _ => Throw (Error "AccessDenied");
     presign := fun key _ => Ok (js "https://s3/" ++ key ++ js "?sig") |}.

End Helpers.

(* ================================================================== *)
(** * utils/videoGeneration.js: the workflow and the download *)

Module Workflow.
Import JsString Json.

(** [v[k]] for a key that is an array index or that no built-in prototype
    has: a TypeError on [null] and [undefined], the own property of an
    object, the element of an array, the unit of a string, [undefined]
    elsewhere. *)
Definition member (v : value) (k : jsstring) : result value :=
  match v with
  | JUndefined | JNull => Throw TypeError
  | JObject props =>
      Ok (match lookup k props with Some x => x | None => JUndefined end)
  | JArray items =>
      Ok (match array_index k with
          | Some n => nth (N.to_nat n) items JUndefined
          | None => JUndefined
          end)
  | JString s =>
      Ok (match array_index k with
          | Some n =>
              match nth_error s (N.to_nat n) with
              | Some c => JString [c]
              | None => JUndefined
              end
          | None => JUndefined
          end)
  | JBool _ | JNumber _ => Ok JUndefined
  end.

(** [v.k = x] in strict code, for a key that is no array index: the value
    afterwards, as the JSON text of a request shows it.  An object gets
    or changes the property; a property of that name set on an array does
    not show in its JSON text; a primitive cannot take a property. *)
Definition assign (v : value) (k : jsstring) (x : value) : result value :=
  match v with
  | JObject props => Ok (JObject (set_prop props k x))
  | JArray items => Ok (JArray items)
  | JUndefined | JNull | JBool _ | JNumber _ | JString _ => Throw TypeError
  end.

Fixpoint replace_nth (n : nat) (x : value) (items : list value) : list value :=
  match items, n with
  | [], _ => []
  | _ :: t, O => x :: t
  | y :: t, S n' => y :: replace_nth n' x t
  end.

(** The value [v] after its member [k], which it has, was changed into
    [x] in place. *)
Definition with_member (v : value) (k : jsstring) (x : value) : value :=
  match v with
  | JObject props =>
      match replace_prop k x props with
      | Some props' => JObject props'
      | None => v
      end
  | JArray items =>
      match array_index k with
      | Some n => JArray (replace_nth (N.to_nat n) x items)
      | None => v
      end
  | _ => v
  end.

(** [if (workflowData[node] && workflowData[node].inputs)
       workflowData[node].inputs[key] = filename]. *)
Definition update_input (workflowData : value) (node key filename : jsstring)
  : result value :=
  entry <- member workflowData node ;;
  if truthy entry then
    inputs <- member entry (js "inputs") ;;
    if truthy inputs then
      inputs' <- assign inputs key (JString filename) ;;
      Ok (with_member workflowData node
            (with_member entry (js "inputs") inputs'))
    else Ok workflowData
  else Ok workflowData.

(** [VideoGenerationService.updateWorkflowWithFiles]: the workflow
    afterwards. *)
Definition updateWorkflowWithFiles (workflowData : value)
    (audioFilename imageFilename : jsstring) : result value :=
  workflowData <- update_input workflowData (js "125") (js "audio") audioFilename ;;
  update_input workflowData (js "133") (js "image") imageFilename.

(** [workflow[node].inputs[key]], [None] where a step is missing. *)
Definition input_of (workflow : value) (node key : jsstring) : option value :=
  match workflow with
  | JObject nodes =>
      match lookup node nodes with
      | Some (JObject entry) =>
          match lookup (js "inputs") entry with
          | Some (JObject inputs) => lookup key inputs
          | _ => None
          end
      | _ => None
      end
  | _ => None
  end.

(** The two loader nodes of the workflow file, with other nodes around
    them. *)
Definition sample_workflow : value :=
  JObject
    [ (js "120", JObject [(js "inputs", JObject [(js "base_precision", JString (js "fp16"))]);
                          (js "class_type", JString (js "MultiTalkModelLoader"))]);
      (js "125", JObject [(js "inputs", JObject [(js "audio", JString (js "aistudio2.wav"));
                                                 (js "audioUI", JString [])]);
                          (js "class_type", JString (js "LoadAudio"))]);
      (js "133", JObject [(js "inputs", JObject [(js "image", JString (js "ComfyUI_00143_.png"))]);
                          (js "class_type", JString (js "LoadImage"))]) ].

End Workflow.

Module Download.
Import JsString Json Workflow.

(** What [fetch(.../view?...)] resolved to, with its body. *)
Record file_reply := { ok : bool; status : nat; bytes : Buffer.buffer }.

(** [ComfyUI.getFile], given what the server answered. *)
Definition getFile (reply : result file_reply) : result Buffer.buffer :=
  match reply with
  | Throw e => Throw e
  | Ok r =>
      if negb (ok r) then Throw (StatusError (status r))
      else if Nat.eqb (length (bytes r)) 0
           then Throw (Error "Received empty file from ComfyUI")
           else Ok (bytes r)
  end.

(** [a || 'literal']. *)
Definition or_literal (a : value) (literal : jsstring) : value :=
  if truthy a then a else JString literal.

(** [outputs.gifs.length === 0]. *)
Definition no_entries (gifs : value) : bool :=
  match gifs with
  | JArray items => Nat.eqb (length items) 0
  | JString s => Nat.eqb (length s) 0
  | JObject props =>
      match lookup (js "length") props with
      | Some (JNumber n) => number_is_zero n
      | _ => false
      end
  | _ => false
  end.

(** [VideoGenerationService.downloadGeneratedVideo]; [view] is what the
    server answers when asked for a file name, a subfolder and a type,
    which the query string of the request holds as strings. *)
Definition downloadGeneratedVideo
    (view : value -> value -> value -> result file_reply) (message : value)
  : result Buffer.buffer :=
  data <- member message (js "data") ;;
  outputs <- member data (js "output") ;;
  gifs <- (if truthy outputs then member outputs (js "gifs") else Ok JUndefined) ;;
  if negb (truthy outputs) || negb (truthy gifs) || no_entries gifs then
    Throw (Error "No video output found in ComfyUI response")
  else
    videoInfo <- member gifs (js "0") ;;
    filename <- member videoInfo (js "filename") ;;
    subfolder <- member videoInfo (js "subfolder") ;;
    type <- member videoInfo (js "type") ;;
    let subfolder := or_literal subfolder [] in
    let type := or_literal type (js "output") in
    (* new url.URLSearchParams({ filename, subfolder, type }) *)
    _ <- to_primitive filename ;;
    _ <- to_primitive subfolder ;;
    _ <- to_primitive type ;;
    videoBuffer <- getFile (view filename subfolder type) ;;
    if Nat.ltb (length videoBuffer) 1000 then Throw (Error "Video file too small")
    else Ok videoBuffer.

(** An [executed] message of the save node. *)
Definition sample_executed : value :=
  JObject
    [ (js "type", JString (js "executed"));
      (js "data",
       JObject
         [ (js "node", JString (js "131"));
           (js "prompt_id", JString (js "job-1"));
           (js "output",
            JObject
              [ (js "gifs",
                 JArray [JObject [(js "filename", JString (js "WanVideo2_1_00001.mp4"));
                                  (js "subfolder", JString []);
                                  (js "type", JString (js "output"))]]) ]) ]) ].

(** A server that answers every request with [n] zero octets. *)
Definition view_of_size (n : nat) : value -> value -> value -> result file_reply :=
  fun _ _ _ => Ok {| ok := true; status := 200; bytes := repeat 0%Z n |}.

End Download.

(* ================================================================== *)
(** * utils/brightdata.js: locations and ages *)

Module Locations.
Import JsString Json BrightData.

(** [getSupportedLocations]: the keys of the table, in the order of their
    creation (none of them is an array index). *)
Definition getSupportedLocations : list jsstring :=
  map fst LOCATION_SUBREDDITS.

(** What a lookup in the table yields: the subreddits of a key of its
    own, a member that every object inherits, or [undefined]. *)
Inductive entry : Type :=
| Listed (subreddits : list jsstring)
| Inherited
| Undefined.

Section Lookup.

Variable toLowerCase : jsstring -> jsstring.

(** [LOCATION_SUBREDDITS[location.toLowerCase()]]. *)
Definition table_entry (location : jsstring) : entry :=
  let key := toLowerCase location in
  match assoc key LOCATION_SUBREDDITS with
  | Some subreddits => Listed subreddits
  | None =>
      if existsb (eqb key) inherited_keys || existsb (eqb key) inherited_nullary
      then Inherited
      else Undefined
  end.

(** [getSubredditsForLocation]: [entry || []]. *)
Definition getSubredditsForLocation (location : jsstring) : entry :=
  match table_entry location with
  | Undefined => Listed []
  | e => e
  end.

End Lookup.

(** Lower case of the units that are ASCII letters. *)
Definition lower_ascii (s : jsstring) : jsstring :=
  map (fun c => if ((65 <=? c) && (c <=? 90))%N then (c + 32)%N else c) s.

End Locations.

Module TimeAgo.
Import JsString.

(** The decimal digits of a number below one hundred, as a template
    literal prints it. *)
Definition decimal (n : Z) : jsstring :=
  let d (k : Z) : char := Z.to_N (48 + k) in
  if (n <? 10)%Z then [d n] else [d (n / 10)%Z; d (n mod 10)%Z].

Section Ago.

(** [date.toLocaleDateString()], which depends on the locale of the
    server; [None] is the invalid date. *)
Variable toLocaleDateString : option Z -> jsstring.

(** [getTimeAgo(date)], [now] and [date] being the time values in
    milliseconds, [None] that of an invalid date; for time values less
    than [2^52] apart, so that the quotient of the doubles has the
    integral part of the exact quotient.  With an invalid date every
    comparison is false. *)
Definition getTimeAgo (now : Z) (date : option Z) : jsstring :=
  match date with
  | None => toLocaleDateString date
  | Some time =>
      let diffMs := (now - time)%Z in
      let diffHours := (diffMs / (1000 * 60 * 60))%Z in       (* Math.floor *)
      let diffDays := (diffHours / 24)%Z in
      if (diffHours <? 1)%Z then js "Less than 1 hour ago"
      else if (diffHours <? 24)%Z then
        decimal diffHours ++ js " hour"
          ++ (if (1 <? diffHours)%Z then js "s" else []) ++ js " ago"
      else if (diffDays <? 7)%Z then
        decimal diffDays ++ js " day"
          ++ (if (1 <? diffDays)%Z then js "s" else []) ++ js " ago"
      else toLocaleDateString date
  end.

End Ago.

End TimeAgo.

(* ================================================================== *)
(** * utils/videoGeneration.js: one video job *)

Module VideoJob.
Import JsString Json Comfy.

(** How a promise ends: it settles, resolved or rejected, or it stays
    pending for ever. *)
Inductive promise (A : Type) : Type :=
| Settled (r : result A)
| Pending.

Arguments Settled {A} r.
Arguments Pending {A}.

(** When a frame arrives on the socket: while the audio is uploaded,
    while the image is uploaded, while the workflow is submitted, or
    after the submission was answered. *)
Inductive phase : Type := AudioUpload | ImageUpload | Submission | Waiting.

(** What the world does during one call of [generateVideo].  The frames
    of a phase are finite; after the last one the socket stays silent,
    open or closed ([onclose] only logs). *)
Record job_world := {
  workflow_file : result jsstring;        (* fs.readFileSync(workflowPath) *)
  audio_uuid : jsstring;                  (* randomUUID() of the audio name *)
  image_uuid : jsstring;                  (* randomUUID() of the image name *)
  client_uuid : jsstring;                 (* randomUUID() of the bridge *)
  opens : bool;                           (* the socket opens within 30 s *)
  frames : phase -> list ws_data;
  upload_audio : result unit;             (* comfyUI.uploadAudio(..) *)
  upload_image : result unit;             (* comfyUI.uploadImage(..) *)
  prompt_reply : value -> result http_reply;    (* POST /prompt *)
  view : value -> value -> value -> result Download.file_reply;
  store : S3.client;
  video_uuid : jsstring                   (* randomUUID() of the video key *)
}.

(** The save callback: download the video, upload it, and resolve with
    its key, or reject with what was thrown. *)
Definition save_attempt (w : job_world) (uid chatId : jsstring) (message : value)
  : result jsstring :=
  videoData <- Download.downloadGeneratedVideo (view w) message ;;
  S3.uploadVideoFile (store w) (video_uuid w) videoData uid chatId.

(** The calls of [resolve] and [reject] that the callbacks make for the
    events of the bridge, in their order.  The message callback rejects
    on an [execution_error]. *)
Definition attempts (w : job_world) (uid chatId : jsstring) (events : list event)
  : list (result jsstring) :=
  flat_map
    (fun e =>
       match e with
       | SaveCallback message _ => [save_attempt w uid chatId message]
       | MessageCallback message _ =>
           if is_string (get_opt message (js "type")) (js "execution_error")
           then [Throw (Error "ComfyUI execution failed")]
           else []
       | _ => []
       end) events.

(** What [await comfyUI.queue(..)] throws. *)
Definition rejection (events : list event) : list (result jsstring) :=
  flat_map (fun e => match e with
                     | Rejected x => [Throw x]
                     | _ => []
                     end) events.

(** The calls of [resolve] and [reject] during [generateVideo], in the
    order of time.  The download and the upload that a save callback
    starts are taken to end before anything else happens. *)
Definition settlements (w : job_world) (uid chatId : jsstring)
  : list (result jsstring) :=
  match (text <- workflow_file w ;; JSON_parse text) with
  | Throw e => [Throw e]
  | Ok workflowData =>
      let audioFilename := js "audio_" ++ audio_uuid w ++ js ".wav" in
      let imageFilename := js "image_" ++ image_uuid w ++ js ".png" in
      let b := new_bridge (client_uuid w) [js "131"] true true in
      (* waitForConnection *)
      if negb (opens w) then [Throw (Error "ComfyUI connection timeout")]
      else
        let (b, during_audio) := receive b (frames w AudioUpload) in
        attempts w uid chatId during_audio
        ++ match upload_audio w with
           | Throw e => [Throw e]
           | Ok _ =>
               let (b, during_image) := receive b (frames w ImageUpload) in
               attempts w uid chatId during_image
               ++ match upload_image w with
                  | Throw e => [Throw e]
                  | Ok _ =>
                      match Workflow.updateWorkflowWithFiles workflowData
                              audioFilename imageFilename with
                      | Throw e => [Throw e]
                      | Ok workflowData =>
                          let (b, during_submission) :=
                            receive b (frames w Submission) in
                          attempts w uid chatId during_submission
                          ++ (let (b, answered) :=
                                queue b (prompt_reply w workflowData) in
                              rejection answered
                              ++ (let (b, afterwards) :=
                                    receive b (frames w Waiting) in
                                  attempts w uid chatId afterwards))
                      end
                  end
           end
  end.

(** [VideoGenerationService.generateVideo]: the promise settles as the
    first call of [resolve] or [reject] says, and stays pending when
    there is none. *)
Definition generateVideo (w : job_world) (uid chatId : jsstring)
  : promise jsstring :=
  match settlements w uid chatId with
  | r :: _ => Settled r
  | [] => Pending
  end.

(** ** Sample data *)

(** The server accepts the job. *)
Definition accepted_reply : http_reply :=
  {| ok := true; status := 200;
     json := JSON_parse
               (quoted "{'prompt_id': 'job-1', 'number': 3, 'node_errors': {}}") |}.

(** What the server sends when a job is interrupted. *)
Definition interrupted_frame : ws_data :=
  Text (quoted
    "{'type': 'execution_interrupted', 'data': {'prompt_id': 'job-1', 'node_id': '128', 'node_type': 'WanVideoSampler', 'executed': []}}").

(** What the server sends when the save node has written the video. *)
Definition saved_frame : ws_data :=
  Text (quoted
    "{'type': 'executed', 'data': {'node': '131', 'prompt_id': 'job-1', 'output': {'gifs': [{'filename': 'WanVideo2_1_00001.mp4', 'subfolder': '', 'type': 'output'}]}}}").

(** A job that the server accepts and that ends with [last]. *)
Definition job_ending_with (last : list ws_data) : job_world :=
  {| workflow_file :=
       Ok (quoted "{'125': {'inputs': {'audio': 'a.wav'}, 'class_type': 'LoadAudio'}, '133': {'inputs': {'image': 'i.png'}, 'class_type': 'LoadImage'}}");
     audio_uuid := js "a1"; image_uuid := js "i1"; client_uuid := js "client-1";
     opens := true;
     frames := fun p => match p with Waiting => last | _ => [] end;
     upload_audio := Ok tt; upload_image := Ok tt;
     prompt_reply := fun _ => Ok accepted_reply;
     view := Download.view_of_size 2048;
     store := S3.sample_client;
     video_uuid := js "v1" |}.

(** The socket never opens. *)
Definition unreachable_job : job_world :=
  {| workflow_file := Ok (js "{}");
     audio_uuid := js "a1"; image_uuid := js "i1"; client_uuid := js "client-1";
     opens := false;
     frames := fun _ => [];
     upload_audio := Ok tt; upload_image := Ok tt;
     prompt_reply := fun _ => Ok accepted_reply;
     view := Download.view_of_size 2048;
     store := S3.sample_client;
     video_uuid := js "v1" |}.

End VideoJob.

(* ================================================================== *)
(** * server.js: one chat turn *)

Module Turn.
Import JsString World Db VideoJob.

(** ** Computations that call out, may throw and may not end

    A computation extends the trace of calls made so far and returns,
    throws, or waits for ever for a promise that stays pending; the
    trace survives all three. *)
Definition M (A : Type) : Type := list call -> promise A * list call.

Definition ret {A} (a : A) : M A := fun tr => (Settled (Ok a), tr).
Definition throw {A} (e : exn) : M A := fun tr => (Settled (Throw e), tr).

(** A step inside the process. *)
Definition step {A} (r : result A) : M A := fun tr => (Settled r, tr).

Definition mbind {A B} (m : M A) (k : A -> M B) : M B :=
  fun tr => match m tr with
            | (Settled (Ok a), tr') => k a tr'
            | (Settled (Throw e), tr') => (Settled (Throw e), tr')
            | (Pending, tr') => (Pending, tr')
            end.

(** [try { m } catch (e) { h e }]: nothing is caught while [m] waits. *)
Definition try_catch {A} (m : M A) (h : exn -> M A) : M A :=
  fun tr => match m tr with
            | (Settled (Ok a), tr') => (Settled (Ok a), tr')
            | (Settled (Throw e), tr') => h e tr'
            | (Pending, tr') => (Pending, tr')
            end.

(** An outside call [c] that the world answers with [r]; the calls to
    the network and to the generative services are taken to settle. *)
Definition calling {A} (c : call) (r : result A) : M A :=
  fun tr => (Settled r, tr ++ [c]).

(** [await] of the promise [p] that the call [c] returned. *)
Definition awaiting {A} (c : call) (p : promise A) : M A :=
  fun tr => (p, tr ++ [c]).

Declare Scope turn_scope.
Delimit Scope turn_scope with turn.
Notation "x <~ m ;; k" := (mbind m (fun x => k))
  (at level 61, m at next level, right associativity) : turn_scope.
Local Open Scope turn_scope.

(** ** The request and the world *)

Inductive endpoint : Type := text_endpoint | audio_endpoint.

(** [req.body], of a request whose [message], [uid] and ids are strings.
    [videoEnabled] is the truth value of the field, false when it is
    left out. *)
Record request := {
  message : jsstring;
  personaName : option jsstring;
  personaId : option jsstring;
  uid : jsstring;
  chatId : option jsstring;
  locations : Json.value;
  videoEnabled : bool
}.

(** The services a turn calls and the database it reads and writes.  The
    database behaves in one way for all the calls of a turn, and the
    persona cache does not expire between two of them. *)
Record services := {
  world : World.env;
  db_personas : list persona;          (* the personas table, ordered by name *)
  personas_cache : Personas.cache;     (* the cache of the database service *)
  db_now : Z;                          (* Date.now() in getPersonas *)
  toLowerCase : jsstring -> jsstring;  (* String.prototype.toLowerCase *)
  transcribeAudio : jsstring -> result jsstring;
  generateAIResponse :
    jsstring -> persona -> list Db.message -> list jsstring -> result jsstring;
  generateAudio : jsstring -> persona -> result jsstring;
  saveAudioFile : jsstring -> option jsstring;
  generateMultiSpeakerAudio :
    jsstring -> jsstring -> persona -> option persona -> result jsstring;
  saveMultiSpeakerAudio : jsstring -> option jsstring * option jsstring;
  url_pathname : jsstring -> result jsstring;    (* new URL(u).pathname *)
  video_job : job_world;               (* the world of generateVideo *)
  randomUUID : jsstring;
  db_faults : Db.faults;
  db_clock : Db.clock;
  db_table : Db.table
}.

(** Truth value of a string-or-null. *)
Definition truthy (s : option jsstring) : bool :=
  match s with
  | Some (_ :: _) => true
  | _ => false
  end.

Definition or_else (a b : option jsstring) : option jsstring :=
  if truthy a then a else b.

(** ** Reading the database *)

(** What the database answers to the select of the personas. *)
Definition personas_query (sv : services) : result (option (list persona)) :=
  if select_fails (db_faults sv) then Throw (Error "select")
  else Ok (Some (db_personas sv)).

(** [await db.getPersonas()]: what every call of a turn returns. *)
Definition getPersonas (sv : services) : list persona :=
  fst (fst (Personas.getPersonas (personas_cache sv) (db_now sv)
              (personas_query sv))).

(** The persona joined to the chat of the request,
    [personas(id, name, tone, voice_name)]: it comes without image. *)
Definition chat_persona (sv : services) (rq : request) : option persona :=
  match chatId rq with
  | Some (c :: k) =>
      match DbReads.select_single (db_faults sv) (db_table sv) (c :: k) (uid rq) with
      | Ok chat =>
          match DbReads.join_persona (db_personas sv) chat with
          | Some r => Some {| p_id := DbReads.r_id r; p_name := DbReads.r_name r;
                              p_voice_name := DbReads.r_voice_name r;
                              p_image_url := None |}
          | None => None
          end
      | Throw _ => None
      end
  | _ => None
  end.

(** [chatId ? await db.getChatHistory(uid, chatId) : []]. *)
Definition chatHistory (sv : services) (rq : request) : list Db.message :=
  match chatId rq with
  | Some (c :: k) =>
      match DbReads.select_single (db_faults sv) (db_table sv) (c :: k) (uid rq) with
      | Ok chat => c_messages chat
      | Throw _ => []
      end
  | _ => []
  end.

(** ** The stages *)

(** Persona by id, else by name, else the chat's, else the first one. *)
Definition resolve_persona (sv : services) (rq : request) : M persona :=
  let selectedPersona :=
    if truthy (personaId rq) then
      find (fun p => eqb (p_id p) (match personaId rq with Some i => i | None => [] end))
        (getPersonas sv)
    else if truthy (personaName rq) then
      find (fun p => eqb (p_name p) (match personaName rq with Some n => n | None => [] end))
        (getPersonas sv)
    else None in
  let selectedPersona :=
    match selectedPersona with
    | Some p => Some p
    | None => chat_persona sv rq
    end in
  let selectedPersona :=
    match selectedPersona with
    | Some p => Some p
    | None => hd_error (getPersonas sv)
    end in
  match selectedPersona with
  | Some p => ret p
  | None => throw (Error "No personas available. Please run persona sync first.")
  end.

(** The loop over [locations]: the supported ones are kept;
    [location.toLowerCase()] throws on an element that is not a string. *)
Fixpoint supported_locations (sv : services) (items : list Json.value)
  : result (list jsstring) :=
  match items with
  | [] => Ok []
  | Json.JString location :: rest =>
      let supported := BrightData.isLocationSupported (toLowerCase sv) location in
      validLocations <- supported_locations sv rest ;;
      Ok (if supported then location :: validLocations else validLocations)
  | _ :: _ => Throw TypeError
  end.

Definition validate_locations (sv : services) (rq : request) : M (list jsstring) :=
  match locations rq with
  | Json.JArray items => step (supported_locations sv items)
  | _ => ret []
  end.

(** [personas.find(p => p.name !== 'User') || personas[0]]. *)
Definition assistant_persona (sv : services) : option persona :=
  match find (fun p => negb (eqb (p_name p) (js "User"))) (getPersonas sv) with
  | Some p => Some p
  | None => hd_error (getPersonas sv)
  end.

(** Speech synthesis: [(audioUrl, userAudioUrl)], both null when anything
    in the block throws. *)
Definition audio_stage (sv : services) (userText rawResponseText : jsstring)
    (selectedPersona : persona) : M (option jsstring * option jsstring) :=
  let isMultiUserMode := eqb (p_name selectedPersona) (js "User") in
  try_catch
    (if isMultiUserMode then
       audioData <~ calling (SpeechGen rawResponseText)
                      (generateMultiSpeakerAudio sv userText rawResponseText
                         selectedPersona (assistant_persona sv)) ;;
       let (userUrl, assistantUrl) := saveMultiSpeakerAudio sv audioData in
       ret (assistantUrl, userUrl)
     else
       audioData <~ calling (SpeechGen rawResponseText)
                      (generateAudio sv rawResponseText selectedPersona) ;;
       ret (saveAudioFile sv audioData, None))
    (fun _ => ret (None, None)).

Definition sign (sv : services) (key : jsstring) (expiresIn : nat) : M jsstring :=
  calling (S3Sign key expiresIn) (getSignedUrl (world sv) key expiresIn).

Definition fetching (sv : services) (url : jsstring) : M fetch_response :=
  calling (HttpFetch url) (fetch (world sv) url).

(** The persona image, null on any failure. *)
Definition persona_image (sv : services) (selectedPersona : persona)
  : M (option Buffer.buffer) :=
  if truthy (p_image_url selectedPersona) then
    try_catch
      (s3Key <~ step (url_pathname sv (match p_image_url selectedPersona with
                                       | Some u => u | None => [] end)) ;;
       signedImageUrl <~ sign sv (skipn 1 s3Key) 3600 ;;
       imageResponse <~ fetching sv signedImageUrl ;;
       if negb (fr_ok imageResponse) then throw (Error "Failed to fetch image")
       else
         let personaImageBuffer := fr_bytes imageResponse in
         if Nat.ltb (length personaImageBuffer) 1000
         then throw (Error "Image buffer too small, likely corrupted")
         else ret (Some personaImageBuffer))
      (fun _ => ret None)
  else ret None.

(** The body of [if (videoEnabled && audioUrl) { try { ... } }]. *)
Definition video_block (sv : services) (selectedPersona : persona)
    (audioUrl uid currentChatId : jsstring) : M (option jsstring) :=
  audioS3Data <~ sign sv audioUrl 3600 ;;
  audioResponse <~ fetching sv audioS3Data ;;
  let audioBuffer := fr_bytes audioResponse in
  personaImageBuffer <~ persona_image sv selectedPersona ;;
  match personaImageBuffer with
  | Some image =>
      wavAudioBuffer <~ step (VideoGeneration.convertPCMToWAV audioBuffer) ;;
      videoUrl <~ awaiting (VideoGen wavAudioBuffer image uid currentChatId)
                    (generateVideo (video_job sv) uid currentChatId) ;;
      ret (Some videoUrl)
  | None => ret None
  end.

(** Video synthesis: guarded by the request flag and the audio reference,
    null when anything in the block throws. *)
Definition video_stage (sv : services) (rq : request) (selectedPersona : persona)
    (audioUrl : option jsstring) (currentChatId : jsstring) : M (option jsstring) :=
  if videoEnabled rq && truthy audioUrl then
    try_catch
      (video_block sv selectedPersona
         (match audioUrl with Some u => u | None => [] end)
         (uid rq) currentChatId)
      (fun _ => ret None)
  else ret None.

(** Signed URLs for the response; the first failure leaves the rest
    null. *)
Definition sign_if (sv : services) (key : option jsstring) : M (option jsstring) :=
  match key with
  | Some (c :: k) => u <~ sign sv (c :: k) 3600 ;; ret (Some u)
  | _ => ret None
  end.

Definition sign_stage (sv : services) (audioUrl userAudioUrl videoUrl : option jsstring)
  : M (option jsstring * option jsstring * option jsstring) :=
  try_catch
    (a <~ sign_if sv audioUrl ;;
     try_catch
       (u <~ sign_if sv userAudioUrl ;;
        try_catch
          (v <~ sign_if sv videoUrl ;; ret (a, u, v))
          (fun _ => ret (a, u, None)))
       (fun _ => ret (a, None, None)))
    (fun _ => ret (None, None, None)).

(** ** The handler *)

Inductive body : Type :=
| ErrorJson (error : string)
| TurnJson (transcribedText responseText : jsstring)
           (audioUrl userAudioUrl videoUrl : option jsstring)
           (chatId : jsstring) (isMultiUserMode : bool).

Record response := { status : nat; payload : body }.

(** What the handler holds when speech synthesis is over. *)
Record held := {
  h_persona : persona;
  h_userText : jsstring;
  h_rawResponseText : jsstring;
  h_chatId : jsstring;
  h_audioUrl : option jsstring;
  h_userAudioUrl : option jsstring
}.

(** [POST /api/chat/text] and [POST /api/chat/audio]: the body of the
    outer [try] up to the end of speech synthesis.  The audio endpoint
    transcribes after it has read the chat history. *)
Definition turn_start (ep : endpoint) (sv : services) (rq : request) : M held :=
  selectedPersona <~ resolve_persona sv rq ;;
  let history := chatHistory sv rq in
  userText <~ (match ep with
               | text_endpoint => ret (message rq)
               | audio_endpoint =>
                   calling Transcribe (transcribeAudio sv (message rq))
               end) ;;
  validLocations <~ validate_locations sv rq ;;
  rawResponseText <~ calling (TextGen userText)
                       (generateAIResponse sv userText selectedPersona history
                          validLocations) ;;
  let currentChatId :=
    match or_else (chatId rq) (Some (randomUUID sv)) with
    | Some c => c
    | None => randomUUID sv
    end in
  urls <~ audio_stage sv userText rawResponseText selectedPersona ;;
  let (audioUrl, userAudioUrl) := urls in
  ret {| h_persona := selectedPersona; h_userText := userText;
         h_rawResponseText := rawResponseText; h_chatId := currentChatId;
         h_audioUrl := audioUrl; h_userAudioUrl := userAudioUrl |}.

(** The rest of the body: video synthesis, the save, the signed URLs and
    the response; with it the table afterwards and the video
    reference. *)
Definition turn_finish (sv : services) (rq : request) (h : held)
  : M (response * Db.table * option jsstring) :=
  let isMultiUserMode := eqb (p_name (h_persona h)) (js "User") in
  videoUrl <~ video_stage sv rq (h_persona h) (h_audioUrl h) (h_chatId h) ;;
  saved <~ calling (DbSave (h_chatId h))
             (Ok (saveConversation (db_faults sv) (db_clock sv) (db_table sv)
                    (uid rq) (h_chatId h) (h_userText h) (h_rawResponseText h)
                    (h_persona h) (h_audioUrl h) (h_userAudioUrl h) videoUrl)) ;;
  let (savedChat, table') := saved in
  let responseText := Clean.cleanResponseText (h_rawResponseText h) in
  signed <~ sign_stage sv (h_audioUrl h) (h_userAudioUrl h) videoUrl ;;
  let '(signedAudioUrl, signedUserAudioUrl, signedVideoUrl) := signed in
  let answeredChatId :=
    match savedChat with
    | Some c => match c_id c with [] => h_chatId h | i => i end
    | None => h_chatId h
    end in
  ret ({| status := 200;
          payload := TurnJson (h_userText h) responseText signedAudioUrl
                       signedUserAudioUrl signedVideoUrl answeredChatId
                       isMultiUserMode |},
       table', videoUrl).

(** What one request leaves behind: the response, if the handler
    answered, the calls made, the chat table, and the media references
    the handler held when it answered or stopped (null when the turn
    failed before it had them). *)
Record outcome := {
  o_response : option response;
  o_calls : list call;
  o_table : Db.table;
  o_audioUrl : option jsstring;
  o_videoUrl : option jsstring
}.

(** The answer of the [catch] of the handler. *)
Definition failed (sv : services) (calls : list call) : outcome :=
  {| o_response :=
       Some {| status := 500;
               payload := ErrorJson "An error occurred processing your request" |};
     o_calls := calls; o_table := db_table sv;
     o_audioUrl := None; o_videoUrl := None |}.

Definition turn (ep : endpoint) (sv : services) (rq : request) : outcome :=
  match turn_start ep sv rq [] with
  | (Settled (Ok h), calls) =>
      match turn_finish sv rq h calls with
      | (Settled (Ok (resp, table', videoUrl)), calls') =>
          {| o_response := Some resp; o_calls := calls'; o_table := table';
             o_audioUrl := h_audioUrl h; o_videoUrl := videoUrl |}
      | (Settled (Throw _), calls') => failed sv calls'
      | (Pending, calls') =>
          {| o_response := None; o_calls := calls'; o_table := db_table sv;
             o_audioUrl := h_audioUrl h; o_videoUrl := None |}
      end
  | (Settled (Throw _), calls) => failed sv calls
  | (Pending, calls) =>
      {| o_response := None; o_calls := calls; o_table := db_table sv;
         o_audioUrl := None; o_videoUrl := None |}
  end.

(** The stages whose failure fails the turn: persona lookup, transcription
    (audio endpoint), the reading of the locations and text generation. *)
Definition fatal_stages_ok (ep : endpoint) (sv : services) (rq : request) : bool :=
  match fst (resolve_persona sv rq []) with
  | Settled (Ok p) =>
      match (match ep with
             | text_endpoint => Ok (message rq)
             | audio_endpoint => transcribeAudio sv (message rq)
             end) with
      | Throw _ => false
      | Ok userText =>
          match fst (validate_locations sv rq []) with
          | Settled (Ok validLocations) =>
              is_ok (generateAIResponse sv userText p (chatHistory sv rq)
                       validLocations)
          | _ => false
          end
      end
  | _ => false
  end.

Definition is_video_call (c : call) : bool :=
  match c with VideoGen _ _ _ _ => true | _ => false end.


Definition response_status (o : outcome) : option nat :=
  match o_response o with
  | Some r => Some (status r)
  | None => None
  end.


(** No [generateVideo] among the calls. *)
Definition quiet (calls : list call) : Prop :=
  existsb is_video_call calls = false.

(** ** Sample data: video is requested and speech succeeds. *)

Definition services_with (job : job_world) : services :=
  {| world :=
       {| getSignedUrl := fun key _ => Ok (js "https://s3/" ++ key ++ js "?sig");
          fetch := fun _ => Ok {| fr_ok := true; fr_status := 200;
                                  fr_statusText := js "OK";
                                  fr_bytes := repeat 0%Z 1000;
                                  fr_body_pipe := true |} |};
     db_personas :=
       [ {| p_id := js "p-1"; p_name := js "Morgan"; p_voice_name := js "charon";
            p_image_url := Some (js "https://bucket/personas/morgan-1.webp") |} ];
     personas_cache := Personas.empty_cache;
     db_now := 1735812000000;
     toLowerCase := fun s => s;
     transcribeAudio := fun _ => Ok (js "hi");
     generateAIResponse := fun _ _ _ _ => Ok (js "[warmly] Good evening.");
     generateAudio := fun _ _ => Ok (js "AAAA");
     saveAudioFile := fun _ => Some (js "u-1/c-9/a1.pcm");
     generateMultiSpeakerAudio := fun _ _ _ _ => Ok (js "AAAA");
     saveMultiSpeakerAudio := fun _ => (Some (js "u-1/c-9/a2.pcm"),
                                        Some (js "u-1/c-9/a3.pcm"));
     url_pathname := fun _ => Ok (js "/personas/morgan-1.webp");
     video_job := job;
     randomUUID := js "c-9";
     db_faults := no_faults;
     db_clock := sample_clock;
     db_table := [] |}.

(** The video generator fails: the socket does not open. *)
Definition sample_services : services := services_with unreachable_job.


Definition sample_request : request :=
  {| message := js "hi"; personaName := None; personaId := Some (js "p-1");
     uid := js "u-1"; chatId := None;
     locations := Json.JArray [Json.JString (js "ottawa")];
     videoEnabled := true |}.

End Turn.

(* ================================================================== *)
(** * server.js: what a chat turn leaves behind *)

Module TurnLog.
Import JsString World Db VideoJob Turn.

(** [chatId || randomUUID()]. *)
Definition currentChatId (sv : services) (rq : request) : jsstring :=
  match chatId rq with
  | Some (c :: k) => c :: k
  | _ => randomUUID sv
  end.

(** What the response says. *)
Definition response_chatId (o : outcome) : option jsstring :=
  match o_response o with
  | Some {| payload := TurnJson _ _ _ _ _ chatId _ |} => Some chatId
  | _ => None
  end.

Definition response_text (o : outcome) : option jsstring :=
  match o_response o with
  | Some {| payload := TurnJson _ responseText _ _ _ _ _ |} => Some responseText
  | _ => None
  end.

Definition response_transcribed (o : outcome) : option jsstring :=
  match o_response o with
  | Some {| payload := TurnJson transcribedText _ _ _ _ _ _ |} =>
      Some transcribedText
  | _ => None
  end.

Definition with_faults (f : faults) (sv : services) : services :=
  {| world := world sv; db_personas := db_personas sv;
     personas_cache := personas_cache sv; db_now := db_now sv;
     toLowerCase := toLowerCase sv; transcribeAudio := transcribeAudio sv;
     generateAIResponse := generateAIResponse sv;
     generateAudio := generateAudio sv; saveAudioFile := saveAudioFile sv;
     generateMultiSpeakerAudio := generateMultiSpeakerAudio sv;
     saveMultiSpeakerAudio := saveMultiSpeakerAudio sv;
     url_pathname := url_pathname sv; video_job := video_job sv;
     randomUUID := randomUUID sv; db_faults := f; db_clock := db_clock sv;
     db_table := db_table sv |}.

(** The same services with a database that answers the reads as before
    and refuses every write. *)
Definition write_refused (sv : services) : services :=
  with_faults {| select_fails := select_fails (db_faults sv);
                 write_fails := true |} sv.

(** The answer of a turn that failed. *)
Definition error_response : response :=
  {| status := 500;
     payload := ErrorJson "An error occurred processing your request" |}.

End TurnLog.

(* ================================================================== *)
(** * Theorems *)

(* ================================================================== *)
(** * Facts about strings *)

Module JsStringFacts.
Import JsString.

Lemma eqb_eq a b : eqb a b = true <-> a = b.
Proof.
  revert b; induction a as [|x a IH]; intros [|y b]; simpl;
    try (split; [discriminate | congruence]); [tauto|].
  rewrite andb_true_iff, N.eqb_eq, IH. split.
  - intros [-> ->]; reflexivity.
  - intros E; inversion E; auto.
Qed.

Lemma eqb_refl a : eqb a a = true.
Proof. now apply eqb_eq. Qed.

Lemma eqb_neq a b : eqb a b = false <-> a <> b.
Proof.
  rewrite <- eqb_eq. destruct (eqb a b); split; congruence.
Qed.

End JsStringFacts.

(* ================================================================== *)
(** * Facts about the conversation log *)

Module DbFacts.
Import JsString JsStringFacts Db.

Example save_into_empty_table :
  saveConversation no_faults sample_clock [] (js "u-1") (js "c-1")
    (js "hi") (js "hello") sample_persona None None None
  = (hd_error sample_table, sample_table).
Proof. reflexivity. Qed.

Lemma owned_by_set chatId uid ms now c :
  owned_by chatId uid (set_messages ms now c) = owned_by chatId uid c.
Proof. reflexivity. Qed.

Lemma filter_In_singleton {A} (p : A -> bool) l x :
  filter p l = [x] -> In x l /\ p x = true.
Proof.
  intros H. apply filter_In. rewrite H. now left.
Qed.

(** With [id] a key, looking a chat up by [id] finds the row that holds
    it. *)
Lemma find_unique t e :
  unique_ids t -> In e t -> find (by_id (c_id e)) t = Some e.
Proof.
  unfold unique_ids, by_id. induction t as [|c t IH]; simpl; intros U I; [tauto|].
  inversion U as [|? ? Hn U']; subst.
  destruct I as [->|I]; [now rewrite eqb_refl|].
  destruct (eqb (c_id c) (c_id e)) eqn:E; [|now apply IH].
  apply eqb_eq in E. exfalso. apply Hn. rewrite E. now apply in_map.
Qed.

Lemma find_map_preserved (p : chat -> bool) (g : chat -> chat) t :
  (forall c, p (g c) = p c) ->
  find p (map g t) = option_map g (find p t).
Proof.
  intros H. induction t as [|c t IH]; simpl; [reflexivity|].
  rewrite H. destruct (p c); [reflexivity | exact IH].
Qed.

Lemma filter_map_preserved (p : chat -> bool) (g : chat -> chat) t :
  (forall c, p (g c) = p c) ->
  filter p (map g t) = map g (filter p t).
Proof.
  intros H. induction t as [|c t IH]; simpl; [reflexivity|].
  rewrite H. destruct (p c); simpl; now rewrite IH.
Qed.

Lemma find_none_existsb k t :
  find (by_id k) t = None <-> existsb (fun c => eqb (c_id c) k) t = false.
Proof.
  unfold by_id. induction t as [|c t IH]; simpl; [tauto|].
  destruct (eqb (c_id c) k); simpl; [split; discriminate | exact IH].
Qed.

Lemma find_app_fresh k t row :
  find (by_id k) t = None -> c_id row = k ->
  find (by_id k) (t ++ [row]) = Some row.
Proof.
  unfold by_id. intros H E. induction t as [|c t IH]; simpl in *.
  - now rewrite E, eqb_refl.
  - destruct (eqb (c_id c) k); [discriminate | now apply IH].
Qed.

Lemma messages_of_find t k :
  messages_of t k = option_map c_messages (find (by_id k) t).
Proof. unfold messages_of, by_id. now destruct (find _ t). Qed.

Lemma rewrite_row_id chatId uid ms now c :
  c_id (rewrite_row chatId uid ms now c) = c_id c.
Proof. unfold rewrite_row. now destruct (owned_by chatId uid c). Qed.

Lemma rewrite_row_owned chatId uid ms now k u c :
  owned_by k u (rewrite_row chatId uid ms now c) = owned_by k u c.
Proof. unfold rewrite_row. now destruct (owned_by chatId uid c). Qed.

Lemma saveConversation_saved f now t uid chatId userMessage responseText
    p audioUrl userAudioUrl videoUrl c t' :
  saveConversation f now t uid chatId userMessage responseText p
    audioUrl userAudioUrl videoUrl = (Some c, t') ->
  saved t uid chatId
    [user_message now userMessage userAudioUrl;
     assistant_message now responseText p audioUrl videoUrl]
    (t_update now) p c t'.
Proof.
  unfold saveConversation, select_maybeSingle.
  destruct (select_fails f); [discriminate|].
  destruct (filter (owned_by chatId uid) t) as [|e [|e' l]] eqn:F;
    [| |discriminate].
  - unfold insert_single. destruct (write_fails f); [discriminate|].
    cbn [c_id].
    destruct (existsb _ t) eqn:X; [discriminate|].
    intros H; inversion H; subst. apply saved_new; try reflexivity; auto.
    now apply find_none_existsb.
  - unfold update_single. destruct (write_fails f); [discriminate|].
    fold (rewrite_row chatId uid
            (c_messages e ++ [user_message now userMessage userAudioUrl;
               assistant_message now responseText p audioUrl videoUrl])
            (t_update now)).
    rewrite filter_map_preserved by (intros; apply rewrite_row_owned).
    rewrite F. cbn [map].
    destruct (filter_In_singleton _ _ _ F) as [_ ->].
    intros H; inversion H; subst.
    exact (saved_appended t uid chatId _ (t_update now) p e F).
Qed.

Lemma filter_singleton_unique (p : chat -> bool) t e c :
  filter p t = [e] -> In c t -> p c = true -> c = e.
Proof.
  intros F I P. assert (K : In c (filter p t)) by now apply filter_In.
  rewrite F in K. destruct K as [K|[]]. now symmetry.
Qed.

Lemma owned_by_id chatId uid c : owned_by chatId uid c = true -> c_id c = chatId.
Proof. unfold owned_by. intros H. apply andb_true_iff in H. now apply eqb_eq. Qed.

(** C1: whenever [saveConversation] saves a turn (answers with the chat
    row), the chat's message list is what it was before (empty for a new
    chat) followed by exactly two messages: one with role user, then one
    with role assistant; the assistant message carries the persona's name
    and id, the user message carries neither. *)
Theorem saveConversation_appends_one_turn
    f now t uid chatId userMessage responseText p
    audioUrl userAudioUrl videoUrl c t' :
  unique_ids t ->
  saveConversation f now t uid chatId userMessage responseText p
    audioUrl userAudioUrl videoUrl = (Some c, t') ->
  let before := match messages_of t chatId with Some ms => ms | None => [] end in
  exists u a,
    messages_of t' chatId = Some (before ++ [u; a])
    /\ c_messages c = before ++ [u; a]
    /\ m_role u = user /\ m_content u = userMessage
    /\ m_role a = assistant /\ m_content a = responseText
    /\ m_persona a = Some (p_name p) /\ m_personaId a = Some (p_id p)
    /\ m_persona u = None /\ m_personaId u = None.
Proof.
  intros U H before. apply saveConversation_saved in H.
  exists (user_message now userMessage userAudioUrl),
         (assistant_message now responseText p audioUrl videoUrl).
  assert (K : messages_of t' chatId = Some (c_messages c)
              /\ c_messages c = before ++
                   [user_message now userMessage userAudioUrl;
                    assistant_message now responseText p audioUrl videoUrl]).
  { unfold before. rewrite !messages_of_find.
    destruct H as [row F N ->|e F].
    - rewrite N. cbn [option_map app c_messages].
      rewrite (find_app_fresh _ _ _ N) by reflexivity. now split.
    - destruct (filter_In_singleton _ _ _ F) as [I O].
      pose proof (owned_by_id _ _ _ O) as <-.
      rewrite find_map_preserved
        by (intros; unfold by_id; now rewrite rewrite_row_id).
      rewrite (find_unique _ _ U I). cbn [option_map].
      unfold rewrite_row. rewrite O. now split. }
  destruct K as [K1 K2]. rewrite K1, K2. repeat split; reflexivity.
Qed.

Lemma sample_table_unique : unique_ids sample_table.
Proof. repeat constructor. simpl. tauto. Qed.

Lemma saveConversation_appends_one_turn_witness :
  exists u a c t',
    saveConversation no_faults sample_clock sample_table (js "u-1") (js "c-1")
      (js "any news?") (js "[sighs] none") sample_persona None None None
      = (Some c, t')
    /\ length (c_messages c) = 4
    /\ skipn 2 (c_messages c) = [u; a]
    /\ m_role u = user /\ m_role a = assistant
    /\ m_persona a = Some (js "Morgan") /\ m_persona u = None.
Proof.
  destruct (saveConversation no_faults sample_clock sample_table (js "u-1")
              (js "c-1") (js "any news?") (js "[sighs] none") sample_persona
              None None None) as [[c|] t'] eqn:E; [|discriminate E].
  destruct (@saveConversation_appends_one_turn _ _ _ _ _ _ _ _ _ _ _ c t'
              sample_table_unique E)
    as (u & a & _ & Hc & Hu & _ & Ha & _ & Hp & _ & Hn & _).
  exists u, a, c, t'. rewrite Hc. repeat split; assumption.
Defined.

End DbFacts.

Module DbUpsertFacts.
Import JsString JsStringFacts Db DbFacts.

Lemma filter_owned_unique chatId uid t e :
  unique_ids t -> In e t -> owned_by chatId uid e = true ->
  filter (owned_by chatId uid) t = [e].
Proof.
  unfold unique_ids. induction t as [|c t IH]; simpl; intros U I O; [tauto|].
  inversion U as [|? ? Hn U']; subst.
  assert (Hfresh : forall d, In d t -> c_id d <> c_id c).
  { intros d Id E. apply Hn. rewrite <- E. now apply in_map. }
  destruct I as [->|I].
  - rewrite O. f_equal.
    destruct (filter (owned_by chatId uid) t) as [|d l] eqn:F; [reflexivity|].
    exfalso. assert (K : In d (filter (owned_by chatId uid) t)) by (rewrite F; now left).
    apply filter_In in K. destruct K as [Id Od].
    apply (Hfresh d Id). now rewrite (owned_by_id _ _ _ O), (owned_by_id _ _ _ Od).
  - destruct (owned_by chatId uid c) eqn:Oc; [|now apply IH].
    exfalso. apply (Hfresh e I).
    now rewrite (owned_by_id _ _ _ O), (owned_by_id _ _ _ Oc).
Qed.

Lemma filter_owned_none chatId uid t :
  find (by_id chatId) t = None -> filter (owned_by chatId uid) t = [].
Proof.
  unfold by_id, owned_by. induction t as [|c t IH]; simpl; [reflexivity|].
  destruct (eqb (c_id c) chatId); simpl; [discriminate | exact IH].
Qed.

(** The table after a call, whatever the call answered. *)
Lemma saveConversation_table f now t uid chatId userMessage responseText p
    audioUrl userAudioUrl videoUrl :
  let t' := snd (saveConversation f now t uid chatId userMessage responseText
                   p audioUrl userAudioUrl videoUrl) in
  let turn := [user_message now userMessage userAudioUrl;
               assistant_message now responseText p audioUrl videoUrl] in
  t' = t
  \/ (exists row, t' = t ++ [row] /\ find (by_id chatId) t = None)
  \/ (exists e, filter (owned_by chatId uid) t = [e]
                /\ t' = map (rewrite_row chatId uid (c_messages e ++ turn)
                               (t_update now)) t).
Proof.
  unfold saveConversation, select_maybeSingle.
  destruct (select_fails f); [now left|].
  destruct (filter (owned_by chatId uid) t) as [|e [|e' l]] eqn:F;
    [| |now left].
  - unfold insert_single. destruct (write_fails f); [now left|].
    cbn [c_id]. destruct (existsb _ t) eqn:X; [now left|].
    right; left. eexists. split; [reflexivity|]. now apply find_none_existsb.
  - unfold update_single. destruct (write_fails f); [now left|].
    right; right. exists e. split; [reflexivity|].
    match goal with |- context [filter ?p ?l] => destruct (filter p l) as [|? [|? ?]] end;
      reflexivity.
Qed.

Lemma find_app_found (q : chat -> bool) t l c :
  find q t = Some c -> find q (t ++ l) = Some c.
Proof.
  induction t as [|d t IH]; simpl; [discriminate|].
  destruct (q d); [trivial | exact IH].
Qed.

(** No call changes or removes a stored message: every chat keeps its
    messages as a prefix, and only the chat that was saved to grows. *)
Lemma saveConversation_preserves f now t uid chatId userMessage responseText
    p audioUrl userAudioUrl videoUrl k ms :
  messages_of t k = Some ms ->
  exists more,
    messages_of (snd (saveConversation f now t uid chatId userMessage
                        responseText p audioUrl userAudioUrl videoUrl)) k
      = Some (ms ++ more)
    /\ (more = [] \/
        (k = chatId /\
         more = [user_message now userMessage userAudioUrl;
                 assistant_message now responseText p audioUrl videoUrl])).
Proof.
  intros H.
  destruct (saveConversation_table f now t uid chatId userMessage responseText
              p audioUrl userAudioUrl videoUrl)
    as [E|[(row & E & N)|(e & F & E)]]; rewrite E; clear E.
  - exists []. rewrite app_nil_r. auto.
  - exists []. rewrite app_nil_r. split; [|auto].
    rewrite messages_of_find in *.
    destruct (find (by_id k) t) as [c|] eqn:Fk; [|discriminate].
    now rewrite (find_app_found _ _ _ _ Fk).
  - rewrite messages_of_find in *.
    rewrite find_map_preserved
      by (intros; unfold by_id; now rewrite rewrite_row_id).
    destruct (find (by_id k) t) as [c|] eqn:Fk; [|discriminate].
    cbn [option_map] in *. inversion H; subst ms; clear H.
    apply find_some in Fk. destruct Fk as [Ic Kc].
    unfold rewrite_row. destruct (owned_by chatId uid c) eqn:O.
    + pose proof (filter_singleton_unique _ _ _ _ F Ic O) as ->.
      eexists. split; [reflexivity|]. right. split; [|reflexivity].
      apply eqb_eq in Kc. rewrite <- Kc. now apply owned_by_id in O.
    + exists []. rewrite app_nil_r. auto.
Qed.

(** C2, as amended: with the database answering, saving a turn for a chat
    id that no row has creates a row seeded with exactly the two new
    messages; saving for a chat id that the saving user owns leaves every
    prior message in place and appends exactly the two new ones; and no
    call, whatever it answers, changes or removes a prior message of any
    chat. *)
Theorem saveConversation_upsert_by_append
    now t uid chatId userMessage responseText p audioUrl userAudioUrl videoUrl :
  unique_ids t ->
  let save f := saveConversation f now t uid chatId userMessage responseText
                  p audioUrl userAudioUrl videoUrl in
  let turn := [user_message now userMessage userAudioUrl;
               assistant_message now responseText p audioUrl videoUrl] in
  (messages_of t chatId = None ->
     exists row, save no_faults = (Some row, t ++ [row])
                 /\ c_id row = chatId /\ c_user_id row = uid
                 /\ c_messages row = turn)
  /\ (forall e, In e t -> owned_by chatId uid e = true ->
        exists c t', save no_faults = (Some c, t')
                     /\ c_messages c = c_messages e ++ turn
                     /\ messages_of t' chatId = Some (c_messages e ++ turn))
  /\ (forall f k ms, messages_of t k = Some ms ->
        exists more, messages_of (snd (save f)) k = Some (ms ++ more)
                     /\ (more = [] \/ (k = chatId /\ more = turn))).
Proof.
  intros U save turn. split; [|split].
  - intros N. rewrite messages_of_find in N.
    destruct (find (by_id chatId) t) eqn:Fd; [discriminate|].
    unfold save, saveConversation, select_maybeSingle. cbn [no_faults select_fails].
    rewrite (filter_owned_none _ uid _ Fd).
    unfold insert_single. cbn [write_fails c_id].
    apply find_none_existsb in Fd. rewrite Fd.
    eexists. split; [reflexivity|]. repeat split.
  - intros e I O.
    destruct (save no_faults) as [r t'] eqn:E.
    pose proof (filter_owned_unique _ _ _ _ U I O) as F.
    assert (S : r = Some (set_messages (c_messages e ++ turn) (t_update now) e)
                /\ t' = map (rewrite_row chatId uid (c_messages e ++ turn)
                                (t_update now)) t).
    { revert E. unfold save, saveConversation, select_maybeSingle.
      cbn [no_faults select_fails]. rewrite F.
      unfold update_single. cbn [write_fails].
      change (fun c0 : chat => if owned_by chatId uid c0
                then set_messages ?ms ?n c0 else c0)
        with (rewrite_row chatId uid ms n).
      rewrite filter_map_preserved by (intros; apply rewrite_row_owned).
      rewrite F. cbn [map]. unfold rewrite_row at 1. rewrite O.
      intros E; inversion E; now split. }
    destruct S as [-> ->]. do 2 eexists. split; [reflexivity|].
    split; [reflexivity|].
    rewrite messages_of_find.
    rewrite find_map_preserved
      by (intros; unfold by_id; now rewrite rewrite_row_id).
    pose proof (owned_by_id _ _ _ O) as <-.
    rewrite (find_unique _ _ U I). cbn [option_map].
    unfold rewrite_row. now rewrite O.
  - intros f k ms H. now apply saveConversation_preserves.
Qed.

Lemma saveConversation_upsert_by_append_witness :
  exists c t',
    saveConversation no_faults sample_clock sample_table (js "u-1") (js "c-1")
      (js "any news?") (js "none") sample_persona None None None = (Some c, t')
    /\ firstn 2 (c_messages c) = c_messages (hd c sample_table)
    /\ length (c_messages c) = 4.
Proof.
  destruct (@saveConversation_upsert_by_append sample_clock sample_table
              (js "u-1") (js "c-1") (js "any news?") (js "none")
              sample_persona None None None sample_table_unique)
    as (_ & Own & _).
  destruct (Own (hd (set_messages [] [] (Build_chat [] [] None [] [] []))
                   sample_table)) as (c & t' & E & M & _).
  - now left.
  - reflexivity.
  - exists c, t'. rewrite M. repeat split. exact E.
Defined.

(** C2 as stated fails for an existing chat id that another user owns:
    the lookup by id and owner finds nothing, the insert then violates
    the primary key, the error is swallowed, and nothing is appended. *)
Lemma saveConversation_foreign_chat_appends_nothing :
  let r := saveConversation no_faults sample_clock sample_table
             (js "u-2") (js "c-1") (js "any news?") (js "none")
             sample_persona None None None in
  (exists ms, messages_of sample_table (js "c-1") = Some ms /\ length ms = 2)
  /\ r = (None, sample_table)
  /\ (exists ms, messages_of (snd r) (js "c-1") = Some ms /\ length ms = 2).
Proof.
  cbv zeta. split; [|split].
  - eexists. split; reflexivity.
  - reflexivity.
  - eexists. split; reflexivity.
Qed.

End DbUpsertFacts.

(* ================================================================== *)
(** * Facts about buffers and the WAV header *)

Module BufferFacts.
Import Buffer.

Lemma le_bytes_length n v : length (le_bytes n v) = n.
Proof. revert v; induction n as [|n IH]; intros v; simpl; [reflexivity|]. now rewrite IH. Qed.

(** Reading back what was written gives the value modulo [256^n]. *)
Lemma le_value_le_bytes n v :
  le_value (le_bytes n v) = (v mod 256 ^ Z.of_nat n)%Z.
Proof.
  revert v; induction n as [|n IH]; intros v.
  - simpl. now rewrite Z.mod_1_r.
  - cbn [le_bytes le_value fold_right]. fold (le_value (le_bytes n (v / 256))).
    rewrite IH, Nat2Z.inj_succ, Z.pow_succ_r by lia.
    rewrite Z.rem_mul_r by lia. reflexivity.
Qed.

Lemma le_value_le_bytes_small n v :
  (0 <= v < 256 ^ Z.of_nat n)%Z -> le_value (le_bytes n v) = v.
Proof. intros H. rewrite le_value_le_bytes. now apply Z.mod_small. Qed.

Lemma blit_length buf off bs :
  off + length bs <= length buf -> length (blit buf off bs) = length buf.
Proof.
  intros H. unfold blit.
  rewrite !length_app, !length_firstn, length_skipn. lia.
Qed.

Lemma write_ok buf s off :
  off <= length buf -> write buf s off = Ok (blit buf off (ascii_bytes s)).
Proof.
  intros H. unfold write.
  destruct (Nat.ltb_spec (length buf) off); [lia | reflexivity].
Qed.

Lemma writeUIntLE_ok n buf v off :
  (0 <= v < 256 ^ Z.of_nat n)%Z -> off + n <= length buf ->
  writeUIntLE n buf v off = Ok (blit buf off (le_bytes n v)).
Proof.
  intros [H0 H1] H. unfold writeUIntLE.
  destruct (Z.leb_spec 0 v); [|lia].
  destruct (Z.ltb_spec v (256 ^ Z.of_nat n)); [|lia]. simpl.
  destruct (Nat.ltb_spec (length buf) (off + n)); [lia | reflexivity].
Qed.

Lemma writeUInt32LE_ok buf v off :
  (0 <= v < 4294967296)%Z -> off + 4 <= length buf ->
  writeUInt32LE buf v off = Ok (blit buf off (le_bytes 4 v)).
Proof. intros. now apply writeUIntLE_ok. Qed.

Lemma writeUInt16LE_ok buf v off :
  (0 <= v < 65536)%Z -> off + 2 <= length buf ->
  writeUInt16LE buf v off = Ok (blit buf off (le_bytes 2 v)).
Proof. intros. now apply writeUIntLE_ok. Qed.

Lemma writeUIntLE_range n buf v off :
  (v < 0 \/ 256 ^ Z.of_nat n <= v)%Z ->
  writeUIntLE n buf v off = Throw ERR_OUT_OF_RANGE.
Proof.
  intros H. unfold writeUIntLE.
  destruct (Z.leb_spec 0 v); simpl; [|reflexivity].
  destruct (Z.ltb_spec v (256 ^ Z.of_nat n)); [lia | reflexivity].
Qed.

End BufferFacts.

Module VideoGenerationFacts.
Import Buffer VideoGeneration BufferFacts.

Ltac norm_buf :=
  cbv [blit alloc repeat firstn skipn length app le_bytes Nat.sub Nat.add
       ascii_bytes map list_ascii_of_string].

Ltac header_step :=
  first [ rewrite write_ok by (cbv [length]; lia)
        | rewrite writeUInt32LE_ok by (cbv [length]; lia)
        | rewrite writeUInt16LE_ok by (cbv [length]; lia) ];
  cbn [bind]; norm_buf.

(** Within the 32-bit range the function returns the header followed by
    the payload. *)
Lemma convertPCMToWAV_in_range pcm :
  (Z.of_nat (length pcm) <= 4294967259)%Z ->
  convertPCMToWAV pcm = Ok (wav_header (Z.of_nat (length pcm)) ++ pcm).
Proof.
  intros H. unfold convertPCMToWAV.
  set (n := Z.of_nat (length pcm)) in *.
  assert (Hn : (0 <= n)%Z) by (unfold n; lia).
  change byteRate with 48000%Z. change blockAlign with 2%Z.
  unfold numChannels, sampleRate, bitsPerSample.
  norm_buf.
  do 13 header_step.
  cbv [concat List.concat]. rewrite app_nil_r.
  do 2 f_equal.
Qed.

Lemma convertPCMToWAV_too_large pcm :
  (4294967259 < Z.of_nat (length pcm))%Z ->
  convertPCMToWAV pcm = Throw ERR_OUT_OF_RANGE.
Proof.
  intros H. unfold convertPCMToWAV.
  rewrite write_ok by (cbv [length alloc repeat]; lia). cbn [bind].
  unfold writeUInt32LE at 1. rewrite writeUIntLE_range; [reflexivity|].
  right. change (256 ^ Z.of_nat 4)%Z with 4294967296%Z. lia.
Qed.

Lemma readUIntLE_prefix n (h t : buffer) off :
  off + n <= length h ->
  readUIntLE n (h ++ t) off = Some (le_value (firstn n (skipn off h))).
Proof.
  intros H. unfold readUIntLE.
  destruct (Nat.ltb_spec (length (h ++ t)) (off + n)) as [L|L].
  - rewrite length_app in L. lia.
  - rewrite skipn_app, firstn_app, length_skipn.
    replace (n - (length h - off)) with 0 by lia.
    now rewrite firstn_O, app_nil_r.
Qed.

Lemma slice_prefix (h t : buffer) a b :
  b <= length h -> slice (h ++ t) a b = slice h a b.
Proof.
  intros H. unfold slice. rewrite skipn_app, firstn_app, length_skipn.
  replace (b - a - (length h - a)) with 0 by lia.
  now rewrite firstn_O, app_nil_r.
Qed.

Lemma wav_header_length n : length (wav_header n) = 44.
Proof. reflexivity. Qed.

Ltac read_field :=
  first [ unfold readUInt32LE | unfold readUInt16LE ];
  rewrite readUIntLE_prefix by (rewrite wav_header_length; lia);
  f_equal.

(** C9, as amended: for every input buffer of at most 4294967259 octets
    (so that 36 plus its length fits the unsigned 32-bit RIFF size field),
    [convertPCMToWAV] returns a buffer exactly 44 octets longer than the
    input, that starts with 'RIFF', whose RIFF size field at offset 4 is 36
    plus the input length, whose data size field at offset 40 is the input
    length, whose format fields say 16-bit mono PCM at 24000 Hz, and whose
    octets from offset 44 on are the input unchanged. *)
Theorem convertPCMToWAV_layout (pcm : buffer) :
  (Z.of_nat (length pcm) <= 4294967259)%Z ->
  exists wav,
    convertPCMToWAV pcm = Ok wav
    /\ length wav = 44 + length pcm
    /\ slice wav 0 4 = ascii_bytes "RIFF"
    /\ readUInt32LE wav 4 = Some (36 + Z.of_nat (length pcm))%Z
    /\ slice wav 8 12 = ascii_bytes "WAVE"
    /\ slice wav 12 16 = ascii_bytes "fmt "
    /\ readUInt32LE wav 16 = Some 16%Z        (* fmt chunk size *)
    /\ readUInt16LE wav 20 = Some 1%Z         (* audio format: PCM *)
    /\ readUInt16LE wav 22 = Some 1%Z         (* channels: mono *)
    /\ readUInt32LE wav 24 = Some 24000%Z     (* sample rate *)
    /\ readUInt32LE wav 28 = Some 48000%Z     (* byte rate *)
    /\ readUInt16LE wav 32 = Some 2%Z         (* block align *)
    /\ readUInt16LE wav 34 = Some 16%Z        (* bits per sample *)
    /\ slice wav 36 40 = ascii_bytes "data"
    /\ readUInt32LE wav 40 = Some (Z.of_nat (length pcm))
    /\ skipn 44 wav = pcm.
Proof.
  intros H. exists (wav_header (Z.of_nat (length pcm)) ++ pcm).
  set (n := Z.of_nat (length pcm)) in *.
  assert (Hn : (0 <= n)%Z) by (unfold n; lia).
  split; [now apply convertPCMToWAV_in_range|].
  split; [now rewrite length_app, wav_header_length|].
  repeat split;
    try (rewrite slice_prefix by (rewrite wav_header_length; lia); reflexivity);
    try (read_field; reflexivity).
  - read_field.
    change (firstn 4 (skipn 4 (wav_header n))) with (le_bytes 4 (36 + n)).
    apply le_value_le_bytes_small. change (256 ^ Z.of_nat 4)%Z with 4294967296%Z. lia.
  - read_field.
    change (firstn 4 (skipn 40 (wav_header n))) with (le_bytes 4 n).
    apply le_value_le_bytes_small. change (256 ^ Z.of_nat 4)%Z with 4294967296%Z. lia.
Qed.

(** The theorem at a four-octet payload. *)
Lemma convertPCMToWAV_layout_witness :
  exists wav,
    convertPCMToWAV [1; 2; 3; 4]%Z = Ok wav
    /\ length wav = 48
    /\ readUInt32LE wav 4 = Some 40%Z
    /\ skipn 44 wav = [1; 2; 3; 4]%Z.
Proof.
  destruct (@convertPCMToWAV_layout [1; 2; 3; 4]%Z) as (wav & E & L & _ & F & R).
  - simpl. lia.
  - exists wav. repeat split; try assumption.
    decompose [and] R. assumption.
Defined.

(** C9 as stated fails on a buffer of 4294967260 octets: 36 plus its
    length is 2^32, which the RIFF size field cannot hold, and the write
    at offset 4 throws. *)
Lemma convertPCMToWAV_large_buffer_throws :
  let pcm := repeat 0%Z (Z.to_nat 4294967260) in
  convertPCMToWAV pcm = Throw ERR_OUT_OF_RANGE
  /\ ~ (exists wav, convertPCMToWAV pcm = Ok wav
                   /\ length wav = 44 + length pcm).
Proof.
  intros pcm.
  assert (E : convertPCMToWAV pcm = Throw ERR_OUT_OF_RANGE).
  { apply convertPCMToWAV_too_large. unfold pcm.
    rewrite repeat_length, Z2Nat.id; lia. }
  split; [exact E|]. intros (wav & E' & _). congruence.
Qed.

End VideoGenerationFacts.

(* ================================================================== *)
(** * Facts about [cleanResponseText] *)

Module CleanFacts.
Import JsString Clean.

Example clean_tags :
  cleanResponseText (js "Hello [laughs] there  [sigh]") = js "Hello there".
Proof. reflexivity. Qed.

Example clean_nested :
  cleanResponseText (js "[[a]] x [b") = js "] x [b".
Proof. reflexivity. Qed.

(** ** Suffixes *)

Lemma drop_ws_suffix s : exists pre, s = pre ++ drop_ws s.
Proof.
  induction s as [|c t [pre IH]]; simpl.
  - now exists [].
  - destruct (is_ws c).
    + exists (c :: pre). simpl. now f_equal.
    + now exists [].
Qed.

Lemma skip_to_close_suffix s r :
  skip_to_close s = Some r -> exists pre, s = pre ++ RBRACKET :: r.
Proof.
  revert r; induction s as [|c t IH]; simpl; intros r H; [discriminate|].
  destruct (N.eqb_spec c RBRACKET) as [->|_].
  - inversion H; subst. now exists [].
  - destruct (IH _ H) as [pre ->]. now exists (c :: pre).
Qed.

Lemma match_tag_suffix s r :
  match_tag s = Some r -> exists pre, s = pre ++ r /\ pre <> [].
Proof.
  unfold match_tag. intros H.
  destruct (drop_ws_suffix s) as [p1 E1].
  destruct (drop_ws s) as [|c t]; [discriminate|].
  destruct (N.eqb c LBRACKET); [|discriminate].
  destruct (skip_to_close t) as [u|] eqn:E2; [|discriminate].
  inversion H; subst r.
  destruct (skip_to_close_suffix _ _ E2) as [p2 ->].
  destruct (drop_ws_suffix u) as [p3 E3].
  exists (p1 ++ c :: p2 ++ RBRACKET :: p3). split.
  - rewrite E1 at 1. rewrite E3 at 1.
    rewrite <- !app_assoc. simpl. rewrite <- !app_assoc. reflexivity.
  - destruct p1; discriminate.
Qed.

Lemma match_tag_shorter s r : match_tag s = Some r -> length r < length s.
Proof.
  intros H. destruct (match_tag_suffix _ _ H) as (pre & -> & Hne).
  rewrite length_app. destruct pre; [congruence | simpl; lia].
Qed.

(** ** Texts without a tag *)

Lemma skip_to_close_None s : skip_to_close s = None <-> ~ In RBRACKET s.
Proof.
  induction s as [|c t IH]; simpl; [tauto|].
  destruct (N.eqb_spec c RBRACKET) as [->|Hc].
  - split; [discriminate | intros H; exfalso; apply H; now left].
  - rewrite IH. split; [intros H [E|I]; [congruence | tauto] | tauto].
Qed.

Lemma tag_free_app_r pre s : tag_free (pre ++ s) -> tag_free s.
Proof. induction pre; simpl; tauto. Qed.

Lemma tag_free_no_match s : tag_free s -> match_tag s = None.
Proof.
  intros H. unfold match_tag.
  destruct (drop_ws_suffix s) as [pre E].
  rewrite E in H. apply tag_free_app_r in H.
  destruct (drop_ws s) as [|c t]; [reflexivity|].
  destruct (N.eqb_spec c LBRACKET) as [->|_]; [|reflexivity].
  simpl in H. destruct H as [H _]. now rewrite H.
Qed.

(** On a text without a tag the first replacement changes nothing. *)
Lemma replace_tags_from_tag_free fuel s :
  tag_free s -> replace_tags_from fuel s = s.
Proof.
  revert s; induction fuel as [|f IH]; intros s H; [reflexivity|].
  destruct s as [|c t]; [reflexivity|].
  cbn [replace_tags_from]. rewrite (tag_free_no_match _ H).
  f_equal. apply IH. simpl in H. tauto.
Qed.

(** Units of the output come from the input, or are the inserted space. *)
Lemma replace_tags_from_In fuel s x :
  In x (replace_tags_from fuel s) -> x = SPACE \/ In x s.
Proof.
  revert s; induction fuel as [|f IH]; intros s H; [now right|].
  destruct s as [|c t]; [now right|].
  cbn [replace_tags_from] in H.
  destruct (match_tag (c :: t)) as [r|] eqn:E.
  - destruct H as [<-|H]; [now left|].
    destruct (IH _ H) as [->|I]; [now left|].
    right. destruct (match_tag_suffix _ _ E) as (pre & -> & _).
    apply in_or_app. now right.
  - destruct H as [<-|H]; [right; now left|].
    destruct (IH _ H) as [->|I]; [now left | right; now right].
Qed.

Lemma SPACE_not_bracket : SPACE <> RBRACKET /\ SPACE <> LBRACKET.
Proof. split; discriminate. Qed.

(** After the first replacement no tag is left. *)
Lemma replace_tags_from_free fuel s :
  length s <= fuel -> tag_free (replace_tags_from fuel s).
Proof.
  revert s; induction fuel as [|f IH]; intros s L.
  - destruct s; [exact I | simpl in L; lia].
  - destruct s as [|c t]; [exact I|].
    cbn [replace_tags_from].
    destruct (match_tag (c :: t)) as [r|] eqn:E.
    + split; [intros H; discriminate H|].
      apply IH. apply match_tag_shorter in E. simpl in *. lia.
    + split; [|apply IH; simpl in L; lia].
      intros ->. apply skip_to_close_None. intros I.
      apply replace_tags_from_In in I.
      destruct I as [I|I]; [discriminate I|].
      unfold match_tag in E. simpl in E.
      destruct (skip_to_close t) eqn:E2; [discriminate|].
      now apply skip_to_close_None in E2.
Qed.

(** ** White space *)

Lemma SPACE_is_ws : is_ws SPACE = true.
Proof. reflexivity. Qed.

Lemma bracket_not_ws c : c = LBRACKET \/ c = RBRACKET -> is_ws c = false.
Proof. intros [->| ->]; reflexivity. Qed.

Lemma collapse_from_In b s x :
  In x (collapse_from b s) -> x = SPACE \/ In x s.
Proof.
  revert b; induction s as [|c t IH]; intros b H; [now right|].
  simpl in H. destruct (is_ws c).
  - destruct b; [|destruct H as [<-|H]; [now left|]];
      (destruct (IH _ H) as [->|I]; [now left | right; now right]).
  - destruct H as [<-|H]; [right; now left|].
    destruct (IH _ H) as [->|I]; [now left | right; now right].
Qed.

Lemma collapse_from_free b s : tag_free s -> tag_free (collapse_from b s).
Proof.
  revert b; induction s as [|c t IH]; intros b H; [exact I|].
  simpl in *. destruct H as [H1 H2].
  destruct (is_ws c) eqn:W.
  - destruct b; [now apply IH|].
    split; [intros E; discriminate E | now apply IH].
  - split; [|now apply IH].
    intros E. specialize (H1 E). apply skip_to_close_None in H1.
    apply skip_to_close_None. intros I. apply collapse_from_In in I.
    destruct I as [I|I]; [discriminate I | tauto].
Qed.

Lemma drop_ws_free s : tag_free s -> tag_free (drop_ws s).
Proof.
  intros H. destruct (drop_ws_suffix s) as [pre E].
  rewrite E in H. now apply tag_free_app_r in H.
Qed.

Lemma trimEnd_In s x : In x (trimEnd s) -> In x s.
Proof.
  induction s as [|c t IH]; simpl; [tauto|].
  destruct (trimEnd t) as [|d u].
  - destruct (is_ws c); simpl; tauto.
  - simpl. intros [H|H]; [now left | right; apply IH; exact H].
Qed.

Lemma trimEnd_free s : tag_free s -> tag_free (trimEnd s).
Proof.
  induction s as [|c t IH]; simpl; [tauto|]. intros [H1 H2].
  specialize (IH H2).
  assert (K : c = LBRACKET -> skip_to_close (trimEnd t) = None).
  { intros E. specialize (H1 E). apply skip_to_close_None in H1.
    apply skip_to_close_None. intros I. now apply trimEnd_In in I. }
  destruct (trimEnd t) as [|d u].
  - destruct (is_ws c); simpl; tauto.
  - split; assumption.
Qed.

Lemma collapse_from_collapsed b s : collapsed b (collapse_from b s).
Proof.
  revert b; induction s as [|c t IH]; intros b; [exact I|].
  simpl. destruct (is_ws c) eqn:W.
  - destruct b; [apply IH|]. simpl. rewrite ?SPACE_is_ws. auto.
  - simpl. rewrite W. apply IH.
Qed.

Lemma collapsed_fix b s : collapsed b s -> collapse_from b s = s.
Proof.
  revert b; induction s as [|c t IH]; intros b H; [reflexivity|].
  simpl in *. destruct (is_ws c).
  - destruct H as (-> & -> & H). f_equal. now apply IH.
  - f_equal. now apply IH.
Qed.

Lemma collapsed_head b b' s :
  collapsed b s -> (forall c t, s = c :: t -> is_ws c = false) ->
  collapsed b' s.
Proof.
  destruct s as [|c t]; [trivial|]. intros H K.
  simpl in *. now rewrite (K c t eq_refl) in *.
Qed.

Lemma collapsed_drop_ws b s : collapsed b s -> collapsed false (drop_ws s).
Proof.
  destruct s as [|c t]; [trivial|]. simpl.
  destruct (is_ws c) eqn:W.
  - intros (_ & _ & H). destruct t as [|d u]; [exact I|].
    simpl in *. destruct (is_ws d) eqn:W'.
    + destruct H as (_ & H & _). discriminate H.
    + simpl. now rewrite W'.
  - intros H. simpl. now rewrite W.
Qed.

Lemma collapsed_trimEnd b s : collapsed b s -> collapsed b (trimEnd s).
Proof.
  revert b; induction s as [|c t IH]; intros b H; [exact I|].
  simpl in *. destruct (is_ws c) eqn:W.
  - destruct H as (-> & -> & H). specialize (IH _ H).
    destruct (trimEnd t); [exact I|]. simpl. rewrite ?SPACE_is_ws. auto.
  - specialize (IH _ H). destruct (trimEnd t); simpl; rewrite W; auto.
Qed.

Lemma trimEnd_idem s : trimEnd (trimEnd s) = trimEnd s.
Proof.
  induction s as [|c t IH]; [reflexivity|]. simpl.
  destruct (trimEnd t) as [|d u] eqn:E.
  - destruct (is_ws c) eqn:W; [reflexivity|]. simpl. now rewrite W.
  - change (match trimEnd (d :: u) with
            | [] => if is_ws c then [] else [c]
            | t' => c :: t'
            end = c :: d :: u).
    now rewrite IH.
Qed.

Lemma trimEnd_head s :
  (forall c t, s = c :: t -> is_ws c = false) ->
  forall c t, trimEnd s = c :: t -> is_ws c = false.
Proof.
  destruct s as [|d u]; [discriminate|]. intros K c t. simpl.
  pose proof (K d u eq_refl) as W.
  destruct (trimEnd u); rewrite ?W; intros E; inversion E; now subst.
Qed.

Lemma drop_ws_head s : forall c t, drop_ws s = c :: t -> is_ws c = false.
Proof.
  induction s as [|d u IH]; [discriminate|]. intros c t. simpl.
  destruct (is_ws d) eqn:W; [apply IH|]. intros E; inversion E; now subst.
Qed.

Lemma drop_ws_fix s :
  (forall c t, s = c :: t -> is_ws c = false) -> drop_ws s = s.
Proof.
  destruct s as [|c t]; [reflexivity|]. intros K. simpl.
  now rewrite (K c t eq_refl).
Qed.

Lemma trim_idem s : trim (trim s) = trim s.
Proof.
  unfold trim, trimStart.
  rewrite (drop_ws_fix (trimEnd (drop_ws s))).
  - apply trimEnd_idem.
  - apply trimEnd_head, drop_ws_head.
Qed.

(** ** Idempotence *)

(** The guard on the empty text returns what the pipeline would. *)
Lemma cleanResponseText_pipeline s :
  cleanResponseText s = trim (collapse_ws (replace_tags s)).
Proof. destruct s; reflexivity. Qed.

Lemma cleanResponseText_free s : tag_free (cleanResponseText s).
Proof.
  rewrite cleanResponseText_pipeline. unfold trim, trimStart.
  apply trimEnd_free, drop_ws_free, collapse_from_free.
  apply replace_tags_from_free, le_n.
Qed.

Lemma cleanResponseText_collapsed s : collapsed false (cleanResponseText s).
Proof.
  rewrite cleanResponseText_pipeline. unfold trim, trimStart.
  apply collapsed_trimEnd, (collapsed_drop_ws false), collapse_from_collapsed.
Qed.

(** C10: [cleanResponseText] is idempotent; after one pass no text that the
    bracket pattern matches is left, so that a second pass changes
    nothing. *)
Theorem cleanResponseText_idempotent (s : jsstring) :
  cleanResponseText (cleanResponseText s) = cleanResponseText s
  /\ (forall i, match_tag (skipn i (cleanResponseText s)) = None).
Proof.
  split.
  - rewrite (cleanResponseText_pipeline (cleanResponseText s)).
    unfold replace_tags.
    rewrite (replace_tags_from_tag_free _ _ (cleanResponseText_free s)).
    unfold collapse_ws.
    rewrite (collapsed_fix _ _ (cleanResponseText_collapsed s)).
    rewrite cleanResponseText_pipeline. apply trim_idem.
  - intros i. apply tag_free_no_match.
    apply (tag_free_app_r (firstn i (cleanResponseText s))).
    rewrite firstn_skipn. apply cleanResponseText_free.
Qed.

End CleanFacts.

(* ================================================================== *)
(** * Facts about the media-key endpoints *)

Module MediaKeysFacts.
Import JsString World MediaKeys.

Example key_pcm : invalid_key (js "u1/c1/0f3a.pcm") = false.
Proof. reflexivity. Qed.

Example key_mp4 : invalid_key (js "u1/c1/0f3a.mp4") = true.
Proof. reflexivity. Qed.

Example key_two_segments : invalid_key (js "c1/0f3a.pcm") = true.
Proof. reflexivity. Qed.

Example key_persona : invalid_key (js "personas/anchor-12.webp") = true.
Proof. reflexivity. Qed.

(** The guard lets through exactly the three-segment keys whose file name
    ends in [.pcm]. *)
Lemma invalid_key_false_iff key :
  invalid_key key = false <->
  exists owner chat file,
    split SLASH key = [owner; chat; file] /\ endsWith file (js ".pcm") = true.
Proof.
  unfold invalid_key. split.
  - intros H. apply orb_false_iff in H. destruct H as [H1 H2].
    apply negb_false_iff in H1, H2. apply Nat.eqb_eq in H1.
    destruct (split SLASH key) as [|a [|b [|c [|d l]]]]; try discriminate.
    now exists a, b, c.
  - intros (a & b & c & -> & E). simpl. now rewrite E.
Qed.

Lemma not_promised_invalid key :
  promised_shape key = false -> invalid_key key = true.
Proof.
  intros H. destruct (invalid_key key) eqn:E; [reflexivity|].
  apply invalid_key_false_iff in E. destruct E as (a & b & c & E1 & E2).
  unfold promised_shape in H. rewrite E1, E2 in H. discriminate.
Qed.

(** C6: both endpoints answer a key that is not of the promised shape with
    HTTP 400 and make no call to the signer or to the object store; hence
    whenever either of them signs or proxies, the key has the shape. *)
Theorem media_key_shape_enforced (w : env) (key : jsstring) :
  promised_shape key = false ->
  sign_handler w key
    = ({| status := 400; payload := ErrorJson "Invalid S3 key format" |}, [])
  /\ proxy_handler w key
    = ({| status := 400; payload := ErrorJson "Invalid S3 key format" |}, []).
Proof.
  intros H. apply not_promised_invalid in H.
  unfold sign_handler, proxy_handler. now rewrite H.
Qed.

Lemma media_key_shape_enforced_witness :
  promised_shape (js "personas/anchor-12.webp") = false
  /\ fst (sign_handler sample_world (js "personas/anchor-12.webp"))
     = {| status := 400; payload := ErrorJson "Invalid S3 key format" |}
  /\ snd (proxy_handler sample_world (js "personas/anchor-12.webp")) = [].
Proof.
  split; [reflexivity|].
  destruct (@media_key_shape_enforced sample_world (js "personas/anchor-12.webp")
              eq_refl) as [E1 E2].
  rewrite E1, E2. split; reflexivity.
Defined.

End MediaKeysFacts.

(* ================================================================== *)
(** * Facts about the chat turn *)

Module TurnFacts.
Import JsString World Db VideoJob Turn TurnLog.

Lemma quiet_nil : quiet [].
Proof. reflexivity. Qed.

Lemma quiet_app a b : quiet a -> quiet b -> quiet (a ++ b).
Proof. unfold quiet. intros Ha Hb. now rewrite existsb_app, Ha, Hb. Qed.

Lemma quiet_one c : is_video_call c = false -> quiet [c].
Proof. unfold quiet. simpl. now intros ->. Qed.

Create HintDb quiet.
#[local] Hint Resolve quiet_nil quiet_app quiet_one : quiet.

(** The promise of [generateVideo] on three jobs that the server
    accepts: the save node reports the video and the promise resolves
    with the key of the upload; a node fails and the promise rejects; the
    socket stays silent and the promise stays pending. *)
Example generateVideo_resolves :
  generateVideo (job_ending_with [interrupted_frame; saved_frame]) (js "u-1") (js "c-9")
  = Settled (Ok (js "u-1/c-9/v1.mp4")).
Proof. vm_compute. reflexivity. Qed.

Example generateVideo_rejects :
  generateVideo
    (job_ending_with
       [Comfy.Text (quoted "{'type': 'execution_error', 'data': {'prompt_id': 'job-1'}}");
        saved_frame])
    (js "u-1") (js "c-9")
  = Settled (Throw (Error "ComfyUI execution failed")).
Proof. vm_compute. reflexivity. Qed.

Example generateVideo_pending :
  generateVideo (job_ending_with []) (js "u-1") (js "c-9") = Pending.
Proof. vm_compute. reflexivity. Qed.

(** A second call of [getPersonas] at the same time, the database
    answering the same, returns what the first one returned and leaves
    the cache as the first one left it: the calls of one turn agree. *)
Lemma getPersonas_again st now query :
  let '(personas, st', _) := Personas.getPersonas st now query in
  fst (fst (Personas.getPersonas st' now query)) = personas
  /\ snd (fst (Personas.getPersonas st' now query)) = st'.
Proof.
  assert (F : forall fresh,
             Personas.getPersonas
               {| Personas.personasCache := Some fresh;
                  Personas.lastPersonasCacheTime := Some now |} now query
             = (fresh, {| Personas.personasCache := Some fresh;
                          Personas.lastPersonasCacheTime := Some now |}, false)).
  { intros fresh. unfold Personas.getPersonas, Personas.age.
    cbn [Personas.personasCache Personas.lastPersonasCacheTime].
    replace (now - now)%Z with 0%Z by lia. reflexivity. }
  destruct (Personas.getPersonas st now query) as [[personas st'] asked] eqn:G.
  unfold Personas.getPersonas in G.
  destruct (Personas.personasCache st) as [cached|] eqn:C.
  - destruct (Personas.age now st <? Personas.PERSONAS_CACHE_TTL)%Z eqn:A.
    + inversion G; subst. unfold Personas.getPersonas. rewrite C, A.
      split; reflexivity.
    + destruct query as [personas'|e].
      * inversion G; subst. rewrite F. split; reflexivity.
      * inversion G; subst. unfold Personas.getPersonas. rewrite C, A.
        split; reflexivity.
  - destruct query as [personas'|e].
    + inversion G; subst. rewrite F. split; reflexivity.
    + inversion G; subst. unfold Personas.getPersonas. rewrite C.
      split; reflexivity.
Qed.

Lemma or_else_currentChatId sv rq :
  match or_else (chatId rq) (Some (randomUUID sv)) with
  | Some c => c
  | None => randomUUID sv
  end = currentChatId sv rq.
Proof.
  unfold or_else, currentChatId, truthy. now destruct (chatId rq) as [[|c k]|].
Qed.

(** Resolving the persona makes no call and does not wait. *)
Lemma resolve_persona_silent sv rq tr :
  exists r, resolve_persona sv rq tr = (Settled r, tr).
Proof.
  unfold resolve_persona.
  match goal with
  | |- context [match ?x with Some p => ret p | None => _ end] => destruct x
  end; eexists; reflexivity.
Qed.

(** Reading the locations makes no call and does not wait. *)
Lemma validate_locations_silent sv rq tr :
  exists r, validate_locations sv rq tr = (Settled r, tr)
            /\ fst (validate_locations sv rq []) = Settled r.
Proof.
  unfold validate_locations.
  destruct (locations rq); eexists; split; reflexivity.
Qed.

(** The text of the user: the message, or its transcription. *)
Lemma user_text_step ep sv rq tr :
  exists ext,
    (match ep with
     | text_endpoint => ret (message rq)
     | audio_endpoint => calling Transcribe (transcribeAudio sv (message rq))
     end) tr
    = (Settled (match ep with
                | text_endpoint => Ok (message rq)
                | audio_endpoint => transcribeAudio sv (message rq)
                end), tr ++ ext)
    /\ quiet ext.
Proof.
  destruct ep.
  - exists []. rewrite app_nil_r. split; [reflexivity | apply quiet_nil].
  - exists [Transcribe]. split; [reflexivity | now apply quiet_one].
Qed.

(** Speech synthesis never throws, does not wait, and makes one call. *)
Lemma audio_stage_total sv userText raw p tr :
  exists urls,
    audio_stage sv userText raw p tr = (Settled (Ok urls), tr ++ [SpeechGen raw]).
Proof.
  unfold audio_stage, try_catch, mbind, calling, ret.
  destruct (eqb (p_name p) (js "User")).
  - destruct (generateMultiSpeakerAudio sv userText raw p _) as [d|e];
      [destruct (saveMultiSpeakerAudio sv d)|]; eexists; reflexivity.
  - destruct (generateAudio sv raw p); eexists; reflexivity.
Qed.

Lemma sign_if_quiet sv k tr :
  exists r ext, sign_if sv k tr = (Settled r, tr ++ ext) /\ quiet ext
                /\ (truthy k = false -> r = Ok None).
Proof.
  unfold sign_if, mbind, sign, calling, ret.
  destruct k as [[|c k]|]; simpl.
  - exists (Ok None), []. rewrite app_nil_r. auto with quiet.
  - destruct (getSignedUrl (world sv) (c :: k) 3600); do 2 eexists;
      (split; [reflexivity|]); split; auto with quiet; discriminate.
  - exists (Ok None), []. rewrite app_nil_r. auto with quiet.
Qed.

(** Signing never throws, does not wait, makes no video call, and leaves
    a null video reference null. *)
Lemma sign_stage_total sv a u v tr :
  exists sa su sv' ext,
    sign_stage sv a u v tr = (Settled (Ok (sa, su, sv')), tr ++ ext)
    /\ quiet ext /\ (truthy v = false -> sv' = None).
Proof.
  unfold sign_stage, try_catch, mbind, ret.
  destruct (sign_if_quiet sv a tr) as (ra & ea & -> & Qa & _).
  destruct ra as [sa|]; [|do 4 eexists; split; [reflexivity|]; auto].
  destruct (sign_if_quiet sv u (tr ++ ea)) as (ru & eu & -> & Qu & _).
  destruct ru as [su|];
    [|do 4 eexists; rewrite <- app_assoc; split; [reflexivity|]; auto with quiet].
  destruct (sign_if_quiet sv v ((tr ++ ea) ++ eu)) as (rv & ev & -> & Qv & Nv).
  destruct rv as [sv'|]; do 4 eexists; rewrite <- !app_assoc;
    (split; [reflexivity|]); split; auto with quiet.
  intros T. specialize (Nv T). congruence.
Qed.

(** The persona image is null on any failure; fetching it makes no video
    call and does not wait. *)
Lemma persona_image_quiet sv p tr :
  exists image ext,
    persona_image sv p tr = (Settled (Ok image), tr ++ ext) /\ quiet ext.
Proof.
  unfold persona_image.
  destruct (truthy (p_image_url p));
    [|exists None, []; rewrite app_nil_r; split; [reflexivity | apply quiet_nil]].
  unfold try_catch, mbind, step, sign, fetching, calling, ret, throw.
  destruct (url_pathname sv _) as [s3Key|e];
    [|exists None, []; rewrite app_nil_r; split; [reflexivity | apply quiet_nil]].
  destruct (getSignedUrl (world sv) (skipn 1 s3Key) 3600) as [signed|e];
    [|exists None; eexists; split; [reflexivity | now apply quiet_one]].
  destruct (fetch (world sv) signed) as [imageResponse|e];
    [|exists None; eexists; rewrite <- app_assoc; split;
      [reflexivity | apply quiet_app; now apply quiet_one]].
  destruct (negb (fr_ok imageResponse));
    [exists None; eexists; rewrite <- app_assoc; split;
       [reflexivity | apply quiet_app; now apply quiet_one]|].
  destruct (Nat.ltb (length (fr_bytes imageResponse)) 1000);
    eexists; eexists; rewrite <- app_assoc; (split;
      [reflexivity | apply quiet_app; now apply quiet_one]).
Qed.

(** The video stage either makes no video call and yields null, or calls
    [generateVideo] as its last call and ends as the promise does: with
    the reference it resolves to, with null when it rejects, and not at
    all while it is pending. *)
Lemma video_stage_cases sv rq p a c tr :
  quiet tr ->
  (exists tr', video_stage sv rq p a c tr = (Settled (Ok None), tr')
               /\ quiet tr'
               /\ (videoEnabled rq && truthy a = false -> tr' = tr))
  \/ (videoEnabled rq && truthy a = true
      /\ exists tr',
           existsb is_video_call tr' = true
           /\ video_stage sv rq p a c tr
              = (match generateVideo (video_job sv) (uid rq) c with
                 | Settled (Ok v) => Settled (Ok (Some v))
                 | Settled (Throw _) => Settled (Ok None)
                 | Pending => Pending
                 end, tr')).
Proof.
  intros Q. unfold video_stage.
  destruct (videoEnabled rq && truthy a) eqn:G;
    [|left; exists tr; repeat split; auto].
  unfold try_catch, video_block, mbind, sign, fetching, calling, ret.
  destruct (getSignedUrl (world sv) _ 3600) as [audioS3Data|e].
  2:{ left. eexists. split; [reflexivity|]. split; [|discriminate].
      apply quiet_app; [exact Q | now apply quiet_one]. }
  destruct (fetch (world sv) audioS3Data) as [audioResponse|e].
  2:{ left. eexists. split; [reflexivity|]. split; [|discriminate].
      repeat apply quiet_app; auto; now apply quiet_one. }
  set (tr1 := (tr ++ _) ++ _).
  assert (Q1 : quiet tr1)
    by (unfold tr1; repeat apply quiet_app; auto; now apply quiet_one).
  destruct (persona_image_quiet sv p tr1) as (image & ext & -> & Qi).
  destruct image as [image|].
  2:{ left. eexists. split; [reflexivity|]. split; [|discriminate].
      now apply quiet_app. }
  unfold step.
  destruct (VideoGeneration.convertPCMToWAV (fr_bytes audioResponse)) as [wav|e].
  2:{ left. eexists. split; [reflexivity|]. split; [|discriminate].
      now apply quiet_app. }
  right. split; [reflexivity|]. unfold awaiting.
  exists ((tr1 ++ ext) ++ [VideoGen wav image (uid rq) c]). split.
  - rewrite existsb_app. cbn. now rewrite orb_true_r.
  - destruct (generateVideo (video_job sv) (uid rq) c) as [[v|e]|]; reflexivity.
Qed.

(** The first half of a turn does not wait and makes no video call; it
    succeeds exactly when the four deciding stages do. *)
Lemma turn_start_cases ep sv rq :
  (exists h tr,
     turn_start ep sv rq [] = (Settled (Ok h), tr) /\ quiet tr
     /\ fatal_stages_ok ep sv rq = true
     /\ h_chatId h = currentChatId sv rq
     /\ fst (resolve_persona sv rq []) = Settled (Ok (h_persona h))
     /\ match ep with
        | text_endpoint => Ok (message rq)
        | audio_endpoint => transcribeAudio sv (message rq)
        end = Ok (h_userText h)
     /\ exists validLocations,
          fst (validate_locations sv rq []) = Settled (Ok validLocations)
          /\ generateAIResponse sv (h_userText h) (h_persona h)
               (chatHistory sv rq) validLocations
             = Ok (h_rawResponseText h))
  \/ (exists e tr,
        turn_start ep sv rq [] = (Settled (Throw e), tr) /\ quiet tr
        /\ fatal_stages_ok ep sv rq = false).
Proof.
  unfold turn_start, fatal_stages_ok, mbind.
  destruct (resolve_persona_silent sv rq []) as [rp ->]. cbn [fst].
  destruct rp as [p|e];
    [|right; exists e, []; repeat split; apply quiet_nil].
  destruct (user_text_step ep sv rq []) as (tr1 & -> & Q1). cbn [app].
  destruct (match ep with
            | text_endpoint => Ok (message rq)
            | audio_endpoint => transcribeAudio sv (message rq)
            end) as [userText|e] eqn:Ut;
    [|right; exists e, tr1; repeat split; exact Q1].
  destruct (validate_locations_silent sv rq tr1) as (rv & -> & ->).
  destruct rv as [validLocations|e];
    [|right; exists e, tr1; repeat split; exact Q1].
  unfold calling.
  destruct (generateAIResponse sv userText p (chatHistory sv rq) validLocations)
    as [raw|e] eqn:G; cbn [is_ok].
  2:{ right. exists e. eexists. repeat split.
      apply quiet_app; [exact Q1 | now apply quiet_one]. }
  destruct (audio_stage_total sv userText raw p (tr1 ++ [TextGen userText]))
    as ([audioUrl userAudioUrl] & ->).
  left. eexists. eexists. split; [reflexivity|]. unfold ret.
  split; [repeat apply quiet_app; auto; now apply quiet_one|].
  cbn [h_chatId h_persona h_userText h_rawResponseText].
  split; [reflexivity|]. split; [apply or_else_currentChatId|].
  split; [reflexivity|]. split; [reflexivity|].
  exists validLocations. split; [reflexivity | exact G].
Qed.

(** The second half of a turn answers 200 unless it waits for the video
    for ever; it never throws. *)
Lemma turn_finish_cases sv rq h tr :
  quiet tr ->
  let job := generateVideo (video_job sv) (uid rq) (h_chatId h) in
  (exists tr',
     turn_finish sv rq h tr = (Pending, tr')
     /\ job = Pending /\ existsb is_video_call tr' = true
     /\ videoEnabled rq && truthy (h_audioUrl h) = true)
  \/ (exists videoUrl sa su sv' tr',
        turn_finish sv rq h tr
        = (Settled (Ok
             ({| status := 200;
                 payload :=
                   TurnJson (h_userText h)
                     (Clean.cleanResponseText (h_rawResponseText h)) sa su sv'
                     (match fst (saveConversation (db_faults sv) (db_clock sv)
                                   (db_table sv) (uid rq) (h_chatId h)
                                   (h_userText h) (h_rawResponseText h)
                                   (h_persona h) (h_audioUrl h)
                                   (h_userAudioUrl h) videoUrl) with
                      | Some c => match c_id c with
                                  | [] => h_chatId h
                                  | i => i
                                  end
                      | None => h_chatId h
                      end)
                     (eqb (p_name (h_persona h)) (js "User")) |},
              snd (saveConversation (db_faults sv) (db_clock sv) (db_table sv)
                     (uid rq) (h_chatId h) (h_userText h) (h_rawResponseText h)
                     (h_persona h) (h_audioUrl h) (h_userAudioUrl h) videoUrl),
              videoUrl)), tr')
        /\ (truthy videoUrl = false -> sv' = None)
        /\ (existsb is_video_call tr' = true ->
            videoEnabled rq && truthy (h_audioUrl h) = true
            /\ match job with
               | Settled (Ok v) => videoUrl = Some v
               | Settled (Throw _) => videoUrl = None
               | Pending => False
               end)
        /\ (existsb is_video_call tr' = false -> videoUrl = None)).
Proof.
  intros Q. cbv zeta. unfold turn_finish, mbind.
  assert (Rest : forall videoUrl tr1,
            exists sa su sv' ext,
              (let (savedChat, table') :=
                 saveConversation (db_faults sv) (db_clock sv) (db_table sv)
                   (uid rq) (h_chatId h) (h_userText h) (h_rawResponseText h)
                   (h_persona h) (h_audioUrl h) (h_userAudioUrl h) videoUrl in
               fun tr0 =>
                 match sign_stage sv (h_audioUrl h) (h_userAudioUrl h) videoUrl tr0 with
                 | (Settled (Ok a), tr') =>
                     (let '(signedAudioUrl, signedUserAudioUrl, signedVideoUrl) := a in
                      ret ({| status := 200;
                              payload :=
                                TurnJson (h_userText h)
                                  (Clean.cleanResponseText (h_rawResponseText h))
                                  signedAudioUrl signedUserAudioUrl signedVideoUrl
                                  (match savedChat with
                                   | Some c => match c_id c with
                                               | [] => h_chatId h
                                               | i => i
                                               end
                                   | None => h_chatId h
                                   end)
                                  (eqb (p_name (h_persona h)) (js "User")) |},
                           table', videoUrl)) tr'
                 | (Settled (Throw e), tr') => (Settled (Throw e), tr')
                 | (Pending, tr') => (Pending, tr')
                 end) (tr1 ++ [DbSave (h_chatId h)])
              = (Settled (Ok
                   ({| status := 200;
                       payload :=
                         TurnJson (h_userText h)
                           (Clean.cleanResponseText (h_rawResponseText h)) sa su sv'
                           (match fst (saveConversation (db_faults sv) (db_clock sv)
                                         (db_table sv) (uid rq) (h_chatId h)
                                         (h_userText h) (h_rawResponseText h)
                                         (h_persona h) (h_audioUrl h)
                                         (h_userAudioUrl h) videoUrl) with
                            | Some c => match c_id c with
                                        | [] => h_chatId h
                                        | i => i
                                        end
                            | None => h_chatId h
                            end)
                           (eqb (p_name (h_persona h)) (js "User")) |},
                    snd (saveConversation (db_faults sv) (db_clock sv) (db_table sv)
                           (uid rq) (h_chatId h) (h_userText h)
                           (h_rawResponseText h) (h_persona h) (h_audioUrl h)
                           (h_userAudioUrl h) videoUrl),
                    videoUrl)), (tr1 ++ [DbSave (h_chatId h)]) ++ ext)
              /\ quiet ext /\ (truthy videoUrl = false -> sv' = None)).
  { intros videoUrl tr1.
    destruct (saveConversation _ _ _ _ _ _ _ _ _ _ _) as [savedChat table'].
    destruct (sign_stage_total sv (h_audioUrl h) (h_userAudioUrl h) videoUrl
                (tr1 ++ [DbSave (h_chatId h)]))
      as (sa & su & sv' & ext & -> & Qe & Nv).
    exists sa, su, sv', ext. cbn [fst snd]. unfold ret. auto. }
  destruct (video_stage_cases sv rq (h_persona h) (h_audioUrl h) (h_chatId h) tr Q)
    as [(tr1 & -> & Q1 & _)|(G & tr1 & V & ->)].
  - right. unfold calling.
    destruct (Rest None tr1) as (sa & su & sv' & ext & E & Qe & Nv).
    exists None, sa, su, sv'. eexists. split; [exact E|]. split; [exact Nv|].
    assert (Qall : quiet ((tr1 ++ [DbSave (h_chatId h)]) ++ ext))
      by (repeat apply quiet_app; auto; now apply quiet_one).
    split; [|reflexivity]. intros A. unfold quiet in Qall. congruence.
  - destruct (generateVideo (video_job sv) (uid rq) (h_chatId h)) as [[v|e]|].
    + right. unfold calling.
      destruct (Rest (Some v) tr1) as (sa & su & sv' & ext & E & Qe & Nv).
      exists (Some v), sa, su, sv'. eexists. split; [exact E|].
      split; [exact Nv|]. split; [now split|].
      rewrite !existsb_app, V. discriminate.
    + right. unfold calling.
      destruct (Rest None tr1) as (sa & su & sv' & ext & E & Qe & Nv).
      exists None, sa, su, sv'. eexists. split; [exact E|].
      split; [exact Nv|]. split; [now split | reflexivity].
    + left. exists tr1. repeat split; assumption.
Qed.





End TurnFacts.

Module JsonFacts.
Import JsString Json.
Example parse_object :
  JSON_parse (quoted "{'status': 'running', 'n': [1, 2.5e3, -0], 'ok': true}")
  = Ok (JObject [(js "status", JString (js "running"));
                 (js "n", JArray [JNumber (js "1"); JNumber (js "2.5e3"); JNumber (js "-0")]);
                 (js "ok", JBool true)]).
Proof. vm_compute. reflexivity. Qed.

Example parse_index_keys_first :
  JSON_parse (quoted "{'b': 1, '10': 2, '2': 3, 'b': 4}")
  = Ok (JObject [(js "2", JNumber (js "3")); (js "10", JNumber (js "2"));
                 (js "b", JNumber (js "4"))]).
Proof. vm_compute. reflexivity. Qed.

Example parse_two_documents : JSON_parse (quoted "{'a':1}{'b':2}") = Throw SyntaxError.
Proof. vm_compute. reflexivity. Qed.

Example parse_escape :
  JSON_parse (quoted "'aA\n'") = Ok (JString [97; 65; 10]%N).
Proof. vm_compute. reflexivity. Qed.

Example parse_bad : JSON_parse (quoted "{'a':}") = Throw SyntaxError.
Proof. vm_compute. reflexivity. Qed.

Example parse_leading_zero : JSON_parse (js "01") = Throw SyntaxError.
Proof. vm_compute. reflexivity. Qed.

Example number_is_zero_examples : map number_is_zero [js "0"; js "-0.000"; js "0e7"; js "1e-400"; js "5"; js "0.001"; js "4e-324"; js "2e-324"]
  = [true; true; true; true; false; false; false; true].
Proof. vm_compute. reflexivity. Qed.

(** [===] on numbers compares the doubles that the literals denote. *)
Example strict_eq_numbers :
  map (fun p => strict_eq (JNumber (js (fst p))) (JNumber (js (snd p))))
    [("1", "1.0"); ("-0", "0"); ("1e2", "100"); ("0.1", "0.10000000000000001");
     ("9007199254740993", "9007199254740992"); ("1e-400", "0");
     ("1", "2"); ("0.1", "0.2"); ("1e400", "1e399"); ("1e400", "-1e400")]%string
  = [true; true; true; true; true; true; false; false; true; false].
Proof. vm_compute. reflexivity. Qed.

Example to_primitive_examples :
  map (fun t => match JSON_parse (quoted t) with
                | Ok v => Some (stringifiable v)
                | Throw _ => None
                end)
    ["'KSampler'"; "7"; "null"; "[1, 'a']"; "{'a': 1}"; "{'toString': 1}";
     "[[{'toString': null}]]"]%string
  = [Some true; Some true; Some true; Some true; Some true; Some false; Some false].
Proof. vm_compute. reflexivity. Qed.
End JsonFacts.

(* ================================================================== *)
(** * Facts about the job bridge *)

Module ComfyFacts.
Import JsString Json Comfy.

Example queue_save_node_affected :
  snd (queue sample_bridge (Ok (sample_errors_reply true 200)))
  = [Interrupt (JString (js "job-1"));
     Rejected (Error "Save node affected by errors.")].
Proof. vm_compute. reflexivity. Qed.

Example queue_http_400 :
  snd (queue sample_bridge (Ok (sample_errors_reply false 400)))
  = [Rejected (StatusError 400)].
Proof. vm_compute. reflexivity. Qed.

Example queue_bare_reply :
  snd (queue sample_bridge (Ok sample_bare_reply)) = [Rejected TypeError].
Proof. vm_compute. reflexivity. Qed.

Example executed_event_fires_callback :
  let b := fst (queue sample_bridge (Ok (sample_errors_reply true 200))) in
  map is_save_callback
    (snd (onmessage b (Text (quoted
       "{'type': 'executed', 'data': {'node': '131', 'prompt_id': 'job-1', 'output': {}}}"))))
  = [true; false].
Proof. vm_compute. reflexivity. Qed.

Lemma get_object props k :
  exists v, get (JObject props) k = Ok v.
Proof. unfold get. destruct (lookup k props); eauto. Qed.

Lemma get_ok_twice v k x k' : get v k = Ok x -> exists y, get v k' = Ok y.
Proof.
  destruct v; simpl; try discriminate; intros _; eauto.
  destruct (lookup k' props); eauto.
Qed.

(** On entries in the server's format the print loop does not throw. *)
Lemma print_node_errors_ok entries :
  forallb node_error_ok entries = true -> print_node_errors entries = Ok tt.
Proof.
  induction entries as [|e t IH]; cbn [forallb print_node_errors];
    [reflexivity|].
  intros H. apply andb_true_iff in H. destruct H as [He Ht].
  destruct e; try discriminate. unfold node_error_ok in He.
  apply andb_true_iff in He. destruct He as [Hc Hd].
  assert (C : exists class_type,
            get (JObject props) (js "class_type") = Ok class_type
            /\ to_primitive class_type = Ok tt).
  { unfold get, to_primitive.
    destruct (lookup (js "class_type") props) as [class_type|].
    - exists class_type. now rewrite Hc.
    - now exists JUndefined. }
  destruct C as (class_type & Gc & Tc). rewrite Gc. cbn [bind].
  rewrite Tc. cbn [bind].
  destruct (get_object props (js "errors")) as [? ->]. cbn [bind].
  assert (D : exists outputs,
            get (JObject props) (js "dependent_outputs") = Ok outputs
            /\ length_above_zero outputs = Ok tt).
  { unfold get.
    destruct (lookup (js "dependent_outputs") props) as [[]|];
      try discriminate; eexists; split; reflexivity. }
  destruct D as (outputs & Gd & Ld). rewrite Gd. cbn [bind].
  rewrite Ld. cbn [bind]. now apply IH.
Qed.

Lemma affects_save_ok api e :
  node_error_ok e = true -> affects_save api e = Ok (lists_save_node api e).
Proof.
  destruct e; try discriminate. unfold node_error_ok, affects_save, lists_save_node, get.
  intros H. apply andb_true_iff in H. destruct H as [_ H]. revert H.
  destruct (lookup (js "dependent_outputs") props) as [[]|]; simpl;
    try discriminate; reflexivity.
Qed.

Lemma some_of_ok api entries :
  forallb node_error_ok entries = true ->
  some_of (affects_save api) entries
  = Ok (existsb (lists_save_node api) entries).
Proof.
  induction entries as [|e t IH]; simpl; [reflexivity|].
  intros H. apply andb_true_iff in H. destruct H as [He Ht].
  rewrite (affects_save_ok api _ He). cbn [bind].
  destruct (lists_save_node api e); [reflexivity | now apply IH].
Qed.

Lemma api_save_after_prompt b pid :
  api_save (if truthy pid then set_promptId b pid else b) = api_save b.
Proof. now destruct (truthy pid). Qed.

(** [queue] itself never calls the save callback. *)
Lemma queue_no_save_callback b reply :
  existsb is_save_callback (snd (queue b reply)) = false.
Proof.
  unfold queue. destruct reply as [r|e]; [|reflexivity].
  destruct (ok r); [|reflexivity]. cbn [negb].
  destruct (json r) as [rd|e]; [|reflexivity].
  destruct (get rd (js "prompt_id")) as [pid|e]; [|reflexivity].
  destruct (saveNodeAffected _ rd) as [[|]|e]; reflexivity.
Qed.

(** The message handler leaves the prompt id, the save nodes and the
    save callback of the bridge as they are. *)
Lemma onmessage_keeps b d :
  promptId (fst (onmessage b d)) = promptId b
  /\ api_save (fst (onmessage b d)) = api_save b
  /\ has_onSaveCallback (fst (onmessage b d)) = has_onSaveCallback b.
Proof.
  unfold onmessage. destruct d as [|text]; [repeat split|].
  destruct (JSON_parse text) as [message|]; [|repeat split].
  destruct (get message (js "type")) as [type|]; [|repeat split].
  destruct (is_string type (js "status")).
  - destruct (get message (js "data")) as [x1|]; [|repeat split]. cbn [bind].
    destruct (get x1 (js "status")) as [x2|]; [|repeat split]. cbn [bind].
    destruct (get x2 (js "exec_info")) as [x3|]; [|repeat split]. cbn [bind].
    destruct (get x3 (js "queue_remaining")) as [x4|]; [|repeat split].
    cbn [bind]. destruct (truthy _ && strict_eq _ _); repeat split.
  - destruct (truthy _ && strict_eq _ _); repeat split.
Qed.

(** The message handler calls the save callback, with the prompt id of
    the bridge, only for an [executed] message that names a save node
    and carries that prompt id. *)
Lemma onmessage_save_event b d message p :
  In (SaveCallback message p) (snd (onmessage b d)) ->
  p = promptId b /\ has_onSaveCallback b = true
  /\ exists text,
       d = Text text /\ JSON_parse text = Ok message
       /\ get message (js "type") = Ok (JString (js "executed"))
       /\ includes_value (api_save b)
            (get_opt (get_opt message (js "data")) (js "node")) = true
       /\ truthy (get_opt (get_opt message (js "data")) (js "prompt_id")) = true
       /\ strict_eq (get_opt (get_opt message (js "data")) (js "prompt_id"))
            (promptId b) = true.
Proof.
  unfold onmessage. destruct d as [|text]; [intros []|].
  destruct (JSON_parse text) as [parsed|] eqn:P; [|intros []].
  destruct (get parsed (js "type")) as [type|] eqn:T; [|intros []].
  set (su := if is_string type (js "status") then _ else Ok b).
  assert (Hsu : forall b', su = Ok b' ->
                  api_save b' = api_save b /\ promptId b' = promptId b
                  /\ has_onSaveCallback b' = has_onSaveCallback b).
  { unfold su. destruct (is_string type (js "status")).
    - destruct (get parsed (js "data")) as [x1|]; [|discriminate]. cbn [bind].
      destruct (get x1 (js "status")) as [x2|]; [|discriminate]. cbn [bind].
      destruct (get x2 (js "exec_info")) as [x3|]; [|discriminate]. cbn [bind].
      destruct (get x3 (js "queue_remaining")) as [x4|]; [|discriminate].
      cbn [bind]. intros b' E; inversion E; repeat split.
    - intros b' E; inversion E; repeat split. }
  destruct su as [b'|]; [|intros []].
  destruct (Hsu b' eq_refl) as (Ha & Hp & Hs). rewrite Ha, Hp, Hs.
  destruct (truthy _ && strict_eq _ (promptId b)) eqn:G; [|intros []].
  apply andb_true_iff in G. destruct G as [G1 G2]. cbn [snd].
  intros I. apply in_app_or in I. destruct I as [I|I].
  - destruct (is_string type (js "executed")
              && includes_value (api_save b)
                   (get_opt (get_opt parsed (js "data")) (js "node"))
              && has_onSaveCallback b) eqn:S; [|destruct I].
    destruct I as [I|[]]. inversion I; subst message p. clear I.
    apply andb_true_iff in S. destruct S as [S S3].
    apply andb_true_iff in S. destruct S as [S1 S2].
    destruct type; try discriminate. simpl in S1.
    apply JsStringFacts.eqb_eq in S1. subst s.
    split; [reflexivity|]. split; [exact S3|]. exists text. repeat split; auto.
  - destruct (_ && has_onMessageCallback b'); [|destruct I].
    destruct I as [I|[]]. discriminate I.
Qed.

(** So it is for every frame of a sequence. *)
Lemma receive_save_event frames : forall b message p,
  In (SaveCallback message p) (snd (receive b frames)) ->
  p = promptId b /\ has_onSaveCallback b = true
  /\ exists text,
       In (Text text) frames /\ JSON_parse text = Ok message
       /\ get message (js "type") = Ok (JString (js "executed"))
       /\ includes_value (api_save b)
            (get_opt (get_opt message (js "data")) (js "node")) = true
       /\ truthy (get_opt (get_opt message (js "data")) (js "prompt_id")) = true
       /\ strict_eq (get_opt (get_opt message (js "data")) (js "prompt_id"))
            (promptId b) = true.
Proof.
  induction frames as [|d rest IH]; intros b message p; cbn [receive];
    [intros []|].
  destruct (onmessage_keeps b d) as (Kp & Ka & Ks).
  destruct (onmessage b d) as [b1 events] eqn:E. cbn [fst] in Kp, Ka, Ks.
  specialize (IH b1 message p).
  destruct (receive b1 rest) as [b2 later]. cbn [snd] in *.
  intros I. apply in_app_or in I. destruct I as [I|I].
  - assert (I' : In (SaveCallback message p) (snd (onmessage b d)))
      by (rewrite E; exact I).
    destruct (onmessage_save_event _ _ _ _ I')
      as (Hp & Hs & text & -> & Rest).
    split; [exact Hp|]. split; [exact Hs|]. exists text.
    split; [now left | exact Rest].
  - destruct (IH I) as (Hp & Hs & text & It & Rest).
    rewrite Kp, Ka in *. split; [exact Hp|]. split; [congruence|].
    exists text. split; [now right | exact Rest].
Qed.

Lemma saveNodeAffected_ok b responseData node_errors entries :
  get responseData (js "node_errors") = Ok node_errors ->
  Object_values node_errors = Ok entries ->
  forallb node_error_ok entries = true ->
  saveNodeAffected b responseData
  = Ok (existsb (lists_save_node (api_save b)) entries).
Proof.
  intros G V W. unfold saveNodeAffected. rewrite G. cbn [bind].
  rewrite V. cbn [bind]. rewrite (print_node_errors_ok _ W).
  destruct (truthy node_errors); cbn [bind]; now apply some_of_ok.
Qed.

(** C3, as amended: when the submission is answered with an HTTP success
    status and a body whose [node_errors], in the server's format, list
    a save node among the dependent outputs of some entry, [queue] issues
    the interrupt for the job and then rejects, the job being the prompt
    id of the reply, or the one the bridge had when the reply gives
    none; [queue] itself never invokes the save callback; and whatever
    frames the socket delivers after the rejection, the save callback is
    invoked for the job only at a frame that parses to an [executed]
    message which names a save node and carries the prompt id of the
    job. *)
Theorem queue_interrupts_and_rejects
    (b : bridge) (r : http_reply) (responseData node_errors : value)
    (entries : list value) :
  ok r = true ->
  json r = Ok responseData ->
  get responseData (js "node_errors") = Ok node_errors ->
  Object_values node_errors = Ok entries ->
  forallb node_error_ok entries = true ->
  existsb (lists_save_node (api_save b)) entries = true ->
  let job := promptId (fst (queue b (Ok r))) in
  snd (queue b (Ok r))
  = [Interrupt job; Rejected (Error "Save node affected by errors.")]
  /\ (forall prompt_id, get responseData (js "prompt_id") = Ok prompt_id ->
        job = if truthy prompt_id then prompt_id else promptId b)
  /\ (forall reply, existsb is_save_callback (snd (queue b reply)) = false)
  /\ (forall frames message p,
        In (SaveCallback message p) (snd (receive (fst (queue b (Ok r))) frames)) ->
        p = job
        /\ exists text,
             In (Text text) frames /\ JSON_parse text = Ok message
             /\ get message (js "type") = Ok (JString (js "executed"))
             /\ includes_value (api_save b)
                  (get_opt (get_opt message (js "data")) (js "node")) = true
             /\ truthy (get_opt (get_opt message (js "data")) (js "prompt_id"))
                = true
             /\ strict_eq (get_opt (get_opt message (js "data")) (js "prompt_id"))
                  job = true).
Proof.
  intros Hok Hjson Hne Hvals Hfmt Hsave. cbv zeta.
  assert (Q : forall pid, get responseData (js "prompt_id") = Ok pid ->
              queue b (Ok r)
              = (if truthy pid then set_promptId b pid else b,
                 [Interrupt (promptId (if truthy pid then set_promptId b pid else b));
                  Rejected (Error "Save node affected by errors.")])).
  { intros pid Hpid. unfold queue. rewrite Hok, Hjson, Hpid. cbn [negb].
    rewrite (saveNodeAffected_ok _ _ _ _ Hne Hvals Hfmt).
    now rewrite api_save_after_prompt, Hsave. }
  destruct (get_ok_twice _ _ _ (js "prompt_id") Hne) as [pid Hpid].
  rewrite (Q pid Hpid). cbn [fst snd].
  split; [reflexivity|]. split.
  { intros pid' E. rewrite Hpid in E. inversion E; subst pid'.
    now destruct (truthy pid). }
  split; [apply queue_no_save_callback|].
  intros frames message p I.
  destruct (receive_save_event _ _ _ _ I) as (Hp & _ & text & Rest).
  rewrite api_save_after_prompt in Rest.
  split; [exact Hp | now exists text].
Qed.

Lemma queue_interrupts_and_rejects_witness :
  JSON_parse sample_errors_text = Ok sample_errors_data
  /\ snd (queue sample_bridge (Ok (sample_errors_reply true 200)))
     = [Interrupt (JString (js "job-1"));
        Rejected (Error "Save node affected by errors.")].
Proof.
  split; [vm_compute; reflexivity|].
  destruct (@queue_interrupts_and_rejects sample_bridge
              (sample_errors_reply true 200) sample_errors_data
              (JObject [(js "125", sample_entry)]) [sample_entry]
              eq_refl eq_refl eq_refl eq_refl eq_refl eq_refl)
    as (E & Job & _).
  rewrite E. rewrite (Job (JString (js "job-1")) eq_refl). reflexivity.
Defined.

(** C3 as stated fails in three ways.  When the server answers the
    submission with a status other than success, as it does when no
    output validates, the body lists the save node among the affected
    outputs but [queue] rejects on the status and issues no interrupt.
    When the class type of the entry is an object with a [toString]
    member, printing the entry throws a TypeError and [queue] rejects
    with it, again without an interrupt.  And after [queue] has issued
    the interrupt and rejected, an [executed] message of the save node
    for the job still invokes the save callback. *)
Lemma queue_claim_fails_three_ways :
  (let reply := sample_errors_reply false 400 in
   json reply = Ok sample_errors_data
   /\ get sample_errors_data (js "node_errors")
      = Ok (JObject [(js "125", sample_entry)])
   /\ lists_save_node (api_save sample_bridge) sample_entry = true
   /\ snd (queue sample_bridge (Ok reply)) = [Rejected (StatusError 400)]
   /\ existsb is_interrupt (snd (queue sample_bridge (Ok reply))) = false)
  /\ (exists responseData entry,
        json odd_class_reply = Ok responseData
        /\ get responseData (js "node_errors") = Ok (JObject [(js "125", entry)])
        /\ lists_save_node (api_save sample_bridge) entry = true
        /\ snd (queue sample_bridge (Ok odd_class_reply)) = [Rejected TypeError]
        /\ existsb is_interrupt (snd (queue sample_bridge (Ok odd_class_reply)))
           = false)
  /\ (let rejected := queue sample_bridge (Ok (sample_errors_reply true 200)) in
      snd rejected = [Interrupt (JString (js "job-1"));
                      Rejected (Error "Save node affected by errors.")]
      /\ exists message,
           snd (receive (fst rejected) [executed_frame])
           = [SaveCallback message (JString (js "job-1"));
              MessageCallback message (JString (js "job-1"))]).
Proof.
  cbv zeta. split; [|split].
  - split; [vm_compute; reflexivity|]. repeat split.
  - eexists. eexists. split; [vm_compute; reflexivity|].
    split; [vm_compute; reflexivity|]. split; [vm_compute; reflexivity|].
    split; vm_compute; reflexivity.
  - split; [vm_compute; reflexivity|]. eexists. vm_compute. reflexivity.
Qed.

(** C8: for a reply object without a [node_errors] field, [queue] rejects;
    when the submission succeeded it rejects with the TypeError of
    [Object.values(undefined)], after the prompt id that the reply carries
    has been assigned; and whenever [queue] resolves, the reply has a
    [node_errors] value that is neither [undefined] nor [null]. *)
Theorem queue_needs_node_errors (b : bridge) (r : http_reply)
    (props : list (jsstring * value)) :
  json r = Ok (JObject props) ->
  lookup (js "node_errors") props = None ->
  (exists e, snd (queue b (Ok r)) = [Rejected e]
             /\ (ok r = true -> e = TypeError))
  /\ (forall job, ok r = true ->
        lookup (js "prompt_id") props = Some job -> truthy job = true ->
        promptId (fst (queue b (Ok r))) = job)
  /\ (forall b' reply responseData,
        In (Resolved responseData) (snd (queue b' reply)) ->
        exists node_errors,
          get responseData (js "node_errors") = Ok node_errors
          /\ node_errors <> JUndefined /\ node_errors <> JNull).
Proof.
  intros Hjson Hnone.
  assert (E : forall b0, saveNodeAffected b0 (JObject props) = Throw TypeError).
  { intros b0. unfold saveNodeAffected, get. now rewrite Hnone. }
  split; [|split].
  - unfold queue. destruct (ok r); cbn [negb].
    + rewrite Hjson. destruct (get_object props (js "prompt_id")) as [pid ->].
      rewrite E. eexists. split; [reflexivity | reflexivity].
    + eexists. split; [reflexivity | discriminate].
  - intros job Hok Hjob Htruthy. unfold queue. rewrite Hok, Hjson. cbn [negb].
    unfold get. rewrite Hjob, Htruthy, E. reflexivity.
  - clear. intros b reply rd. unfold queue.
    destruct reply as [r|e]; [|simpl; intros [H|[]]; discriminate H].
    destruct (ok r); [|simpl; intros [H|[]]; discriminate H]. cbn [negb].
    destruct (json r) as [rd'|e]; [|simpl; intros [H|[]]; discriminate H].
    destruct (get rd' (js "prompt_id")) as [pid|e];
      [|simpl; intros [H|[]]; discriminate H].
    destruct (saveNodeAffected _ rd') as [[|]|e] eqn:S; cbn [snd];
      try (simpl; intros [H|[H|[]]]; discriminate H);
      try (simpl; intros [H|[]]; discriminate H).
    intros [H|[]]. inversion H; subst rd'. clear H.
    unfold saveNodeAffected in S.
    destruct (get rd (js "node_errors")) as [ne|]; [|discriminate].
    exists ne. split; [reflexivity|]. cbn [bind] in S.
    split; intros ->; simpl in S; discriminate.
Qed.

Lemma queue_needs_node_errors_witness :
  snd (queue sample_bridge (Ok sample_bare_reply)) = [Rejected TypeError]
  /\ promptId (fst (queue sample_bridge (Ok sample_bare_reply)))
     = JString (js "job-1").
Proof.
  destruct (@queue_needs_node_errors sample_bridge sample_bare_reply
              [(js "prompt_id", JString (js "job-1"));
               (js "number", JNumber (js "3"))])
    as ((e & Rej & Type_) & Job & _); try reflexivity.
  split; [rewrite Rej, (Type_ eq_refl); reflexivity|].
  apply Job; reflexivity.
Defined.

End ComfyFacts.

(* ================================================================== *)
(** * Facts about the crawl *)

Module BrightDataFacts.
Import JsString Json BrightData.

Example wait_never_ready :
  wait_loop 100 10 never_ready 0 0
  = (Thrown (Error "Crawl timeout: Results not ready within 60 seconds"), 15).
Proof. vm_compute. reflexivity. Qed.

Example wait_two_lines :
  waitForCrawlCompletion 100 100 (completed_with two_lines_payload)
  = Returned (JArray
      [JObject [(js "post_id", JString (js "1")); (js "title", JString (js "road works"))];
       JObject [(js "post_id", JString (js "2")); (js "title", JString (js "ok"))]]).
Proof. vm_compute. reflexivity. Qed.

Example wait_close_brace :
  waitForCrawlCompletion 100 100 (completed_with close_brace_payload)
  = Returned (JArray
      [JObject [(js "post_id", JString (js "2")); (js "title", JString (js "ok"))]]).
Proof. vm_compute. reflexivity. Qed.

Example wait_open_brace :
  waitForCrawlCompletion 100 100 (completed_with open_brace_payload)
  = ScanExhausted.
Proof. vm_compute. reflexivity. Qed.

(** ** The polling loop is bounded *)

Lemma polls_left_start : polls_left 0 = 15.
Proof. reflexivity. Qed.

Lemma polls_left_step now later :
  (now < maxWaitTime)%N -> (now + pollInterval <= later)%N ->
  polls_left later < polls_left now.
Proof.
  unfold polls_left, maxWaitTime, pollInterval. intros H1 H2.
  assert (K : (later < 45000 ->
               (45000 - 1 - later) / 3000 < (45000 - 1 - now) / 3000)%N).
  { intros H3.
    replace (45000 - 1 - now)%N with ((45000 - 1 - now - 3000) + 1 * 3000)%N by lia.
    rewrite N.div_add by lia.
    assert (D : ((45000 - 1 - later) / 3000
                 <= (45000 - 1 - now - 3000) / 3000)%N)
      by (apply N.Div0.div_le_mono; lia).
    revert D. generalize ((45000 - 1 - later) / 3000)%N.
    generalize ((45000 - 1 - now - 3000) / 3000)%N. intros; lia. }
  set (a := ((45000 - 1 - later) / 3000)%N) in *.
  set (b := ((45000 - 1 - now) / 3000)%N) in *.
  destruct (N.ltb_spec now 45000); [|lia].
  destruct (N.ltb_spec later 45000); [|lia].
  specialize (K ltac:(assumption)). lia.
Qed.

Lemma polls_left_pos now : (now < maxWaitTime)%N -> 1 <= polls_left now.
Proof.
  unfold polls_left. intros H. apply N.ltb_lt in H. rewrite H.
  generalize ((maxWaitTime - 1 - now) / pollInterval)%N. intros; lia.
Qed.

Lemma parse_data_not_polls scan text_ : parse_data scan text_ <> PollsExhausted.
Proof.
  unfold parse_data. destruct (parse_structured _); [discriminate|].
  destruct (extract_objects _ _ _ _) as [[|]|]; discriminate.
Qed.

Lemma poll_once_not_polls scan w i : poll_once scan w i <> Some PollsExhausted.
Proof.
  unfold poll_once.
  destruct (status_reply w i) as [r|]; [|discriminate].
  destruct (negb (ok r)); [discriminate|].
  destruct (includes _ _); [discriminate|].
  destruct (parse_snapshot _) as [sn|]; [|discriminate].
  destruct (get sn _) as [st|]; [|discriminate].
  destruct (is_string st (js "completed")).
  - destruct (negb (stringifiable _)); [discriminate|].
    destruct (data_reply w i) as [dr|]; [|discriminate].
    destruct (negb (ok dr)); [discriminate|].
    intros H; inversion H as [H']. now apply parse_data_not_polls in H'.
  - destruct (is_string st (js "failed")).
    + destruct (truthy _ && negb (stringifiable _)); discriminate.
    + destruct (negb (stringifiable st)); discriminate.
Qed.

(** With more iterations allowed than [polls_left], the loop ends by
    itself, after at most [polls_left] further status requests. *)
Lemma wait_loop_bounded poll_fuel scan w i now :
  polls_left now < poll_fuel ->
  fst (wait_loop poll_fuel scan w i now) <> PollsExhausted
  /\ snd (wait_loop poll_fuel scan w i now) <= i + polls_left now.
Proof.
  revert i now; induction poll_fuel as [|f IH]; intros i now L; [lia|].
  cbn [wait_loop]. destruct (N.ltb_spec now maxWaitTime) as [T|T].
  - destruct (poll_once scan w i) as [r|] eqn:P.
    + cbn [fst snd]. split.
      * intros ->. now apply poll_once_not_polls in P.
      * pose proof (polls_left_pos _ T). lia.
    + assert (S : polls_left (now + pollInterval + delay w i) < polls_left now)
        by (apply polls_left_step; lia).
      destruct (IH (i + 1) (now + pollInterval + delay w i)%N) as [A B]; [lia|].
      split; [exact A | lia].
  - cbn [fst snd]. split; [discriminate | lia].
Qed.

(** While the crawl is still running the loop goes on until the deadline
    and then throws the timeout. *)
Lemma wait_loop_timeout poll_fuel scan w i now :
  (forall j, poll_once scan w j = None) ->
  polls_left now < poll_fuel ->
  fst (wait_loop poll_fuel scan w i now)
  = Thrown (Error "Crawl timeout: Results not ready within 60 seconds").
Proof.
  intros Pending. revert i now; induction poll_fuel as [|f IH]; intros i now L; [lia|].
  cbn [wait_loop]. destruct (N.ltb_spec now maxWaitTime) as [T|T]; [|reflexivity].
  rewrite Pending. apply IH.
  assert (S : polls_left (now + pollInterval + delay w i) < polls_left now)
    by (apply polls_left_step; lia).
  lia.
Qed.

(** The polling is bounded by its deadline: given room for sixteen
    iterations the loop never asks for another one and makes at most
    fifteen status requests, three seconds or more apart; and when no
    answer is final it throws the timeout. *)
Theorem polling_is_bounded (scan_fuel : nat) (w : polls) (extra : nat) :
  maxWaitTime = 45000%N /\ pollInterval = 3000%N
  /\ fst (wait_loop (16 + extra) scan_fuel w 0 0) <> PollsExhausted
  /\ snd (wait_loop (16 + extra) scan_fuel w 0 0) <= 15
  /\ ((forall j, poll_once scan_fuel w j = None) ->
      waitForCrawlCompletion (16 + extra) scan_fuel w
      = Thrown (Error "Crawl timeout: Results not ready within 60 seconds")).
Proof.
  split; [reflexivity|]. split; [reflexivity|].
  destruct (wait_loop_bounded (16 + extra) scan_fuel w 0 0) as [A B];
    [rewrite polls_left_start; lia|].
  split; [exact A|]. split; [exact B|].
  intros Pending. apply wait_loop_timeout; [exact Pending|].
  rewrite polls_left_start; lia.
Qed.

Lemma never_ready_pending scan j : poll_once scan never_ready j = None.
Proof. reflexivity. Qed.

Lemma polling_is_bounded_witness :
  waitForCrawlCompletion 16 0 never_ready
  = Thrown (Error "Crawl timeout: Results not ready within 60 seconds").
Proof.
  destruct (polling_is_bounded 0 never_ready 0) as (_ & _ & _ & _ & Timeout).
  apply Timeout. intros j. apply never_ready_pending.
Defined.

(** ** The extraction loop can spin *)

(** When the brace at [pos] is never closed, the loop returns to [pos]
    after every iteration. *)
Lemma extract_objects_spins fuel dataText pos acc :
  pos < length dataText ->
  indexOfFrom dataText [LBRACE] pos = Z.of_nat pos ->
  closing_end (skipn pos dataText) 0 pos = None ->
  extract_objects fuel dataText pos acc = None.
Proof.
  intros L I C. induction fuel as [|f IH]; [reflexivity|].
  cbn [extract_objects]. apply Nat.ltb_lt in L. rewrite L, I.
  destruct (Z.eqb_spec (Z.of_nat pos) (-1)); [lia|].
  rewrite Nat2Z.id, C. exact IH.
Qed.

(** C7 asks that the polling loop always terminates.  The polling is
    bounded (see [polling_is_bounded]), but the loop does not always end:
    when the first poll finds the snapshot completed and the data are two
    valid records of which the first holds an opening brace in its title,
    the structured parse fails, the extraction loop never gets past the
    first brace, and [waitForCrawlCompletion] neither returns nor throws,
    however many iterations it is given. *)
Theorem wait_spins_on_open_brace (poll_fuel scan_fuel : nat) :
  waitForCrawlCompletion (S poll_fuel) scan_fuel (completed_with open_brace_payload)
  = ScanExhausted.
Proof.
  unfold waitForCrawlCompletion. cbn [wait_loop].
  change (0 <? maxWaitTime)%N with true. cbv iota.
  assert (P : poll_once scan_fuel (completed_with open_brace_payload) 0
              = Some ScanExhausted); [|now rewrite P].
  assert (E : extract_objects scan_fuel open_brace_payload 0 [] = None).
  { apply extract_objects_spins; vm_compute; reflexivity || lia. }
  assert (S : parse_structured (trim open_brace_payload) = Throw SyntaxError)
    by (vm_compute; reflexivity).
  unfold poll_once. cbn [completed_with status_reply data_reply completed_status
                          ok text negb].
  replace (includes (trim (quoted "{'status': 'completed', 'total_rows': 2}"))
             (quoted "'post_id'")) with false by (vm_compute; reflexivity).
  replace (parse_snapshot (trim (quoted "{'status': 'completed', 'total_rows': 2}")))
    with (Ok (JObject [(js "status", JString (js "completed"));
                       (js "total_rows", JNumber (js "2"))]))
    by (vm_compute; reflexivity).
  cbn [get lookup]. 
  replace (eqb (js "status") (js "status")) with true by (vm_compute; reflexivity).
  replace (is_string (JString (js "completed")) (js "completed")) with true
    by (vm_compute; reflexivity).
  cbv iota. unfold parse_data. now rewrite S, E.
Qed.

End BrightDataFacts.

Module CrawlParsingFacts.
Import JsString Json BrightData.


(** ** The extraction ends when every brace is closed *)







Lemma braces_closeb_sound dataText :
  braces_closeb dataText = true -> braces_close dataText.
Proof.
  unfold braces_closeb, braces_close. intros H nb Nth.
  rewrite forallb_forall in H. specialize (H nb).
  rewrite Nth in H. change (N.eqb LBRACE LBRACE) with true in H. cbv iota in H.
  assert (I : In nb (seq 0 (length dataText))).
  { apply in_seq. split; [lia|]. apply nth_error_Some. congruence. }
  specialize (H I). destruct (closing_end _ 0 nb); [discriminate | discriminate H].
Qed.


(** ** The extraction yields every record that its braces delimit *)







Section Crawl.
Variable toLowerCase : jsstring -> jsstring.
Variable process_posts : list value -> jsstring -> jsstring -> result (list value).




End Crawl.


Example crawl_on_unparsable_data :
  crawlRedditNews (fun s => s) (fun posts _ _ => Ok posts) 16 100
    (crawl_with (js "<html>busy</html>")) (js "ottawa") []
  = Returned (failure (Error "Invalid JSON data response from BrightData API")).
Proof. vm_compute. reflexivity. Qed.

Example crawl_on_two_lines :
  crawlRedditNews (fun s => s) (fun posts _ _ => Ok posts) 16 100
    (crawl_with two_lines_payload) (js "ottawa") []
  = Returned {| success := true; error := None; resultsCount := Some 2;
                articles := [two_lines_record1; close_brace_record2] |}.
Proof. vm_compute. reflexivity. Qed.



End CrawlParsingFacts.

(* ================================================================== *)
(** * Facts about reading and deleting chats *)

Module DbReadsFacts.
Import JsString JsStringFacts Db DbFacts DbReads.

Lemma owned_by_true chatId uid c :
  owned_by chatId uid c = true <-> c_id c = chatId /\ c_user_id c = uid.
Proof.
  unfold owned_by. rewrite andb_true_iff, !eqb_eq. tauto.
Qed.

(** A call that answers with a row found the database reading. *)
Lemma saveConversation_some_reads f now t uid chatId userMessage responseText
    p audioUrl userAudioUrl videoUrl c t' :
  saveConversation f now t uid chatId userMessage responseText p
    audioUrl userAudioUrl videoUrl = (Some c, t') ->
  select_fails f = false.
Proof.
  unfold saveConversation, select_maybeSingle.
  destruct (select_fails f); [discriminate | reflexivity].
Qed.

(** X1: reading back what was saved.  When [saveConversation] answers
    with the row, [getChatHistory] for the same user and chat id returns
    what it returned before the call (nothing for a new chat) followed by
    the two messages of the turn, and these are the messages of the row
    answered. *)
Theorem getChatHistory_after_save
    (newest_first : table -> table) f now t uid chatId userMessage responseText
    p audioUrl userAudioUrl videoUrl c t' :
  chatId <> [] ->
  saveConversation f now t uid chatId userMessage responseText p
    audioUrl userAudioUrl videoUrl = (Some c, t') ->
  exists before,
    getChatHistory newest_first f t uid (Some chatId) = Messages before
    /\ getChatHistory newest_first f t' uid (Some chatId)
       = Messages (before ++ [user_message now userMessage userAudioUrl;
                              assistant_message now responseText p audioUrl videoUrl])
    /\ c_messages c
       = before ++ [user_message now userMessage userAudioUrl;
                    assistant_message now responseText p audioUrl videoUrl].
Proof.
  intros Hid H. pose proof (saveConversation_some_reads _ _ _ _ _ _ _ _ _ _ _ _ _ H) as Sf.
  apply saveConversation_saved in H.
  destruct chatId as [|k0 k]; [congruence|]. clear Hid.
  unfold getChatHistory, select_single. rewrite Sf.
  destruct H as [row F N ->|e F].
  - exists []. rewrite F. split; [reflexivity|].
    rewrite filter_app, F. cbn [filter app]. unfold owned_by at 1.
    cbn [c_id c_user_id]. rewrite !JsStringFacts.eqb_refl. cbn. split; reflexivity.
  - exists (c_messages e). rewrite F. split; [reflexivity|].
    rewrite filter_map_preserved by (intros; apply rewrite_row_owned).
    rewrite F. cbn [map]. unfold rewrite_row.
    destruct (filter_In_singleton _ _ _ F) as [_ ->].
    split; reflexivity.
Qed.

Lemma getChatHistory_after_save_witness :
  exists before,
    getChatHistory (fun t => t) no_faults sample_table (js "u-1") (Some (js "c-1"))
      = Messages before
    /\ length before = 2
    /\ exists last2,
         getChatHistory (fun t => t) no_faults
           (snd (saveConversation no_faults sample_clock sample_table (js "u-1")
                   (js "c-1") (js "any news?") (js "[sighs] none")
                   sample_persona None None None))
           (js "u-1") (Some (js "c-1"))
         = Messages (before ++ last2)
         /\ map m_role last2 = [user; assistant].
Proof.
  destruct (saveConversation no_faults sample_clock sample_table (js "u-1")
              (js "c-1") (js "any news?") (js "[sighs] none") sample_persona
              None None None) as [[c|] t'] eqn:E; [|discriminate E].
  assert (Hid : js "c-1" <> []) by (intros K; vm_compute in K; discriminate K).
  destruct (@getChatHistory_after_save (fun t => t) _ _ _ _ _ _ _ _ _ _ _ c t'
              Hid E) as (before & B & A & _).
  exists before. split; [exact B|]. split.
  - vm_compute in B. inversion B. reflexivity.
  - eexists. split; [exact A | reflexivity].
Defined.

(** X2: a read serves the asking user's own chat or nothing.  For a chat
    id that is not empty, the row that [getChat] answers with is a row of
    the table with the chat id and the user id asked for, and
    [getChatHistory] returns its messages; and when no row of the table
    has both ids, [getChat] answers null and [getChatHistory] the empty
    array. *)
Theorem getChat_own_chat_only
    (newest_first : table -> table) f ps t uid chatId :
  chatId <> [] ->
  (forall v, getChat f ps t uid chatId = Some v ->
     In (v_chat v) t /\ c_id (v_chat v) = chatId /\ c_user_id (v_chat v) = uid
     /\ getChatHistory newest_first f t uid (Some chatId)
        = Messages (c_messages (v_chat v)))
  /\ ((forall c, In c t -> c_id c = chatId -> c_user_id c <> uid) ->
      getChat f ps t uid chatId = None
      /\ getChatHistory newest_first f t uid (Some chatId) = Messages []).
Proof.
  intros Hid. destruct chatId as [|k0 k]; [congruence|]. clear Hid. split.
  - intros v. unfold getChat, getChatHistory.
    destruct (select_single f t (k0 :: k) uid) as [c|e] eqn:S; [|discriminate].
    intros H; inversion H; subst v; clear H. cbn [v_chat].
    unfold select_single in S. destruct (select_fails f); [discriminate|].
    destruct (filter (owned_by (k0 :: k) uid) t) as [|d [|d' l]] eqn:F;
      try discriminate.
    inversion S; subst d; clear S.
    destruct (filter_In_singleton _ _ _ F) as [I O].
    apply owned_by_true in O. destruct O as [Oi Ou].
    repeat split; assumption.
  - intros None_owned.
    assert (F : filter (owned_by (k0 :: k) uid) t = []).
    { destruct (filter (owned_by (k0 :: k) uid) t) as [|d l] eqn:F; [reflexivity|].
      exfalso. assert (K : In d (filter (owned_by (k0 :: k) uid) t))
        by (rewrite F; now left).
      apply filter_In in K. destruct K as [I O].
      apply owned_by_true in O. destruct O as [Oi Ou].
      exact (None_owned d I Oi Ou). }
    unfold getChat, getChatHistory, select_single. rewrite F.
    destruct (select_fails f); split; reflexivity.
Qed.

(** The chat of the sample table is served to its owner and to nobody
    else. *)
Lemma getChat_own_chat_only_witness :
  getChat no_faults [sample_persona] sample_table (js "u-2") (js "c-1") = None
  /\ getChatHistory (fun t => t) no_faults sample_table (js "u-2") (Some (js "c-1"))
     = Messages [].
Proof.
  assert (Hid : js "c-1" <> []) by (intros K; vm_compute in K; discriminate K).
  destruct (@getChat_own_chat_only (fun t => t) no_faults [sample_persona]
              sample_table (js "u-2") (js "c-1") Hid)
    as [_ Foreign].
  apply Foreign. intros c [<-|[]] _. vm_compute. discriminate.
Defined.

Lemma in_turns_app ms u a :
  in_turns ms ->
  m_role u = user -> m_persona u = None -> m_personaId u = None ->
  m_role a = assistant -> m_persona a <> None -> m_personaId a <> None ->
  in_turns (ms ++ [u; a]).
Proof.
  intros H U1 U2 U3 A1 A2 A3. revert H.
  induction ms as [ms IH] using (well_founded_induction
                                   (well_founded_ltof _ (@length message))).
  destruct ms as [|x [|y rest]]; cbn [in_turns app].
  - intros _. repeat split; assumption.
  - intros [].
  - intros (X1 & X2 & X3 & Y1 & Y2 & Y3 & R). repeat split; try assumption.
    apply IH; [unfold ltof; simpl; lia | exact R].
Qed.

Lemma in_turns_even ms : in_turns ms -> Nat.even (length ms) = true.
Proof.
  induction ms as [ms IH] using (well_founded_induction
                                   (well_founded_ltof _ (@length message))).
  destruct ms as [|x [|y rest]]; cbn [in_turns]; [reflexivity | intros [] |].
  intros (_ & _ & _ & _ & _ & _ & R). cbn [length Nat.even].
  apply IH; [unfold ltof; simpl; lia | exact R].
Qed.

(** X3: whole turns are an invariant of the log.  If every chat of the
    table holds whole turns (a user message without persona, then an
    assistant message with persona name and id), so does every chat after
    a call of [saveConversation], whatever the call answers; and then
    every chat holds an even number of messages. *)
Theorem saveConversation_keeps_whole_turns
    f now t uid chatId userMessage responseText p audioUrl userAudioUrl videoUrl :
  whole_turns t ->
  let t' := snd (saveConversation f now t uid chatId userMessage responseText p
                   audioUrl userAudioUrl videoUrl) in
  whole_turns t'
  /\ forall c, In c t' -> Nat.even (length (c_messages c)) = true.
Proof.
  intros W t'.
  assert (W' : whole_turns t').
  { unfold t'.
    destruct (DbUpsertFacts.saveConversation_table f now t uid chatId userMessage
                responseText p audioUrl userAudioUrl videoUrl)
      as [E|[(row & E & N)|(e & F & E)]].
    - now rewrite E.
    - pose proof E as E'. unfold saveConversation, select_maybeSingle in E'.
      destruct (select_fails f).
      { cbn [snd] in E'. exfalso. clear -E'.
        assert (L : length t = length (t ++ [row])) by now rewrite <- E'.
        rewrite length_app in L. simpl in L. lia. }
      rewrite (DbUpsertFacts.filter_owned_none _ uid _ N) in E'.
      unfold insert_single in E'. destruct (write_fails f).
      { cbn [snd] in E'. exfalso. clear -E'.
        assert (L : length t = length (t ++ [row])) by now rewrite <- E'.
        rewrite length_app in L. simpl in L. lia. }
      cbn [c_id] in E'.
      destruct (existsb _ t).
      { cbn [snd] in E'. exfalso. clear -E'.
        assert (L : length t = length (t ++ [row])) by now rewrite <- E'.
        rewrite length_app in L. simpl in L. lia. }
      cbn [snd] in E'. apply app_inv_head in E'. inversion E' as [Er].
      subst row. rewrite E. intros c I. apply in_app_or in I. destruct I as [I|[<-|[]]].
      + now apply W.
      + cbn [c_messages in_turns]. repeat split; try reflexivity; discriminate.
    - rewrite E. intros c I. apply in_map_iff in I. destruct I as (d & <- & I).
      unfold rewrite_row. destruct (owned_by chatId uid d) eqn:O; [|now apply W].
      cbn [set_messages c_messages].
      destruct (filter_In_singleton _ _ _ F) as [Ie _].
      apply in_turns_app; try reflexivity; try discriminate. now apply W. }
  split; [exact W'|]. intros c I. apply in_turns_even. now apply W'.
Qed.

Lemma sample_table_whole_turns : whole_turns sample_table.
Proof.
  intros c [<-|[]]. cbn. repeat split; try reflexivity; discriminate.
Qed.

Lemma saveConversation_keeps_whole_turns_witness :
  whole_turns
    (snd (saveConversation no_faults sample_clock sample_table (js "u-1")
            (js "c-1") (js "any news?") (js "[sighs] none") sample_persona
            None None None)).
Proof.
  apply (saveConversation_keeps_whole_turns no_faults sample_clock sample_table
           (js "u-1") (js "c-1") (js "any news?") (js "[sighs] none")
           sample_persona None None None sample_table_whole_turns).
Defined.

End DbReadsFacts.

(* ================================================================== *)
(** * Facts about the chat endpoints that read and delete *)

Module ChatsFacts.
Import JsString JsStringFacts World Db DbFacts DbReads DbReadsFacts Chats.

Lemma sign_reference_kept_or_signed w url r :
  sign_reference w url = Ok r -> kept_or_signed w url r.
Proof.
  unfold sign_reference, kept_or_signed.
  destruct url as [[|c u]|]; try (intros H; inversion H; now left).
  destruct (is_s3_key (c :: u)) eqn:K; [|intros H; inversion H; now left].
  destruct (getSignedUrl w (c :: u) 3600) as [s|e] eqn:G; [|discriminate].
  cbn [bind]. intros H; inversion H. right. now exists (c :: u), s.
Qed.

(** A reference that is no S3 key is never handed to the signer. *)
Lemma sign_reference_not_key w url :
  (forall key, url = Some key -> is_s3_key key = false) ->
  sign_reference w url = Ok url.
Proof.
  unfold sign_reference. intros H. destruct url as [[|c u]|]; try reflexivity.
  now rewrite (H (c :: u) eq_refl).
Qed.

Lemma kept_refl w url : kept_or_signed w url url.
Proof. now left. Qed.

Lemma sign_message_spec w m :
  same_text m (sign_message w m)
  /\ kept_or_signed w (m_audioUrl m) (m_audioUrl (sign_message w m))
  /\ kept_or_signed w (m_videoUrl m) (m_videoUrl (sign_message w m))
  /\ (is_ok (sign_reference w (m_audioUrl m)) = false -> sign_message w m = m).
Proof.
  unfold sign_message, same_text.
  destruct (sign_reference w (m_audioUrl m)) as [a|e] eqn:A.
  - apply sign_reference_kept_or_signed in A.
    destruct (sign_reference w (m_videoUrl m)) as [v|e] eqn:V.
    + apply sign_reference_kept_or_signed in V.
      cbn. repeat split; try assumption. discriminate.
    + cbn. repeat split; try assumption; try apply kept_refl. discriminate.
  - repeat split; try apply kept_refl.
Qed.

(** X4: signing the media of a chat changes references only, and only S3
    keys.  [signMediaUrlsInMessages] returns as many messages as it is
    given, in their order; each keeps its role, content, timestamp and
    persona; each media reference is the stored one or, for an S3 key
    (no leading [http], no question mark), the URL the signer answered;
    a reference that is no S3 key is served as stored whatever the signer
    does; and a message whose audio key the signer refuses is served
    unchanged. *)
Theorem signMediaUrlsInMessages_signs_keys_only (w : env) (messages : list message) :
  length (signMediaUrlsInMessages w messages) = length messages
  /\ Forall2
       (fun m m' =>
          same_text m m'
          /\ kept_or_signed w (m_audioUrl m) (m_audioUrl m')
          /\ kept_or_signed w (m_videoUrl m) (m_videoUrl m')
          /\ ((forall key, m_audioUrl m = Some key -> is_s3_key key = false) ->
              m_audioUrl m' = m_audioUrl m)
          /\ ((forall key, m_videoUrl m = Some key -> is_s3_key key = false) ->
              m_videoUrl m' = m_videoUrl m)
          /\ (is_ok (sign_reference w (m_audioUrl m)) = false -> m' = m))
       messages (signMediaUrlsInMessages w messages).
Proof.
  unfold signMediaUrlsInMessages. split; [apply length_map|].
  induction messages as [|m ms IH]; cbn [map]; constructor; [|exact IH].
  destruct (sign_message_spec w m) as (T & A & V & U).
  repeat split; try apply T; try assumption.
  - intros NK. unfold sign_message.
    rewrite (sign_reference_not_key w _ NK).
    destruct (sign_reference w (m_videoUrl m)); reflexivity.
  - intros NK. unfold sign_message.
    destruct (sign_reference w (m_audioUrl m)); [|reflexivity].
    now rewrite (sign_reference_not_key w _ NK).
Qed.

(** A reference of the local fallback is served as stored. *)
Lemma signMediaUrlsInMessages_signs_keys_only_witness :
  map m_audioUrl (signMediaUrlsInMessages unsigned_world [local_audio_message])
  = [m_audioUrl local_audio_message].
Proof.
  destruct (signMediaUrlsInMessages_signs_keys_only unsigned_world
              [local_audio_message]) as [_ F].
  inversion F as [|m m' ms ms' (_ & _ & _ & Keep & _) Rest E1 E2]. subst.
  clear Rest. unfold signMediaUrlsInMessages. cbn [map].
  rewrite Keep; [reflexivity|].
  intros key E. inversion E. vm_compute. reflexivity.
Defined.

Lemma sign_message_content w m : m_content (sign_message w m) = m_content m.
Proof. apply (sign_message_spec w m). Qed.

Lemma sign_message_role w m : m_role (sign_message w m) = m_role m.
Proof. apply (sign_message_spec w m). Qed.

(** X5: a chat is served with its text cleaned.  [GET
    /api/chats/:uid/:chatId] answers 404 when the read finds no single row
    of the user with the chat id, and 200 otherwise; the messages it then
    serves are those of the row, in their order and with their roles, the
    content of each being what [cleanResponseText] makes of the stored
    content: free of bracket tags, without white space at either end or
    runs of it inside. *)
Theorem get_chat_serves_clean_text
    (w : env) f ps t (uid chatId : jsstring) :
  let r := get_chat_handler w f ps t uid chatId in
  (forall e, select_single f t chatId uid = Throw e ->
     status r = 404 /\ payload r = ErrorJson "Chat not found")
  /\ (forall c, select_single f t chatId uid = Ok c ->
        status r = 200
        /\ map m_role (served_messages r) = map m_role (c_messages c)
        /\ map m_content (served_messages r)
           = map (fun m => Clean.cleanResponseText (m_content m)) (c_messages c)
        /\ Forall (fun m => Clean.tag_free (m_content m)
                            /\ Clean.collapsed false (m_content m))
             (served_messages r)).
Proof.
  cbv zeta. unfold get_chat_handler, getChat. split.
  - intros e ->. split; reflexivity.
  - intros c ->. cbn [v_chat status payload served_messages c_messages].
    unfold signMediaUrlsInMessages. rewrite !map_map.
    assert (C : forall m, m_content (sign_message w (clean_message m))
                          = Clean.cleanResponseText (m_content m)).
    { intros m. now rewrite sign_message_content. }
    repeat split.
    + apply map_ext. intros m. now rewrite sign_message_role.
    + apply map_ext. exact C.
    + apply Forall_forall. intros m I. apply in_map_iff in I.
      destruct I as (m0 & <- & _). rewrite C.
      split; [apply CleanFacts.cleanResponseText_free
             | apply CleanFacts.cleanResponseText_collapsed].
Qed.

(** The chat of the sample table, served to its owner. *)
Lemma get_chat_serves_clean_text_witness :
  let r := get_chat_handler unsigned_world no_faults [sample_persona]
             sample_table (js "u-1") (js "c-1") in
  status r = 200
  /\ map m_content (served_messages r) = [js "hi"; js "hello"]
  /\ status (get_chat_handler unsigned_world no_faults [sample_persona]
               sample_table (js "u-2") (js "c-1")) = 404.
Proof.
  cbv zeta.
  destruct (get_chat_serves_clean_text unsigned_world no_faults [sample_persona]
              sample_table (js "u-1") (js "c-1")) as [_ Found].
  destruct (get_chat_serves_clean_text unsigned_world no_faults [sample_persona]
              sample_table (js "u-2") (js "c-1")) as [Missing _].
  destruct (Found (hd {| c_id := []; c_user_id := []; c_persona_id := None;
                         c_title := []; c_messages := []; c_updated_at := [] |}
                      sample_table) eq_refl) as (S & _ & C & _).
  split; [exact S|]. split; [rewrite C; reflexivity|].
  exact (proj1 (Missing (Error "no single row") eq_refl)).
Defined.

Lemma filter_others chatId uid k u (t : table) :
  (k <> chatId \/ u <> uid) ->
  filter (owned_by k u) (filter (fun c => negb (owned_by chatId uid c)) t)
  = filter (owned_by k u) t.
Proof.
  intros Other. induction t as [|c t IH]; cbn [filter]; [reflexivity|].
  destruct (owned_by chatId uid c) eqn:O; cbn [negb filter].
  - destruct (owned_by k u c) eqn:O'; [|exact IH].
    apply owned_by_true in O, O'. exfalso.
    destruct O as [O1 O2], O' as [O1' O2']. destruct Other as [N|N]; apply N; congruence.
  - destruct (owned_by k u c); now rewrite IH.
Qed.

Lemma filter_own_removed chatId uid (t : table) :
  filter (owned_by chatId uid) (filter (fun c => negb (owned_by chatId uid c)) t)
  = [].
Proof.
  induction t as [|c t IH]; cbn [filter]; [reflexivity|].
  destruct (owned_by chatId uid c) eqn:O; cbn [negb filter]; [exact IH|].
  now rewrite O.
Qed.

(** X6: deleting a chat removes the user's chat and nothing else.  When
    the database accepts the write, [DELETE /api/chats/:uid/:chatId]
    answers 200, whether or not a row matched; afterwards the chat is
    not found for this user ([getChat] answers null, the read endpoint
    404); every read for another chat id or another user answers what it
    answered before; no row is added; and deleting again changes
    nothing. *)
Theorem delete_chat_removes_own_chat_only
    (w : env) f ps t (uid chatId : jsstring) :
  write_fails f = false ->
  let r := fst (delete_chat_handler f t uid chatId) in
  let t' := snd (delete_chat_handler f t uid chatId) in
  status r = 200
  /\ getChat f ps t' uid chatId = None
  /\ status (get_chat_handler w f ps t' uid chatId) = 404
  /\ (forall u k, k <> chatId \/ u <> uid ->
        getChat f ps t' u k = getChat f ps t u k)
  /\ (forall c, In c t' -> In c t)
  /\ delete_chat_handler f t' uid chatId = (r, t').
Proof.
  intros Wf. cbv zeta. unfold delete_chat_handler. rewrite Wf. cbn [fst snd].
  assert (G : getChat f ps (filter (fun c => negb (owned_by chatId uid c)) t)
                uid chatId = None).
  { unfold getChat, select_single. rewrite filter_own_removed.
    destruct (select_fails f); reflexivity. }
  split; [reflexivity|]. split; [exact G|]. split.
  { unfold get_chat_handler. now rewrite G. }
  split.
  { intros u k Other. unfold getChat, select_single.
    now rewrite (filter_others chatId uid k u t Other). }
  split.
  { intros c I. apply filter_In in I. tauto. }
  f_equal. clear G. induction t as [|c t IH]; cbn [filter]; [reflexivity|].
  destruct (owned_by chatId uid c) eqn:O; cbn [negb filter]; [exact IH|].
  rewrite O. cbn [negb]. now rewrite IH.
Qed.

Lemma delete_chat_removes_own_chat_only_witness :
  snd (delete_chat_handler no_faults sample_table (js "u-1") (js "c-1")) = []
  /\ snd (delete_chat_handler no_faults sample_table (js "u-2") (js "c-1"))
     = sample_table
  /\ status (fst (delete_chat_handler no_faults sample_table (js "u-2") (js "c-1")))
     = 200.
Proof.
  destruct (delete_chat_removes_own_chat_only unsigned_world no_faults
              [sample_persona] sample_table (js "u-2") (js "c-1") eq_refl)
    as (S & _).
  split; [reflexivity|]. split; [reflexivity | exact S].
Defined.

End ChatsFacts.

(* ================================================================== *)
(** * Facts about the personas cache *)

Module PersonasFacts.
Import JsString World Db Personas.

(** X7: the personas are cached for a day and outlive an outage.  After
    a call at [t0] that fetched [data] from the database, a call less
    than 24 hours later (or with the clock set back) returns the same
    list without asking the database, whatever changed there; a call
    at any later time during which the database fails returns the same
    list still and keeps the cache; and a call 24 hours later or more
    that the database answers returns the new data and restarts the
    day. *)
Theorem getPersonas_caches_for_a_day
    (st : cache) (t0 : Z) (data : option (list persona)) (now : Z) :
  snd (getPersonas st t0 (Ok data)) = true ->
  let ps := fst (fst (getPersonas st t0 (Ok data))) in
  let st1 := snd (fst (getPersonas st t0 (Ok data))) in
  ps = or_empty data
  /\ ((now - t0 < 1000 * 60 * 60 * 24)%Z ->
      forall q, getPersonas st1 now q = (ps, st1, false))
  /\ (forall e, fst (getPersonas st1 now (Throw e)) = (ps, st1))
  /\ ((1000 * 60 * 60 * 24 <= now - t0)%Z ->
      forall data',
        getPersonas st1 now (Ok data')
        = (or_empty data',
           {| personasCache := Some (or_empty data');
              lastPersonasCacheTime := Some now |}, true)).
Proof.
  intros Asked ps st1.
  assert (E : getPersonas st t0 (Ok data)
              = (or_empty data,
                 {| personasCache := Some (or_empty data);
                    lastPersonasCacheTime := Some t0 |}, true)).
  { revert Asked. unfold getPersonas.
    destruct (personasCache st) as [cached|]; [|reflexivity].
    destruct (age t0 st <? PERSONAS_CACHE_TTL)%Z; [discriminate | reflexivity]. }
  unfold ps, st1. rewrite E. cbn [fst snd]. clear.
  change PERSONAS_CACHE_TTL with (1000 * 60 * 60 * 24)%Z in *.
  split; [reflexivity|]. unfold getPersonas, age.
  cbn [personasCache lastPersonasCacheTime].
  change PERSONAS_CACHE_TTL with (1000 * 60 * 60 * 24)%Z.
  split; [|split].
  - intros Fresh q. apply Z.ltb_lt in Fresh. now rewrite Fresh.
  - intros e. now destruct (now - t0 <? _)%Z.
  - intros Stale data'. apply Z.ltb_ge in Stale. now rewrite Stale.
Qed.

(** A first call at noon fetches one persona; an hour later the database
    is down and the persona is served all the same. *)
Lemma getPersonas_caches_for_a_day_witness :
  getPersonas
    (snd (fst (getPersonas empty_cache 43200000 (Ok (Some [sample_persona])))))
    46800000 (Throw (Error "fetch failed"))
  = ([sample_persona],
     {| personasCache := Some [sample_persona];
        lastPersonasCacheTime := Some 43200000%Z |}, false).
Proof.
  destruct (getPersonas_caches_for_a_day empty_cache 43200000
              (Some [sample_persona]) 46800000 eq_refl) as (_ & Fresh & _).
  apply Fresh. reflexivity.
Defined.

Lemma sign_persona_spec w url_pathname p :
  p_id (sign_persona w url_pathname p) = p_id p
  /\ p_name (sign_persona w url_pathname p) = p_name p
  /\ p_voice_name (sign_persona w url_pathname p) = p_voice_name p
  /\ (p_image_url (sign_persona w url_pathname p) = p_image_url p
      /\ (p_image_url p = None \/ p_image_url p = Some [])
      \/ exists url,
           p_image_url p = Some url /\ url <> []
           /\ match url_pathname url with
              | Ok pathname =>
                  match getSignedUrl w (skipn 1 pathname) 86400 with
                  | Ok signedUrl =>
                      p_image_url (sign_persona w url_pathname p) = Some signedUrl
                  | Throw _ => p_image_url (sign_persona w url_pathname p) = None
                  end
              | Throw _ => p_image_url (sign_persona w url_pathname p) = None
              end).
Proof.
  unfold sign_persona. destruct (p_image_url p) as [[|c u]|] eqn:I;
    rewrite ?I; try (repeat split; left; split; auto).
  assert (K : forall x, p_id (with_image_url x p) = p_id p
                        /\ p_name (with_image_url x p) = p_name p
                        /\ p_voice_name (with_image_url x p) = p_voice_name p)
    by (intros; repeat split).
  destruct (url_pathname (c :: u)) as [pathname|e] eqn:U; cbn [bind].
  - destruct (getSignedUrl w (skipn 1 pathname) 86400) as [s|e] eqn:G;
      (split; [apply K|]); (split; [apply K|]); (split; [apply K|]);
      right; exists (c :: u); (split; [reflexivity|]); (split; [discriminate|]);
      rewrite U, G; reflexivity.
  - (split; [apply K|]); (split; [apply K|]); (split; [apply K|]).
    right; exists (c :: u). split; [reflexivity|]. split; [discriminate|].
    now rewrite U.
Qed.

(** X8: the personas endpoint serves every persona, with or without its
    image.  [GET /api/personas] answers 200 with the personas that
    [getPersonas] returns, in their order and with their ids, names and
    voices; a persona without image is served as it is; the image of
    another is the URL that the signer answers for the path of the stored
    URL without its leading slash, valid for 24 hours, and null when the
    stored URL does not parse or the signer fails, which leaves the other
    personas as they are. *)
Theorem personas_handler_serves_every_persona
    (w : env) (url_pathname : jsstring -> result jsstring)
    (st : cache) (now : Z) (query : result (option (list persona))) :
  let '(status, served, st') := personas_handler w url_pathname st now query in
  let personas := fst (fst (getPersonas st now query)) in
  status = 200
  /\ st' = snd (fst (getPersonas st now query))
  /\ map p_id served = map p_id personas
  /\ map p_name served = map p_name personas
  /\ map p_voice_name served = map p_voice_name personas
  /\ Forall2
       (fun p p' =>
          match p_image_url p with
          | Some (c :: u) =>
              match url_pathname (c :: u) with
              | Ok pathname =>
                  match getSignedUrl w (skipn 1 pathname) 86400 with
                  | Ok signedUrl => p_image_url p' = Some signedUrl
                  | Throw _ => p_image_url p' = None
                  end
              | Throw _ => p_image_url p' = None
              end
          | _ => p' = p
          end)
       personas served.
Proof.
  unfold personas_handler.
  destruct (getPersonas st now query) as [[personas st'] asked]. cbn [fst snd].
  split; [reflexivity|]. split; [reflexivity|].
  rewrite !map_map.
  split; [apply map_ext; intros p; apply sign_persona_spec|].
  split; [apply map_ext; intros p; apply sign_persona_spec|].
  split; [apply map_ext; intros p; apply sign_persona_spec|].
  induction personas as [|p ps IH]; cbn [map]; constructor; [|exact IH].
  unfold sign_persona. destruct (p_image_url p) as [[|c u]|]; try reflexivity.
  destruct (url_pathname (c :: u)) as [pathname|e]; cbn [bind]; [|reflexivity].
  destruct (getSignedUrl w (skipn 1 pathname) 86400); reflexivity.
Qed.

End PersonasFacts.

(* ================================================================== *)
(** * Facts about the email expression *)

Module RegexFacts.
Import JsString Regex.

Lemma test_nil s : test [] s = true <-> s = [].
Proof. destruct s; simpl; split; congruence. Qed.

Lemma test_one a rest s :
  test (One a :: rest) s = true
  <-> exists c t, s = c :: t /\ holds a c = true /\ test rest t = true.
Proof.
  destruct s as [|c t]; cbn [test].
  - split; [discriminate | intros (c & t & E & _); discriminate].
  - rewrite andb_true_iff. split.
    + intros [H1 H2]. now exists c, t.
    + intros (c' & t' & E & H1 & H2). inversion E; subst. now split.
Qed.

Lemma test_plus_cons a rest c t :
  test (Plus a :: rest) (c :: t)
  = holds a c && (test (Plus a :: rest) t || test rest t).
Proof. reflexivity. Qed.

Lemma test_plus a rest s :
  test (Plus a :: rest) s = true
  <-> exists x y, s = x ++ y /\ x <> [] /\ forallb (holds a) x = true
                  /\ test rest y = true.
Proof.
  induction s as [|c t IH].
  - split; [discriminate|].
    intros (x & y & E & N & _). destruct x; [congruence | discriminate].
  - rewrite test_plus_cons, andb_true_iff, orb_true_iff. split.
    + intros [Hc [Hp|Hr]].
      * apply IH in Hp. destruct Hp as (x & y & E & N & F & R).
        exists (c :: x), y. subst t. cbn [forallb app]. rewrite Hc, F.
        repeat split; auto. discriminate.
      * exists [c], t. cbn [forallb app]. rewrite Hc.
        repeat split; auto. discriminate.
    + intros (x & y & E & N & F & R). destruct x as [|c' x]; [congruence|].
      cbn [app forallb] in *. inversion E; subst c' t. clear E.
      apply andb_true_iff in F. destruct F as [Hc F]. split; [exact Hc|].
      destruct x as [|d x]; [now right|]. left. apply IH.
      exists (d :: x), y. repeat split; auto. discriminate.
Qed.

Lemma forallb_plain x :
  x <> [] -> forallb (holds NoSpaceNoAt) x = true -> plain x.
Proof.
  intros N F. split; [exact N|]. apply Forall_forall. intros c I.
  rewrite forallb_forall in F. specialize (F c I). cbn [holds] in F.
  apply andb_true_iff in F. destruct F as [F1 F2].
  apply negb_true_iff in F1, F2. split; [exact F1|].
  now apply N.eqb_neq.
Qed.

Lemma plain_forallb x : plain x -> forallb (holds NoSpaceNoAt) x = true.
Proof.
  intros [_ F]. apply forallb_forall. intros c I.
  rewrite Forall_forall in F. destruct (F c I) as [F1 F2]. cbn [holds].
  rewrite F1. apply N.eqb_neq in F2. now rewrite F2.
Qed.

Lemma plain_no_at x : plain x -> count_occ N.eq_dec x AT = 0.
Proof.
  intros [_ F]. apply count_occ_not_In. intros I.
  rewrite Forall_forall in F. now destruct (F _ I).
Qed.

Lemma plain_no_ws x : plain x -> Forall (fun c => is_ws c = false) x.
Proof.
  intros [_ F]. eapply Forall_impl; [|exact F]. now intros c [].
Qed.

(** X9: what the email expression accepts.  [/^[^\s@]+@[^\s@]+\.[^\s@]+$/]
    matches a string exactly when it is a local part, an at sign, a
    label, a dot and a rest, the three parts being non-empty and free of
    white space and at signs; so that an accepted string holds exactly
    one at sign, no white space, and a dot after the at sign that is
    neither next to it nor last. *)
Theorem emailRegex_accepts (s : jsstring) :
  (test emailRegex s = true
   <-> exists local label rest,
         s = local ++ AT :: label ++ DOT :: rest
         /\ plain local /\ plain label /\ plain rest)
  /\ (test emailRegex s = true ->
      count_occ N.eq_dec s AT = 1
      /\ Forall (fun c => is_ws c = false) s).
Proof.
  assert (Iff : test emailRegex s = true
                <-> exists local label rest,
                      s = local ++ AT :: label ++ DOT :: rest
                      /\ plain local /\ plain label /\ plain rest).
  { unfold emailRegex. rewrite test_plus. split.
    - intros (local & y & E & N & F & R).
      apply test_one in R. destruct R as (c & y1 & E1 & Hc & R).
      cbn [holds] in Hc. apply N.eqb_eq in Hc. subst c y.
      apply test_plus in R. destruct R as (label & y2 & E2 & N2 & F2 & R).
      apply test_one in R. destruct R as (c & y3 & E3 & Hc & R).
      cbn [holds] in Hc. apply N.eqb_eq in Hc. subst c y2 y1.
      apply test_plus in R. destruct R as (rest & y4 & E4 & N4 & F4 & R).
      apply test_nil in R. subst y4 y3. rewrite app_nil_r in *.
      exists local, label, rest. subst s.
      repeat split; auto; try (apply forallb_plain; assumption);
        apply forallb_plain; assumption.
    - intros (local & label & rest & E & Pl & Pb & Pr).
      exists local, (AT :: label ++ DOT :: rest).
      split; [exact E|]. split; [apply Pl|]. split; [now apply plain_forallb|].
      apply test_one. exists AT, (label ++ DOT :: rest).
      split; [reflexivity|]. split; [apply N.eqb_refl|].
      apply test_plus. exists label, (DOT :: rest).
      split; [reflexivity|]. split; [apply Pb|]. split; [now apply plain_forallb|].
      apply test_one. exists DOT, rest.
      split; [reflexivity|]. split; [apply N.eqb_refl|].
      apply test_plus. exists rest, []. rewrite app_nil_r.
      split; [reflexivity|]. split; [apply Pr|]. split; [now apply plain_forallb|].
      reflexivity. }
  split; [exact Iff|].
  intros T. apply Iff in T. destruct T as (local & label & rest & -> & Pl & Pb & Pr).
  split.
  - rewrite count_occ_app. cbn [count_occ].
    destruct (N.eq_dec AT AT) as [_|N]; [|congruence].
    rewrite count_occ_app. cbn [count_occ].
    destruct (N.eq_dec DOT AT) as [E|_]; [discriminate E|].
    rewrite !plain_no_at by assumption. reflexivity.
  - apply Forall_app. split; [now apply plain_no_ws|].
    constructor; [reflexivity|]. apply Forall_app. split; [now apply plain_no_ws|].
    constructor; [reflexivity | now apply plain_no_ws].
Qed.

Lemma emailRegex_accepts_witness :
  count_occ N.eq_dec (js "ada@example.org") Regex.AT = 1
  /\ test emailRegex (js "ada@example") = false
  /\ test emailRegex (js "ada lovelace@example.org") = false
  /\ test emailRegex (js "ada@example.") = false
  /\ test emailRegex (js "ada@.org") = false.
Proof.
  destruct (emailRegex_accepts (js "ada@example.org")) as [_ One].
  split; [apply One; reflexivity|]. repeat split; reflexivity.
Defined.

End RegexFacts.

(* ================================================================== *)
(** * Facts about the profiles *)

Module ProfilesFacts.
Import JsString JsStringFacts Json Db DbReads Regex Profiles.

Lemma of_user_true uid p : of_user uid p = true <-> user_id p = uid.
Proof. unfold of_user. apply eqb_eq. Qed.

Lemma filter_singleton_In {A} (q : A -> bool) l x :
  filter q l = [x] -> In x l /\ q x = true.
Proof. intros H. apply filter_In. rewrite H. now left. Qed.

Lemma filter_map_same (q : profile -> bool) (g : profile -> profile) t :
  (forall p, q (g p) = q p) ->
  filter q (map g t) = map g (filter q t).
Proof.
  intros H. induction t as [|p t IH]; simpl; [reflexivity|].
  rewrite H. destruct (q p); simpl; now rewrite IH.
Qed.

Lemma saveProfile_ok f now t uid displayName email personaId p t' :
  saveProfile f now t uid displayName email personaId = (Ok p, t') ->
  select_fails f = false /\ write_fails f = false
  /\ saved_profile now t uid displayName email personaId p t'.
Proof.
  unfold saveProfile, select_profile.
  destruct (select_fails f); [discriminate|].
  destruct (filter (of_user uid) t) as [|old [|old' l]] eqn:F; [| |discriminate].
  - destruct (write_fails f); [discriminate|].
    intros H; inversion H; subst. repeat split. now apply saved_inserted.
  - destruct (write_fails f); [discriminate|].
    rewrite filter_map_same.
    2:{ intros q. unfold of_user. destruct (eqb (user_id q) uid) eqn:E;
          [cbn [user_id]; apply eqb_refl | exact E]. }
    rewrite F. cbn [map].
    destruct (filter_singleton_In _ _ _ F) as [_ O]. rewrite O.
    intros H; inversion H; subst. repeat split. now apply saved_updated.
Qed.

(** The table after [saveProfile], whatever it answered. *)
Lemma saveProfile_table f now t uid displayName email personaId :
  let t' := snd (saveProfile f now t uid displayName email personaId) in
  t' = t
  \/ (exists row, t' = t ++ [row] /\ Profiles.email row = Some email)
  \/ t' = map (fun p => if of_user uid p then
                          {| user_id := uid;
                             display_name := column displayName (display_name p);
                             email := Some email;
                             persona_id := column personaId (persona_id p);
                             is_saved_to_supabase := true; updated_at := now |}
                        else p) t.
Proof.
  unfold saveProfile, select_profile.
  destruct (select_fails f); [now left|].
  destruct (filter (of_user uid) t) as [|old [|old' l]]; [| |now left].
  - destruct (write_fails f); [now left|]. right; left. eexists.
    split; reflexivity.
  - destruct (write_fails f); [now left|]. right; right.
    match goal with |- context [filter ?q ?l] => destruct (filter q l) as [|? [|? ?]] end;
      reflexivity.
Qed.

(** X10: the save endpoint stores checked emails only.  [POST
    /api/profile/save] answers 200, 400 or 500; a request it answers
    with 400 leaves the table as it is; a request it answers with 200
    had a user id, an email that is a string and, trimmed, matches the
    email expression, and a persona id that, if given, is the id of a
    known persona, and the row saved holds the trimmed email; so that a
    table of which every email is trimmed and matches the expression
    remains one after any request. *)
Theorem save_profile_validates
    (joined : profile -> option persona_ref) f now personas t
    (uid displayName : field) (email : value) (personaId : field) :
  let r := fst (save_profile_handler joined f now personas t uid displayName
                  email personaId) in
  let t' := snd (save_profile_handler joined f now personas t uid displayName
                   email personaId) in
  (status r = 200 \/ status r = 400 \/ status r = 500)
  /\ (status r = 400 -> t' = t)
  /\ (status r = 200 ->
      exists u text saved,
        uid = Str u /\ u <> [] /\ email = JString text
        /\ test emailRegex (trim text) = true
        /\ (forall i, personaId = Str i -> i <> [] ->
              exists p, In p personas /\ p_id p = i)
        /\ saveProfile f now t u displayName (trim text) personaId = (Ok saved, t')
        /\ Profiles.email saved = Some (trim text)
        /\ user_id saved = u /\ In saved t')
  /\ (emails_checked t -> emails_checked t').
Proof.
  cbv zeta. unfold save_profile_handler.
  destruct uid as [| |[|u0 u]];
    try (cbn [fst snd status]; repeat split; auto; discriminate).
  destruct email as [| |b|n|text|items|props];
    try (cbn [truthy]; cbn [fst snd status]; repeat split; auto; discriminate);
    try (destruct (truthy _); cbn [fst snd status]; repeat split; auto;
         discriminate).
  destruct (Nat.eqb (length text) 0 || Nat.eqb (length (trim text)) 0);
    [cbn [fst snd status]; repeat split; auto; discriminate|].
  destruct (test emailRegex (trim text)) eqn:T; cbn [negb];
    [|cbn [fst snd status]; repeat split; auto; discriminate].
  match goal with
  | |- context [if ?g then _ else _] => destruct g eqn:G
  end; [cbn [fst snd status]; repeat split; auto; discriminate|].
  assert (Known : forall i, personaId = Str i -> i <> [] ->
                    exists p, In p personas /\ p_id p = i).
  { intros i -> Ni. destruct i as [|i0 i]; [congruence|]. cbn [given andb] in G.
    destruct (find (fun p => eqb (p_id p) (i0 :: i)) personas) as [p|] eqn:F;
      [|discriminate].
    apply find_some in F. exists p. split; [apply F|]. now apply eqb_eq. }
  assert (Inv : emails_checked t ->
                emails_checked (snd (saveProfile f now t (u0 :: u) displayName
                                       (trim text) personaId))).
  { intros C.
    destruct (saveProfile_table f now t (u0 :: u) displayName (trim text) personaId)
      as [E|[(row & E & Er)|E]]; rewrite E; clear E.
    - exact C.
    - intros p I. apply in_app_or in I. destruct I as [I|[<-|[]]]; [now apply C|].
      exists (trim text). split; [exact Er|]. split; [exact T|].
      apply CleanFacts.trim_idem.
    - intros p I. apply in_map_iff in I. destruct I as (q & <- & I).
      destruct (of_user (u0 :: u) q); [|now apply C].
      exists (trim text). split; [reflexivity|]. split; [exact T|].
      apply CleanFacts.trim_idem. }
  destruct (saveProfile f now t (u0 :: u) displayName (trim text) personaId)
    as [[saved|e] t'] eqn:S; cbn [fst snd status] in *.
  - split; [auto|]. split; [discriminate|]. split; [|exact Inv].
    intros _. exists (u0 :: u), text, saved.
    destruct (saveProfile_ok _ _ _ _ _ _ _ _ _ S) as (_ & _ & Sv).
    repeat split; auto; try discriminate.
    + destruct Sv; reflexivity.
    + destruct Sv; reflexivity.
    + destruct Sv as [F|old F].
      * apply in_or_app. right. now left.
      * destruct (filter_singleton_In _ _ _ F) as [I O].
        apply in_map_iff. exists old. now rewrite O.
  - split; [auto|]. split; [discriminate|]. split; [discriminate | exact Inv].
Qed.

Lemma save_profile_validates_witness :
  snd (save_profile_handler no_join no_faults (js "2025-01-03T09:00:00.000Z")
         [sample_persona] [sample_profile] (Str (js "u-2")) Absent
         (JString (js "grace@example")) Absent)
  = [sample_profile].
Proof.
  destruct (save_profile_validates no_join no_faults (js "2025-01-03T09:00:00.000Z")
              [sample_persona] [sample_profile] (Str (js "u-2")) Absent
              (JString (js "grace@example")) Absent) as (_ & Rejected & _).
  apply Rejected. reflexivity.
Defined.

Lemma map_update_ids uid (g : profile -> profile) t :
  (forall p, user_id (g p) = uid) ->
  map user_id (map (fun p => if of_user uid p then g p else p) t)
  = map user_id t.
Proof.
  intros H. rewrite map_map. apply map_ext. intros p.
  destruct (of_user uid p) eqn:O; [|reflexivity].
  apply of_user_true in O. now rewrite H, O.
Qed.

Lemma filter_update_own uid (g : profile -> profile) t :
  (forall p, user_id (g p) = uid) ->
  filter (of_user uid) (map (fun p => if of_user uid p then g p else p) t)
  = map g (filter (of_user uid) t).
Proof.
  intros H. induction t as [|p t IH]; cbn [map filter]; [reflexivity|].
  destruct (of_user uid p) eqn:O.
  - replace (of_user uid (g p)) with true
      by (symmetry; apply of_user_true; apply H).
    cbn [map]. now rewrite IH.
  - now rewrite O.
Qed.

Lemma filter_update_other uid other (g : profile -> profile) t :
  other <> uid -> (forall p, user_id (g p) = uid) ->
  filter (of_user other) (map (fun p => if of_user uid p then g p else p) t)
  = filter (of_user other) t.
Proof.
  intros N H. induction t as [|p t IH]; cbn [map filter]; [reflexivity|].
  destruct (of_user uid p) eqn:O.
  - replace (of_user other (g p)) with false
      by (symmetry; unfold of_user; apply eqb_neq; rewrite H; congruence).
    replace (of_user other p) with false; [exact IH|].
    symmetry. apply of_user_true in O. unfold of_user. apply eqb_neq. congruence.
  - destruct (of_user other p); now rewrite IH.
Qed.

Lemma filter_of_user_none uid t :
  filter (of_user uid) t = [] -> ~ In uid (map user_id t).
Proof.
  intros F I. apply in_map_iff in I. destruct I as (p & E & I).
  assert (K : In p (filter (of_user uid) t)).
  { apply filter_In. split; [exact I|]. now apply of_user_true. }
  now rewrite F in K.
Qed.

(** A request answered with 200 had a user id and was saved. *)
Lemma save_profile_saved
    (joined : profile -> option persona_ref) f now personas t
    (uid : jsstring) (displayName : field) (text : jsstring) (personaId : field) :
  status (fst (save_profile_handler joined f now personas t (Str uid)
                 displayName (JString text) personaId)) = 200 ->
  uid <> []
  /\ exists saved,
       saveProfile f now t uid displayName (trim text) personaId
       = (Ok saved,
          snd (save_profile_handler joined f now personas t (Str uid)
                 displayName (JString text) personaId)).
Proof.
  unfold save_profile_handler.
  destruct uid as [|u0 u]; [discriminate|].
  destruct (Nat.eqb (length text) 0 || Nat.eqb (length (trim text)) 0);
    [discriminate|].
  destruct (negb (test emailRegex (trim text))); [discriminate|].
  match goal with
  | |- context [if ?g then _ else _] => destruct g
  end; [discriminate|].
  destruct (saveProfile f now t (u0 :: u) displayName (trim text) personaId)
    as [[saved|e] t'];
    cbn [fst snd status]; [|discriminate].
  intros _. split; [discriminate|]. now exists saved.
Qed.

(** X11: a saved profile is the one served, and there is one per user.
    In a table with unique user ids, when [POST /api/profile/save]
    answers 200 the user ids are unique afterwards; [GET
    /api/profile/:uid] then answers 200 with the profile that the save
    answered, whose email is the trimmed email of the request and whose
    display name and persona id are those of the request where it gave
    them; and what the endpoint answers for any other user is what it
    answered before. *)
Theorem profile_saved_then_served
    (joined : profile -> option persona_ref) f now personas t
    (uid : jsstring) (displayName : field) (text : jsstring) (personaId : field) :
  unique_users t ->
  let r := fst (save_profile_handler joined f now personas t (Str uid)
                  displayName (JString text) personaId) in
  let t' := snd (save_profile_handler joined f now personas t (Str uid)
                   displayName (JString text) personaId) in
  status r = 200 ->
  unique_users t'
  /\ (exists p,
        payload r = SavedJson (to_json joined p)
        /\ get_profile_handler joined f t' uid
           = {| status := 200; payload := ProfileJson (to_json joined p) |}
        /\ Profiles.email p = Some (trim text)
        /\ (forall s, displayName = Str s -> display_name p = Some s)
        /\ (forall s, personaId = Str s -> persona_id p = Some s))
  /\ (forall other, other <> uid ->
        get_profile_handler joined f t' other
        = get_profile_handler joined f t other).
Proof.
  intros U. cbv zeta.
  intros S200.
  destruct (save_profile_saved joined f now personas t uid displayName text
              personaId S200) as (Nu & saved & Sv).
  assert (P : payload (fst (save_profile_handler joined f now personas t (Str uid)
                              displayName (JString text) personaId))
              = SavedJson (to_json joined saved)).
  { revert S200. unfold save_profile_handler.
    destruct uid as [|u0 u]; [congruence|].
    destruct (Nat.eqb (length text) 0 || Nat.eqb (length (trim text)) 0);
      [discriminate|].
    destruct (negb (test emailRegex (trim text))); [discriminate|].
    match goal with
    | |- context [if ?g then _ else _] => destruct g
    end; [discriminate|].
    now rewrite Sv. }
  rewrite P. clear P S200.
  destruct (saveProfile_ok _ _ _ _ _ _ _ _ _ Sv) as (Sf & Wf & Saved).
  generalize dependent (snd (save_profile_handler joined f now personas t (Str uid)
                               displayName (JString text) personaId)).
  intros t' Sv Saved.
  assert (G : forall p, select_profile f t' uid = Ok (Some p) ->
              get_profile_handler joined f t' uid
              = {| status := 200; payload := ProfileJson (to_json joined p) |}).
  { intros p Sp. unfold get_profile_handler, getProfile. rewrite Sp.
    destruct uid; [congruence | reflexivity]. }
  destruct Saved as [F row|old F row].
  - split.
    { unfold unique_users in *. rewrite map_app. cbn [map user_id].
      apply NoDup_app; [exact U | repeat constructor; auto | ].
      intros x Ix [<-|[]]. now apply (filter_of_user_none _ _ F). }
    split.
    { exists row. split; [reflexivity|]. split.
      - apply G. unfold select_profile. rewrite Sf, filter_app, F.
        cbn [filter app]. unfold of_user at 1. cbn [user_id].
        now rewrite eqb_refl.
      - split; [reflexivity|]. split; intros s ->; reflexivity. }
    intros other No. unfold get_profile_handler, getProfile, select_profile.
    rewrite filter_app.
    assert (Z : filter (of_user other) [row] = []).
    { cbn [filter]. unfold of_user. cbn [row user_id].
      replace (eqb uid other) with false; [reflexivity|].
      symmetry. apply eqb_neq. congruence. }
    now rewrite Z, app_nil_r.
  - match goal with
    | |- context [map (fun p => if of_user uid p then @?g p else p) t] =>
        pose proof (map_update_ids uid g t (fun p => eq_refl)) as Ids;
        pose proof (filter_update_own uid g t (fun p => eq_refl)) as Own;
        pose proof (fun other No =>
                      filter_update_other uid other g t No (fun p => eq_refl))
          as Others
    end.
    cbv beta in Ids, Own, Others.
    split; [unfold unique_users; now rewrite Ids|].
    split.
    { exists row. split; [reflexivity|]. split.
      - apply G. unfold select_profile. rewrite Sf, Own, F. reflexivity.
      - split; [reflexivity|]. split; intros s ->; reflexivity. }
    intros other No. unfold get_profile_handler, getProfile, select_profile.
    now rewrite (Others other No).
Qed.

Lemma sample_profiles_unique : unique_users [sample_profile].
Proof. repeat constructor. simpl. tauto. Qed.

(** A second user saves a profile; the email is stored trimmed. *)
Lemma profile_saved_then_served_witness :
  exists p,
    get_profile_handler no_join no_faults
      (snd (save_profile_handler no_join no_faults (js "2025-01-03T09:00:00.000Z")
              [sample_persona] [sample_profile] (Str (js "u-2")) (Str (js "Grace"))
              (JString (js " grace@example.org ")) Null))
      (js "u-2")
    = {| status := 200; payload := ProfileJson (to_json no_join p) |}
    /\ Profiles.email p = Some (js "grace@example.org")
    /\ display_name p = Some (js "Grace").
Proof.
  destruct (profile_saved_then_served no_join no_faults
              (js "2025-01-03T09:00:00.000Z") [sample_persona] [sample_profile]
              (js "u-2") (Str (js "Grace")) (js " grace@example.org ") Null
              sample_profiles_unique eq_refl)
    as (_ & (p & _ & G & E & D & _) & _).
  exists p. split; [exact G|]. split; [exact E|]. now apply D.
Defined.

Lemma filter_not_user uid other (t : profiles) :
  other <> uid ->
  filter (of_user other) (filter (fun p => negb (of_user uid p)) t)
  = filter (of_user other) t.
Proof.
  intros N. induction t as [|p t IH]; cbn [filter]; [reflexivity|].
  destruct (of_user uid p) eqn:O; cbn [negb filter].
  - replace (of_user other p) with false; [exact IH|].
    symmetry. apply of_user_true in O. unfold of_user. apply eqb_neq. congruence.
  - destruct (of_user other p); now rewrite IH.
Qed.

Lemma filter_user_removed uid (t : profiles) :
  filter (of_user uid) (filter (fun p => negb (of_user uid p)) t) = [].
Proof.
  induction t as [|p t IH]; cbn [filter]; [reflexivity|].
  destruct (of_user uid p) eqn:O; cbn [negb filter]; [exact IH|]. now rewrite O.
Qed.

(** X12: a deleted profile is gone, and only that one.  For a user id
    that is not empty and a database that answers, [DELETE
    /api/profile/:uid] answers 404 and changes nothing when the user has
    no profile; when it answers 200 the profile endpoint answers 404 for
    this user afterwards; and in both cases what the profile endpoint
    answers for any other user is what it answered before. *)
Theorem profile_deleted_then_missing
    (joined : profile -> option persona_ref) f t (uid : jsstring) :
  uid <> [] -> select_fails f = false -> write_fails f = false ->
  let r := fst (delete_profile_handler f t uid) in
  let t' := snd (delete_profile_handler f t uid) in
  (filter (of_user uid) t = [] -> status r = 404 /\ t' = t)
  /\ (status r = 200 -> status (get_profile_handler joined f t' uid) = 404)
  /\ (forall other, other <> uid ->
        get_profile_handler joined f t' other
        = get_profile_handler joined f t other).
Proof.
  intros Nu Sf Wf. cbv zeta.
  unfold delete_profile_handler, deleteProfile. rewrite Wf.
  destruct uid as [|u0 u]; [congruence|]. clear Nu.
  destruct (filter (of_user (u0 :: u)) t) as [|p [|p' l]] eqn:F;
    cbn [fst snd status].
  - split; [intros _; now split|]. split; [discriminate|]. reflexivity.
  - split; [discriminate|]. split.
    + intros _. unfold get_profile_handler, getProfile, select_profile.
      now rewrite Sf, filter_user_removed.
    + intros other No. unfold get_profile_handler, getProfile, select_profile.
      now rewrite filter_not_user.
  - split; [discriminate|]. split; [discriminate|]. reflexivity.
Qed.

Lemma profile_deleted_then_missing_witness :
  status (get_profile_handler no_join no_faults
            (snd (delete_profile_handler no_faults [sample_profile] (js "u-1")))
            (js "u-1")) = 404.
Proof.
  assert (Nu : js "u-1" <> []) by (intros K; vm_compute in K; discriminate K).
  destruct (profile_deleted_then_missing no_join no_faults [sample_profile]
              (js "u-1") Nu eq_refl eq_refl) as (_ & Gone & _).
  apply Gone. reflexivity.
Defined.

End ProfilesFacts.

(* ================================================================== *)
(** * Facts about splitting and searching strings *)

Module JsStringSplitFacts.
Import JsString JsStringFacts.

Lemma split_not_nil sep s : split sep s <> [].
Proof.
  destruct s as [|c t]; cbn [split]; [discriminate|].
  destruct (N.eqb c sep); [discriminate|].
  destruct (split sep t); discriminate.
Qed.

Lemma split_length sep s :
  length (split sep s) = S (count_occ N.eq_dec s sep).
Proof.
  induction s as [|c t IH]; cbn [split count_occ]; [reflexivity|].
  destruct (N.eqb_spec c sep) as [E|N].
  - destruct (N.eq_dec c sep); [|congruence]. cbn [length]. now rewrite IH.
  - destruct (N.eq_dec c sep); [congruence|].
    destruct (split sep t) as [|w ws] eqn:S; [now apply split_not_nil in S|].
    cbn [length] in *. exact IH.
Qed.

Lemma split_no_sep sep s : ~ In sep s -> split sep s = [s].
Proof.
  induction s as [|c t IH]; cbn [split]; [reflexivity|].
  intros N. destruct (N.eqb_spec c sep) as [E|_]; [exfalso; apply N; now left|].
  rewrite IH by (intros I; apply N; now right). reflexivity.
Qed.

Lemma split_app_sep sep a b :
  ~ In sep a -> split sep (a ++ sep :: b) = a :: split sep b.
Proof.
  induction a as [|c t IH]; cbn [split app]; intros N.
  - now rewrite N.eqb_refl.
  - destruct (N.eqb_spec c sep) as [E|_]; [exfalso; apply N; now left|].
    rewrite IH by (intros I; apply N; now right). reflexivity.
Qed.

(** Appending units that are no separator extends the last piece. *)
Lemma split_app_last sep s t :
  ~ In sep t ->
  exists init l, split sep s = init ++ [l]
                 /\ split sep (s ++ t) = init ++ [l ++ t].
Proof.
  intros N. induction s as [|c s IH]; cbn [split app].
  - exists [], []. now rewrite split_no_sep.
  - destruct IH as (init & l & E1 & E2). destruct (N.eqb c sep).
    + exists ([] :: init), l. now rewrite E1, E2.
    + rewrite E1, E2. destruct init as [|w ws]; cbn [app].
      * now exists [], (c :: l).
      * now exists ((c :: w) :: ws), l.
Qed.

Lemma startsWith_app s p : startsWith (p ++ s) p = true.
Proof.
  induction p as [|c p IH]; cbn [startsWith app]; [now destruct s|].
  now rewrite N.eqb_refl, IH.
Qed.

Lemma endsWith_app s p : endsWith (s ++ p) p = true.
Proof. unfold endsWith. rewrite rev_app_distr. apply startsWith_app. Qed.

Lemma find_from_absent i s c :
  ~ In c s -> find_from i s [c] = (-1)%Z.
Proof.
  revert i. induction s as [|d t IH]; intros i N; cbn [find_from startsWith];
    [reflexivity|].
  destruct (N.eqb_spec c d) as [E|_]; [exfalso; apply N; now left|].
  cbn [andb]. apply IH. intros I. apply N. now right.
Qed.

Lemma find_from_present i s c :
  (0 <= i)%Z -> In c s -> find_from i s [c] <> (-1)%Z.
Proof.
  revert i. induction s as [|d t IH]; intros i Hi I; [destruct I|].
  cbn [find_from startsWith]. destruct (N.eqb_spec c d) as [E|N].
  - cbn [andb]. destruct t; cbn [startsWith]; lia.
  - cbn [andb]. destruct I as [I|I]; [congruence|].
    apply IH; [lia | exact I].
Qed.

End JsStringSplitFacts.

(* ================================================================== *)
(** * Facts about the keys of the object store *)

Module S3Facts.
Import JsString JsStringFacts JsStringSplitFacts World MediaKeys S3.

Lemma SLASH_is : js "/" = [SLASH].
Proof. reflexivity. Qed.

Lemma count_slash_ext ext :
  ~ In SLASH ext -> forall x, count_occ N.eq_dec (x ++ ext) SLASH
                              = count_occ N.eq_dec x SLASH.
Proof.
  intros No x. rewrite count_occ_app.
  pose proof (proj1 (count_occ_not_In N.eq_dec ext SLASH) No) as K.
  unfold char in *. lia.
Qed.

Lemma key_slashes uid chatId file :
  count_occ N.eq_dec (uid ++ js "/" ++ chatId ++ js "/" ++ file) SLASH
  = 2 + count_occ N.eq_dec uid SLASH + count_occ N.eq_dec chatId SLASH
    + count_occ N.eq_dec file SLASH.
Proof.
  rewrite !count_occ_app, SLASH_is. cbn [count_occ].
  destruct (N.eq_dec SLASH SLASH); [|congruence]. unfold char in *. lia.
Qed.

Lemma pcm_no_slash : ~ In SLASH (js ".pcm").
Proof. vm_compute. intuition discriminate. Qed.

Lemma mp4_no_slash : ~ In SLASH (js ".mp4").
Proof. vm_compute. intuition discriminate. Qed.

Lemma count_zero_not_In s : count_occ N.eq_dec s SLASH = 0 <-> ~ In SLASH s.
Proof. symmetry. apply count_occ_not_In. Qed.

(** A file name that ends in [.mp4] does not end in [.pcm]. *)
Lemma mp4_not_pcm x : endsWith (x ++ js ".mp4") (js ".pcm") = false.
Proof. unfold endsWith. rewrite rev_app_distr. reflexivity. Qed.

Lemma split3_last sep s a b c :
  split sep s = [a; b; c] ->
  forall init l, split sep s = init ++ [l] -> c = l.
Proof.
  intros E init l E'. rewrite E in E'.
  destruct init as [|x [|y [|z init]]]; cbn [app] in E'; inversion E'; subst.
  - reflexivity.
  - destruct init; discriminate.
Qed.

Lemma audio_key_guard uid chatId uuid :
  invalid_key (uid ++ js "/" ++ chatId ++ js "/" ++ uuid ++ js ".pcm") = false
  <-> ~ In SLASH uid /\ ~ In SLASH chatId /\ ~ In SLASH uuid.
Proof.
  split.
  - intros V. apply MediaKeysFacts.invalid_key_false_iff in V.
    destruct V as (s1 & s2 & s3' & S & _).
    assert (L : length (split SLASH (uid ++ js "/" ++ chatId ++ js "/"
                                       ++ uuid ++ js ".pcm")) = 3)
      by now rewrite S.
    rewrite split_length, key_slashes, (count_slash_ext _ pcm_no_slash) in L.
    rewrite <- !count_zero_not_In. unfold char in *. lia.
  - intros (Nu & Nc & Nf). apply MediaKeysFacts.invalid_key_false_iff.
    exists uid, chatId, (uuid ++ js ".pcm"). split; [|apply endsWith_app].
    rewrite SLASH_is. cbn [app].
    rewrite (split_app_sep _ _ _ Nu), (split_app_sep _ _ _ Nc).
    rewrite split_no_sep; [reflexivity|].
    intros I. apply in_app_or in I. destruct I as [I|I];
      [now apply Nf | now apply pcm_no_slash].
Qed.

Lemma video_key_guard uid chatId uuid :
  invalid_key (uid ++ js "/" ++ chatId ++ js "/" ++ uuid ++ js ".mp4") = true.
Proof.
  destruct (invalid_key _) eqn:V; [reflexivity|]. exfalso.
  apply MediaKeysFacts.invalid_key_false_iff in V.
  destruct V as (s1 & s2 & s3' & S & E).
  destruct (split_app_last SLASH (uid ++ js "/" ++ chatId ++ js "/" ++ uuid)
              (js ".mp4") mp4_no_slash) as (init & l & _ & E2).
  rewrite <- !app_assoc in E2.
  pose proof (split3_last _ _ _ _ _ S _ _ E2) as ->.
  now rewrite mp4_not_pcm in E.
Qed.

(** X13: which keys of the store the audio endpoints serve.  The key
    under which [uploadAudioFile] stores an audio,
    [uid/chatId/uuid.pcm], passes the guard of the signing and proxying
    endpoints exactly when the user id, the chat id and the uuid hold no
    slash; the key under which [uploadVideoFile] stores a video never
    does: both endpoints answer it with 400. *)
Theorem stored_keys_and_the_audio_endpoints
    (s3 : client) (w : env) (uuid : jsstring) (buf : Buffer.buffer)
    (uid chatId : jsstring) :
  (forall key, uploadAudioFile s3 uuid buf uid chatId = Ok key ->
     key = uid ++ js "/" ++ chatId ++ js "/" ++ uuid ++ js ".pcm"
     /\ (invalid_key key = false
         <-> ~ In SLASH uid /\ ~ In SLASH chatId /\ ~ In SLASH uuid))
  /\ (forall key, uploadVideoFile s3 uuid buf uid chatId = Ok key ->
     key = uid ++ js "/" ++ chatId ++ js "/" ++ uuid ++ js ".mp4"
     /\ invalid_key key = true
     /\ status (fst (sign_handler w key)) = 400
     /\ status (fst (proxy_handler w key)) = 400).
Proof.
  split.
  - intros key. unfold uploadAudioFile.
    destruct (put_object s3 _ buf); [|discriminate].
    intros H. assert (K : key = uid ++ js "/" ++ chatId ++ js "/" ++ uuid ++ js ".pcm")
      by (inversion H; reflexivity).
    split; [exact K|]. rewrite K. apply audio_key_guard.
  - intros key. unfold uploadVideoFile.
    destruct (put_object s3 _ buf); [|discriminate].
    intros H. assert (K : key = uid ++ js "/" ++ chatId ++ js "/" ++ uuid ++ js ".mp4")
      by (inversion H; reflexivity).
    split; [exact K|]. rewrite K.
    unfold sign_handler, proxy_handler. rewrite video_key_guard.
    repeat split.
Qed.

Lemma stored_keys_and_the_audio_endpoints_witness :
  status (fst (sign_handler sample_world (js "u-1/c-1/0f3a.pcm"))) = 200
  /\ status (fst (sign_handler sample_world (js "u-1/c-1/0f3a.mp4"))) = 400.
Proof.
  destruct (stored_keys_and_the_audio_endpoints sample_client sample_world
              (js "0f3a") [] (js "u-1") (js "c-1")) as [Audio Video].
  destruct (Audio _ eq_refl) as [_ [_ Accepted]].
  destruct (Video _ eq_refl) as (_ & _ & Refused & _).
  split; [|exact Refused].
  assert (V : invalid_key (js "u-1/c-1/0f3a.pcm") = false).
  { apply Accepted. vm_compute. intuition discriminate. }
  unfold sign_handler. now rewrite V.
Defined.

End S3Facts.

(* ================================================================== *)
(** * Facts about saving the audio *)

Module HelpersFacts.
Import JsString JsStringFacts JsStringSplitFacts World S3 Helpers Chats.

Lemma http_prefix rest : startsWith (js "http" ++ rest) (js "http") = true.
Proof. apply startsWith_app. Qed.

Lemma https_prefix rest : startsWith (js "https" ++ rest) (js "http") = true.
Proof. reflexivity. Qed.

(** What the fallback returns starts with [http]. *)
Lemma saveAudioFileLocal_http written uuid req uid chatId url :
  saveAudioFileLocal written uuid req uid chatId = Some url ->
  startsWith url (js "http") = true.
Proof.
  unfold saveAudioFileLocal. destruct written; [|discriminate].
  intros H; inversion H; clear H.
  match goal with |- context [if ?g then _ else _] => destruct g end;
    [apply https_prefix | apply http_prefix].
Qed.

(** X14: an audio reference is an S3 key or a local URL, and only keys
    are signed.  [saveAudioFile] returns the key
    [uid/chatId/uuid.pcm] exactly when the upload and the signing that
    checks it both succeed; otherwise it returns what the local fallback
    returns, null when the file cannot be written; and a reference of
    the fallback starts with [http], so that [signMediaUrlsInMessages]
    serves it as stored and never hands it to the signer. *)
Theorem saveAudioFile_key_or_local
    (s3 : client) (written : result unit) (s3Uuid localUuid : jsstring)
    (req : request_info) (buf : Buffer.buffer) (uid chatId : jsstring) :
  let key := uid ++ js "/" ++ chatId ++ js "/" ++ s3Uuid ++ js ".pcm" in
  let stored := is_ok (put_object s3 key buf) && is_ok (presign s3 key 60) in
  let ref := saveAudioFile s3 written s3Uuid localUuid req buf uid chatId in
  (stored = true -> ref = Some key)
  /\ (stored = false ->
      ref = saveAudioFileLocal written localUuid req uid chatId
      /\ (is_ok written = false -> ref = None)
      /\ forall url, ref = Some url ->
           is_ok written = true
           /\ startsWith url (js "http") = true
           /\ is_s3_key url = false
           /\ forall w, sign_reference w (Some url) = Ok (Some url)).
Proof.
  cbv zeta. unfold saveAudioFile, uploadAudioFile, getSignedUrl.
  destruct (put_object s3 _ buf) as [[]|e]; cbn [bind is_ok andb].
  - destruct (presign s3 _ 60) as [u|e]; cbn [bind is_ok].
    + split; [reflexivity | discriminate].
    + split; [discriminate|]. intros _. split; [reflexivity|]. split.
      * destruct written; [discriminate | reflexivity].
      * intros url E. pose proof (saveAudioFileLocal_http _ _ _ _ _ _ E) as P.
        split; [destruct written; [reflexivity | discriminate]|].
        split; [exact P|].
        assert (K : is_s3_key url = false) by (unfold is_s3_key; now rewrite P).
        split; [exact K|]. intros w. unfold sign_reference.
        destruct url; [reflexivity|]. now rewrite K.
  - split; [discriminate|]. intros _. split; [reflexivity|]. split.
    + destruct written; [discriminate | reflexivity].
    + intros url E. pose proof (saveAudioFileLocal_http _ _ _ _ _ _ E) as P.
      split; [destruct written; [reflexivity | discriminate]|].
      split; [exact P|].
      assert (K : is_s3_key url = false) by (unfold is_s3_key; now rewrite P).
      split; [exact K|]. intros w. unfold sign_reference.
      destruct url; [reflexivity|]. now rewrite K.
Qed.

(** The store refuses the upload; the audio is kept on the server. *)
Lemma saveAudioFile_key_or_local_witness :
  saveAudioFile refusing_client (Ok tt) (js "0f3a") (js "77b1") local_request
    [] (js "u-1") (js "c-1")
  = Some (js "http://localhost:3001/api/audio/u-1/c-1/77b1.pcm")
  /\ is_s3_key (js "http://localhost:3001/api/audio/u-1/c-1/77b1.pcm") = false.
Proof.
  destruct (saveAudioFile_key_or_local refusing_client (Ok tt) (js "0f3a")
              (js "77b1") local_request [] (js "u-1") (js "c-1"))
    as [_ Fallback].
  destruct (Fallback eq_refl) as (E & _ & Local).
  split; [rewrite E; reflexivity|].
  apply (Local _ eq_refl).
Defined.

(** A reference of the fallback is no S3 key. *)
Lemma saveAudioFileLocal_not_key written uuid req uid chatId url :
  saveAudioFileLocal written uuid req uid chatId = Some url ->
  is_s3_key url = false.
Proof.
  intros E. unfold is_s3_key.
  now rewrite (saveAudioFileLocal_http _ _ _ _ _ _ E).
Qed.

(** X23: the two audio references of a turn are two S3 keys or two
    local references, never one of each.  [saveMultiSpeakerAudio]
    returns the keys [uid/chatId/uuid.pcm] of both uploads exactly when
    both uploads and both signings that check them succeed; otherwise,
    also when only the second upload or one signing failed, both
    references are what the local fallback returns, each null or a URL
    that is no S3 key. *)
Theorem saveMultiSpeakerAudio_keys_or_local
    (s3 : client) (written1 written2 : result unit)
    (userUuid assistantUuid localUuid1 localUuid2 : jsstring)
    (req : request_info) (buf : Buffer.buffer) (uid chatId : jsstring) :
  let userKey := uid ++ js "/" ++ chatId ++ js "/" ++ userUuid ++ js ".pcm" in
  let assistantKey :=
    uid ++ js "/" ++ chatId ++ js "/" ++ assistantUuid ++ js ".pcm" in
  let stored :=
    is_ok (put_object s3 userKey buf) && is_ok (put_object s3 assistantKey buf)
    && is_ok (presign s3 userKey 60) && is_ok (presign s3 assistantKey 60) in
  let refs := saveMultiSpeakerAudio s3 written1 written2 userUuid assistantUuid
                localUuid1 localUuid2 req buf uid chatId in
  (stored = true -> refs = (Some userKey, Some assistantKey))
  /\ (stored = false ->
      refs = (saveAudioFileLocal written1 localUuid1 req uid chatId,
              saveAudioFileLocal written2 localUuid2 req uid chatId)
      /\ forall url, fst refs = Some url \/ snd refs = Some url ->
           startsWith url (js "http") = true /\ is_s3_key url = false).
Proof.
  cbv zeta.
  assert (Local : forall refs,
            refs = (saveAudioFileLocal written1 localUuid1 req uid chatId,
                    saveAudioFileLocal written2 localUuid2 req uid chatId) ->
            refs = (saveAudioFileLocal written1 localUuid1 req uid chatId,
                    saveAudioFileLocal written2 localUuid2 req uid chatId)
            /\ forall url, fst refs = Some url \/ snd refs = Some url ->
                 startsWith url (js "http") = true /\ is_s3_key url = false).
  { intros refs ->. split; [reflexivity|]. cbn [fst snd].
    intros url [E|E];
      (split; [exact (saveAudioFileLocal_http _ _ _ _ _ _ E)
              | exact (saveAudioFileLocal_not_key _ _ _ _ _ _ E)]). }
  unfold saveMultiSpeakerAudio, uploadMultiSpeakerAudio, uploadAudioFile,
    getSignedUrl.
  destruct (put_object s3 _ buf) as [[]|e1]; cbn [bind is_ok andb];
    [|split; [discriminate | intros _; now apply Local]].
  destruct (put_object s3 _ buf) as [[]|e2]; cbn [bind is_ok andb];
    [|split; [discriminate | intros _; now apply Local]].
  destruct (presign s3 _ 60) as [u1|e3]; cbn [bind is_ok andb];
    [|split; [discriminate | intros _; now apply Local]].
  destruct (presign s3 _ 60) as [u2|e4]; cbn [bind is_ok andb];
    [|split; [discriminate | intros _; now apply Local]].
  split; [reflexivity | discriminate].
Qed.

(** The store refuses the uploads: both references are local. *)
Lemma saveMultiSpeakerAudio_keys_or_local_witness :
  saveMultiSpeakerAudio refusing_client (Ok tt) (Ok tt) (js "0f3a") (js "0f3b")
    (js "77b1") (js "77b2") local_request [] (js "u-1") (js "c-1")
  = (Some (js "http://localhost:3001/api/audio/u-1/c-1/77b1.pcm"),
     Some (js "http://localhost:3001/api/audio/u-1/c-1/77b2.pcm")).
Proof.
  destruct (saveMultiSpeakerAudio_keys_or_local refusing_client (Ok tt) (Ok tt)
              (js "0f3a") (js "0f3b") (js "77b1") (js "77b2") local_request []
              (js "u-1") (js "c-1")) as [_ Fallback].
  destruct (Fallback eq_refl) as (E & _).
  rewrite E. reflexivity.
Defined.

End HelpersFacts.

(* ================================================================== *)
(** * Facts about properties of objects *)

Module JsonPropsFacts.
Import JsString JsStringFacts Json.

Lemma replace_prop_some k v props :
  lookup k props <> None -> exists props', replace_prop k v props = Some props'.
Proof.
  induction props as [|[k' v'] t IH]; cbn [lookup replace_prop]; [congruence|].
  destruct (eqb k' k); [eexists; reflexivity|].
  intros H. destruct (IH H) as (t' & ->). eexists; reflexivity.
Qed.

Lemma replace_prop_spec k v props props' :
  replace_prop k v props = Some props' ->
  lookup k props' = Some v
  /\ (forall k', k' <> k -> lookup k' props' = lookup k' props)
  /\ map fst props' = map fst props.
Proof.
  revert props'. induction props as [|[k0 v0] t IH]; cbn [replace_prop];
    [discriminate|]. intros props'.
  destruct (eqb k0 k) eqn:E.
  - intros H; inversion H; subst props'. apply eqb_eq in E. subst k0.
    cbn [lookup map fst]. rewrite eqb_refl. split; [reflexivity|]. split; [|reflexivity].
    intros k' N. now replace (eqb k k') with false by (symmetry; now apply eqb_neq).
  - destruct (replace_prop k v t) as [t'|]; [|discriminate].
    intros H; inversion H; subst props'.
    destruct (IH t' eq_refl) as (L & O & M).
    cbn [lookup map fst]. rewrite E. split; [exact L|]. split.
    + intros k' N. destruct (eqb k0 k'); [reflexivity | now apply O].
    + now rewrite M.
Qed.

Lemma lookup_app k props k' v :
  lookup k (props ++ [(k', v)])
  = match lookup k props with
    | Some x => Some x
    | None => if eqb k' k then Some v else None
    end.
Proof.
  induction props as [|[k0 v0] t IH]; cbn [lookup app]; [reflexivity|].
  destruct (eqb k0 k); [reflexivity | exact IH].
Qed.

(** Setting a property whose name is no array index: the property reads
    back, the others are as before. *)
Lemma set_prop_spec props k v :
  array_index k = None ->
  lookup k (set_prop props k v) = Some v
  /\ forall k', k' <> k -> lookup k' (set_prop props k v) = lookup k' props.
Proof.
  intros A. unfold set_prop.
  destruct (replace_prop k v props) as [props'|] eqn:R.
  - destruct (replace_prop_spec _ _ _ _ R) as (L & O & _). now split.
  - rewrite A. assert (N : lookup k props = None).
    { destruct (lookup k props) eqn:L; [|reflexivity].
      destruct (replace_prop_some k v props) as (p & E); [congruence|].
      congruence. }
    split.
    + now rewrite lookup_app, N, eqb_refl.
    + intros k' Nk. rewrite lookup_app.
      destruct (lookup k' props); [reflexivity|].
      now replace (eqb k k') with false by (symmetry; now apply eqb_neq).
Qed.

End JsonPropsFacts.

(* ================================================================== *)
(** * Facts about the workflow *)

Module WorkflowFacts.
Import JsString JsStringFacts Json JsonPropsFacts Workflow.

(** One update of an input of a node that has inputs. *)
Lemma update_input_spec nodes node key filename entry inputs :
  array_index key = None ->
  lookup node nodes = Some (JObject entry) ->
  lookup (js "inputs") entry = Some (JObject inputs) ->
  exists nodes' entry',
    update_input (JObject nodes) node key filename = Ok (JObject nodes')
    /\ lookup node nodes' = Some (JObject entry')
    /\ lookup (js "inputs") entry'
       = Some (JObject (set_prop inputs key (JString filename)))
    /\ (forall k, k <> js "inputs" -> lookup k entry' = lookup k entry)
    /\ (forall k, k <> node -> lookup k nodes' = lookup k nodes)
    /\ map fst nodes' = map fst nodes.
Proof.
  intros A Ln Li. unfold update_input. cbn [member bind]. rewrite Ln.
  cbn [truthy member bind]. rewrite Li. cbn [truthy assign bind with_member].
  destruct (replace_prop_some (js "inputs")
              (JObject (set_prop inputs key (JString filename))) entry)
    as (entry' & Re); [congruence|]. rewrite Re.
  destruct (replace_prop_some node (JObject entry') nodes) as (nodes' & Rn);
    [congruence|]. rewrite Rn.
  destruct (replace_prop_spec _ _ _ _ Re) as (L1 & O1 & _).
  destruct (replace_prop_spec _ _ _ _ Rn) as (L2 & O2 & M2).
  exists nodes', entry'. repeat split; assumption.
Qed.

(** An update of a node that the workflow does not have changes
    nothing. *)
Lemma update_input_missing nodes node key filename :
  lookup node nodes = None ->
  update_input (JObject nodes) node key filename = Ok (JObject nodes).
Proof. intros L. unfold update_input. cbn [member bind]. now rewrite L. Qed.

Lemma audio_no_index : array_index (js "audio") = None.
Proof. reflexivity. Qed.

Lemma image_no_index : array_index (js "image") = None.
Proof. reflexivity. Qed.

Lemma node_ids_differ : js "125" <> js "133".
Proof. intros E. vm_compute in E. discriminate E. Qed.

(** X15: the workflow gets the two file names and nothing else changes.
    For a workflow object whose nodes 125 and 133 are objects with
    [inputs] objects, [updateWorkflowWithFiles] returns a workflow in
    which [125.inputs.audio] is the audio file name and
    [133.inputs.image] the image file name; the nodes are the same, in
    the same order; every other node is as before, and so is every
    other input of every node.  For a workflow object that has neither
    node, nothing changes. *)
Theorem updateWorkflowWithFiles_sets_the_file_names
    (nodes : list (jsstring * value)) (audioFilename imageFilename : jsstring) :
  ((exists entry inputs,
      lookup (js "125") nodes = Some (JObject entry)
      /\ lookup (js "inputs") entry = Some (JObject inputs)) ->
   (exists entry inputs,
      lookup (js "133") nodes = Some (JObject entry)
      /\ lookup (js "inputs") entry = Some (JObject inputs)) ->
   exists nodes',
     updateWorkflowWithFiles (JObject nodes) audioFilename imageFilename
     = Ok (JObject nodes')
     /\ input_of (JObject nodes') (js "125") (js "audio")
        = Some (JString audioFilename)
     /\ input_of (JObject nodes') (js "133") (js "image")
        = Some (JString imageFilename)
     /\ map fst nodes' = map fst nodes
     /\ (forall node, node <> js "125" -> node <> js "133" ->
           lookup node nodes' = lookup node nodes)
     /\ (forall node key,
           (node = js "125" -> key <> js "audio") ->
           (node = js "133" -> key <> js "image") ->
           input_of (JObject nodes') node key = input_of (JObject nodes) node key))
  /\ (lookup (js "125") nodes = None -> lookup (js "133") nodes = None ->
      updateWorkflowWithFiles (JObject nodes) audioFilename imageFilename
      = Ok (JObject nodes)).
Proof.
  split.
  - intros (e1 & i1 & L1 & I1) (e2 & i2 & L2 & I2).
    unfold updateWorkflowWithFiles.
    destruct (update_input_spec nodes (js "125") (js "audio") audioFilename
                e1 i1 audio_no_index L1 I1)
      as (n1 & e1' & U1 & N1 & In1 & Oe1 & On1 & M1).
    rewrite U1. cbn [bind].
    assert (L2' : lookup (js "133") n1 = Some (JObject e2)).
    { rewrite On1; [exact L2|]. intros E. symmetry in E. now apply node_ids_differ. }
    destruct (update_input_spec n1 (js "133") (js "image") imageFilename
                e2 i2 image_no_index L2' I2)
      as (n2 & e2' & U2 & N2 & In2 & Oe2 & On2 & M2).
    rewrite U2. exists n2.
    destruct (set_prop_spec i1 (js "audio") (JString audioFilename) audio_no_index)
      as [Sa Oa].
    destruct (set_prop_spec i2 (js "image") (JString imageFilename) image_no_index)
      as [Si Oi].
    assert (N1' : lookup (js "125") n2 = Some (JObject e1'))
      by (rewrite On2; [exact N1 | apply node_ids_differ]).
    split; [reflexivity|]. split; [|split; [|split; [|split]]].
    + unfold input_of. now rewrite N1', In1, Sa.
    + unfold input_of. now rewrite N2, In2, Si.
    + now rewrite M2, M1.
    + intros node D1 D2. now rewrite On2, On1.
    + intros node key K1 K2. unfold input_of.
      destruct (list_eq_dec N.eq_dec node (js "125")) as [E1|D1].
      * subst node. rewrite N1', L1, In1, I1. apply Oa. now apply K1.
      * destruct (list_eq_dec N.eq_dec node (js "133")) as [E2|D2].
        -- subst node. rewrite N2, L2, In2, I2. apply Oi. now apply K2.
        -- now rewrite On2, On1.
  - intros L1 L2. unfold updateWorkflowWithFiles.
    rewrite (update_input_missing _ _ _ _ L1). cbn [bind].
    now apply update_input_missing.
Qed.

(** The workflow of the repository, cut down to three nodes. *)
Lemma updateWorkflowWithFiles_sets_the_file_names_witness :
  exists nodes',
    updateWorkflowWithFiles sample_workflow (js "audio_1.wav") (js "image_1.png")
    = Ok (JObject nodes')
    /\ input_of (JObject nodes') (js "125") (js "audio")
       = Some (JString (js "audio_1.wav"))
    /\ input_of (JObject nodes') (js "125") (js "audioUI") = Some (JString [])
    /\ map fst nodes' = [js "120"; js "125"; js "133"].
Proof.
  destruct (updateWorkflowWithFiles_sets_the_file_names
              [ (js "120", JObject [(js "inputs", JObject [(js "base_precision", JString (js "fp16"))]);
                                    (js "class_type", JString (js "MultiTalkModelLoader"))]);
                (js "125", JObject [(js "inputs", JObject [(js "audio", JString (js "aistudio2.wav"));
                                                           (js "audioUI", JString [])]);
                                    (js "class_type", JString (js "LoadAudio"))]);
                (js "133", JObject [(js "inputs", JObject [(js "image", JString (js "ComfyUI_00143_.png"))]);
                                    (js "class_type", JString (js "LoadImage"))]) ]
              (js "audio_1.wav") (js "image_1.png")) as [Set_ _].
  destruct Set_ as (nodes' & U & A & _ & M & _ & Others).
  - do 2 eexists. split; reflexivity.
  - do 2 eexists. split; reflexivity.
  - exists nodes'. split; [exact U|]. split; [exact A|]. split; [|exact M].
    rewrite Others; [reflexivity | |].
    + intros _ E. vm_compute in E. discriminate E.
    + intros E. vm_compute in E. discriminate E.
Defined.

End WorkflowFacts.

(* ================================================================== *)
(** * Facts about the download of the video *)

Module DownloadFacts.
Import JsString JsStringFacts Json Workflow Download.

Lemma getFile_ok reply buf :
  getFile reply = Ok buf ->
  exists r, reply = Ok r /\ ok r = true /\ bytes r = buf /\ buf <> [].
Proof.
  unfold getFile. destruct reply as [r|e]; [|discriminate].
  destruct (ok r) eqn:O; [|discriminate]. cbn [negb].
  destruct (Nat.eqb (length (bytes r)) 0) eqn:L; [discriminate|].
  intros H; inversion H; subst buf. exists r. repeat split; auto.
  intros E. rewrite E in L. discriminate.
Qed.

(** X16: only a whole video is taken from the server.  What
    [downloadGeneratedVideo] returns is at least 1000 octets long and is
    what the server answered, with success, for the file name of the
    first entry of [message.data.output.gifs], for its subfolder (the
    empty string when it has none) and its type ([output] when it has
    none); and when the message has no output, the output no [gifs], or
    [gifs] is an empty array, it throws that no video output was found,
    whatever the server would answer. *)
Theorem downloadGeneratedVideo_takes_whole_videos
    (view : value -> value -> value -> result file_reply) (message : value) :
  (forall buf, downloadGeneratedVideo view message = Ok buf ->
     1000 <= length buf
     /\ exists data outputs gifs videoInfo filename subfolder type r,
          member message (js "data") = Ok data
          /\ member data (js "output") = Ok outputs
          /\ member outputs (js "gifs") = Ok gifs
          /\ member gifs (js "0") = Ok videoInfo
          /\ member videoInfo (js "filename") = Ok filename
          /\ member videoInfo (js "subfolder") = Ok subfolder
          /\ member videoInfo (js "type") = Ok type
          /\ view filename (or_literal subfolder []) (or_literal type (js "output"))
             = Ok r
          /\ ok r = true /\ bytes r = buf)
  /\ (forall data outputs,
        member message (js "data") = Ok data ->
        member data (js "output") = Ok outputs ->
        truthy outputs = false
        \/ (exists gifs, member outputs (js "gifs") = Ok gifs
                         /\ (truthy gifs = false \/ gifs = JArray [])) ->
        downloadGeneratedVideo view message
        = Throw (Error "No video output found in ComfyUI response")).
Proof.
  split.
  - intros buf. unfold downloadGeneratedVideo.
    destruct (member message (js "data")) as [data|] eqn:D; [|discriminate].
    cbn [bind].
    destruct (member data (js "output")) as [outputs|] eqn:O; [|discriminate].
    cbn [bind].
    destruct (truthy outputs) eqn:To.
    2:{ cbn [bind negb orb]. discriminate. }
    destruct (member outputs (js "gifs")) as [gifs|] eqn:G; [|discriminate].
    cbn [bind negb orb].
    destruct (negb (truthy gifs) || no_entries gifs); [discriminate|].
    destruct (member gifs (js "0")) as [videoInfo|] eqn:V; [|discriminate].
    cbn [bind].
    destruct (member videoInfo (js "filename")) as [filename|] eqn:F; [|discriminate].
    cbn [bind].
    destruct (member videoInfo (js "subfolder")) as [subfolder|] eqn:S; [|discriminate].
    cbn [bind].
    destruct (member videoInfo (js "type")) as [type|] eqn:T; [|discriminate].
    cbn [bind].
    destruct (to_primitive filename) as [[]|]; [|discriminate]. cbn [bind].
    destruct (to_primitive (or_literal subfolder [])) as [[]|]; [|discriminate].
    cbn [bind].
    destruct (to_primitive (or_literal type (js "output"))) as [[]|];
      [|discriminate].
    cbn [bind].
    destruct (getFile _) as [videoBuffer|] eqn:GF; [|discriminate].
    cbn [bind].
    destruct (Nat.ltb_spec (length videoBuffer) 1000) as [|L]; [discriminate|].
    intros H; inversion H; subst buf. split; [exact L|].
    apply getFile_ok in GF. destruct GF as (r & Er & Ok_ & B & _).
    exists data, outputs, gifs, videoInfo, filename, subfolder, type, r.
    repeat split; assumption.
  - intros data outputs D O Missing. unfold downloadGeneratedVideo.
    rewrite D. cbn [bind]. rewrite O. cbn [bind].
    destruct Missing as [To|(gifs & G & Tg)].
    + rewrite To. reflexivity.
    + destruct (truthy outputs) eqn:To; [|reflexivity].
      rewrite G. cbn [bind negb orb].
      destruct Tg as [Tg| ->]; [now rewrite Tg | reflexivity].
Qed.

Lemma downloadGeneratedVideo_takes_whole_videos_witness :
  length (match downloadGeneratedVideo (view_of_size 2000) sample_executed with
          | Ok buf => buf
          | Throw _ => []
          end) = 2000
  /\ downloadGeneratedVideo (view_of_size 999) sample_executed
     = Throw (Error "Video file too small").
Proof.
  destruct (downloadGeneratedVideo_takes_whole_videos (view_of_size 2000)
              sample_executed) as [Whole _].
  destruct (downloadGeneratedVideo (view_of_size 2000) sample_executed)
    as [buf|e] eqn:E; [|discriminate E].
  destruct (Whole buf eq_refl)
    as (_ & data & outputs & gifs & videoInfo & filename & subfolder & type & r
        & _ & _ & _ & _ & _ & _ & _ & R & _ & B).
  split; [|reflexivity].
  inversion R; subst r. now rewrite <- B.
Defined.

End DownloadFacts.

(* ================================================================== *)
(** * Facts about the messages of the job bridge *)

Module ComfyMessageFacts.
Import JsString JsStringFacts Json Comfy.

(** X17: the bridge calls back for its own prompt only.  Whatever
    arrives on the socket, the handler leaves the prompt id, the save
    nodes and the callbacks of the bridge as they are; it calls at most
    the save callback and then the message callback, each with the
    message received and the prompt id of the bridge; and it calls back
    only for a text frame that parses and whose [data.prompt_id] is
    truthy and strictly equal to the prompt id of the bridge, so that a
    binary frame, a frame that does not parse and a message about
    another prompt call nothing. *)
Theorem onmessage_calls_back_for_own_prompt (b : bridge) (d : ws_data) :
  let b' := fst (onmessage b d) in
  let events := snd (onmessage b d) in
  (promptId b' = promptId b /\ api_save b' = api_save b
   /\ clientId b' = clientId b
   /\ has_onSaveCallback b' = has_onSaveCallback b
   /\ has_onMessageCallback b' = has_onMessageCallback b)
  /\ (events <> [] ->
      exists text message,
        d = Text text /\ JSON_parse text = Ok message
        /\ truthy (get_opt (get_opt message (js "data")) (js "prompt_id")) = true
        /\ strict_eq (get_opt (get_opt message (js "data")) (js "prompt_id"))
             (promptId b) = true
        /\ (events = [SaveCallback message (promptId b);
                      MessageCallback message (promptId b)]
            \/ events = [SaveCallback message (promptId b)]
            \/ events = [MessageCallback message (promptId b)])).
Proof.
  cbv zeta. unfold onmessage. destruct d as [|text].
  { split; [repeat split | intros N; now contradiction N]. }
  destruct (JSON_parse text) as [message|] eqn:P.
  2:{ split; [repeat split | intros N; now contradiction N]. }
  destruct (get message (js "type")) as [type|] eqn:T.
  2:{ split; [repeat split | intros N; now contradiction N]. }
  set (su := if is_string type (js "status") then _ else Ok b).
  assert (Hsu : forall b', su = Ok b' ->
                  promptId b' = promptId b /\ api_save b' = api_save b
                  /\ clientId b' = clientId b
                  /\ has_onSaveCallback b' = has_onSaveCallback b
                  /\ has_onMessageCallback b' = has_onMessageCallback b).
  { unfold su. destruct (is_string type (js "status")).
    - destruct (get message (js "data")) as [x1|]; [|discriminate]. cbn [bind].
      destruct (get x1 (js "status")) as [x2|]; [|discriminate]. cbn [bind].
      destruct (get x2 (js "exec_info")) as [x3|]; [|discriminate]. cbn [bind].
      destruct (get x3 (js "queue_remaining")) as [x4|]; [|discriminate].
      cbn [bind]. intros b' E; inversion E; repeat split.
    - intros b' E; inversion E; repeat split. }
  destruct su as [b'|].
  2:{ split; [repeat split | intros N; now contradiction N]. }
  destruct (Hsu b' eq_refl) as (Hp & Ha & Hc & Hs & Hm).
  destruct (truthy (get_opt (get_opt message (js "data")) (js "prompt_id"))
            && strict_eq (get_opt (get_opt message (js "data")) (js "prompt_id"))
                 (promptId b')) eqn:G; cbn [fst snd].
  2:{ split; [repeat split; assumption | intros N; now contradiction N]. }
  split; [repeat split; assumption|].
  apply andb_true_iff in G. destruct G as [G1 G2]. rewrite Hp in *.
  intros N. exists text, message. repeat split; auto.
  destruct (_ && has_onSaveCallback b'); destruct (_ && has_onMessageCallback b');
    cbn [app] in *; auto. now contradiction N.
Qed.

(** An [executed] message of the save node for the prompt of the bridge. *)
Lemma onmessage_calls_back_for_own_prompt_witness :
  exists message,
    snd (onmessage (set_promptId sample_bridge (JString (js "job-1")))
           (Text (quoted "{'type': 'executed', 'data': {'node': '131', 'prompt_id': 'job-1'}}")))
    = [SaveCallback message (JString (js "job-1"));
       MessageCallback message (JString (js "job-1"))]
    /\ snd (onmessage (set_promptId sample_bridge (JString (js "job-1")))
              (Text (quoted "{'type': 'executed', 'data': {'node': '131', 'prompt_id': 'job-2'}}")))
       = [].
Proof.
  destruct (onmessage_calls_back_for_own_prompt
              (set_promptId sample_bridge (JString (js "job-1")))
              (Text (quoted "{'type': 'executed', 'data': {'node': '131', 'prompt_id': 'job-1'}}")))
    as [_ Own].
  destruct Own as (text & message & _ & _ & _ & _ & [E|[E|E]]).
  - vm_compute. discriminate.
  - exists message. split; [exact E | reflexivity].
  - vm_compute in E. discriminate E.
  - vm_compute in E. discriminate E.
Defined.

End ComfyMessageFacts.

(* ================================================================== *)
(** * Facts about what a chat turn leaves behind *)

Module TurnLogFacts.
Import JsString JsStringFacts World Db DbFacts VideoJob Turn TurnFacts DbReads TurnLog.

(** The row that [saveConversation] answers with has the id it was given. *)
Lemma saveConversation_row_id f now t uid chatId userMessage responseText p
    audioUrl userAudioUrl videoUrl c t' :
  saveConversation f now t uid chatId userMessage responseText p
    audioUrl userAudioUrl videoUrl = (Some c, t') ->
  c_id c = chatId.
Proof.
  intros H. apply saveConversation_saved in H. destruct H as [row F N ->|e F].
  - reflexivity.
  - cbn [set_messages c_id]. destruct (filter_In_singleton _ _ _ F) as [_ O].
    now apply owned_by_id in O.
Qed.

(** A call that answers null leaves the table as it was. *)
Lemma saveConversation_null_unchanged f now t uid chatId userMessage responseText
    p audioUrl userAudioUrl videoUrl t' :
  saveConversation f now t uid chatId userMessage responseText p
    audioUrl userAudioUrl videoUrl = (None, t') ->
  t' = t.
Proof.
  unfold saveConversation, select_maybeSingle.
  destruct (select_fails f); [intros H; now inversion H|].
  destruct (filter (owned_by chatId uid) t) as [|e [|e' l]] eqn:F;
    [| |intros H; now inversion H].
  - unfold insert_single. destruct (write_fails f); [intros H; now inversion H|].
    cbn [c_id]. destruct (existsb _ t); [intros H; now inversion H | discriminate].
  - unfold update_single. destruct (write_fails f); [intros H; now inversion H|].
    fold (rewrite_row chatId uid
            (c_messages e ++
               [ {| m_role := user; m_content := userMessage;
                    m_timestamp := t_user now; m_audioUrl := userAudioUrl;
                    m_videoUrl := None; m_persona := None; m_personaId := None |};
                 {| m_role := assistant; m_content := responseText;
                    m_timestamp := t_assistant now; m_audioUrl := audioUrl;
                    m_videoUrl := videoUrl; m_persona := Some (p_name p);
                    m_personaId := Some (p_id p) |} ])
            (t_update now)).
    rewrite filter_map_preserved by (intros; apply rewrite_row_owned).
    rewrite F. discriminate.
Qed.

(** A database that refuses the write answers null and keeps the table. *)
Lemma saveConversation_refused f now t uid chatId userMessage responseText p
    audioUrl userAudioUrl videoUrl :
  write_fails f = true ->
  saveConversation f now t uid chatId userMessage responseText p
    audioUrl userAudioUrl videoUrl = (None, t).
Proof.
  intros W. unfold saveConversation, update_single, insert_single. rewrite W.
  destruct (select_maybeSingle f t chatId uid) as [[c|]|]; reflexivity.
Qed.

(** The three ways of a turn: it fails on a deciding stage, it waits for
    the video for ever, or it answers 200 and has called the save. *)
Lemma turn_cases ep sv rq :
  (fatal_stages_ok ep sv rq = false
   /\ o_response (turn ep sv rq) = Some error_response
   /\ o_table (turn ep sv rq) = db_table sv)
  \/ (fatal_stages_ok ep sv rq = true
      /\ o_response (turn ep sv rq) = None
      /\ o_table (turn ep sv rq) = db_table sv)
  \/ (fatal_stages_ok ep sv rq = true
      /\ exists p userText raw audioUrl userAudioUrl videoUrl sa su sv',
           o_table (turn ep sv rq)
           = snd (saveConversation (db_faults sv) (db_clock sv) (db_table sv)
                    (uid rq) (currentChatId sv rq) userText raw p
                    audioUrl userAudioUrl videoUrl)
           /\ o_response (turn ep sv rq)
              = Some
                  {| status := 200;
                     payload :=
                       TurnJson userText (Clean.cleanResponseText raw) sa su sv'
                         (match fst (saveConversation (db_faults sv) (db_clock sv)
                                       (db_table sv) (uid rq) (currentChatId sv rq)
                                       userText raw p audioUrl userAudioUrl
                                       videoUrl) with
                          | Some c => match c_id c with
                                      | [] => currentChatId sv rq
                                      | i => i
                                      end
                          | None => currentChatId sv rq
                          end)
                         (eqb (p_name p) (js "User")) |}).
Proof.
  unfold turn.
  destruct (turn_start_cases ep sv rq)
    as [(h & tr & -> & Q & F & Hc & _)|(e & tr & -> & Q & F)].
  2:{ left. repeat split; assumption || reflexivity. }
  right.
  destruct (turn_finish_cases sv rq h tr Q)
    as [(tr' & -> & _)|(videoUrl & sa & su & sv' & tr' & -> & _)].
  - left. repeat split; assumption || reflexivity.
  - right. split; [exact F|]. rewrite <- Hc.
    exists (h_persona h), (h_userText h), (h_rawResponseText h), (h_audioUrl h),
      (h_userAudioUrl h), videoUrl, sa, su, sv'.
    split; reflexivity.
Qed.

(** The chat id under which a turn is answered. *)
Lemma answered_chatId f now t uid chatId userMessage responseText p
    audioUrl userAudioUrl videoUrl :
  match fst (saveConversation f now t uid chatId userMessage responseText p
               audioUrl userAudioUrl videoUrl) with
  | Some c => match c_id c with
              | [] => chatId
              | i => i
              end
  | None => chatId
  end = chatId.
Proof.
  destruct (saveConversation f now t uid chatId userMessage responseText p
              audioUrl userAudioUrl videoUrl) as [[c|] t'] eqn:Sv; cbn [fst];
    [|reflexivity].
  rewrite (saveConversation_row_id _ _ _ _ _ _ _ _ _ _ _ _ _ Sv).
  now destruct chatId.
Qed.

(** The second half of a turn, stage by stage. *)
Lemma turn_finish_stages sv rq h tr :
  turn_finish sv rq h tr
  = match video_stage sv rq (h_persona h) (h_audioUrl h) (h_chatId h) tr with
    | (Settled (Ok videoUrl), tr1) =>
        match sign_stage sv (h_audioUrl h) (h_userAudioUrl h) videoUrl
                (tr1 ++ [DbSave (h_chatId h)]) with
        | (Settled (Ok (sa, su, sv')), tr2) =>
            (Settled (Ok
               ({| status := 200;
                   payload :=
                     TurnJson (h_userText h)
                       (Clean.cleanResponseText (h_rawResponseText h)) sa su sv'
                       (match fst (saveConversation (db_faults sv) (db_clock sv)
                                     (db_table sv) (uid rq) (h_chatId h)
                                     (h_userText h) (h_rawResponseText h)
                                     (h_persona h) (h_audioUrl h)
                                     (h_userAudioUrl h) videoUrl) with
                        | Some c => match c_id c with
                                    | [] => h_chatId h
                                    | i => i
                                    end
                        | None => h_chatId h
                        end)
                       (eqb (p_name (h_persona h)) (js "User")) |},
                snd (saveConversation (db_faults sv) (db_clock sv) (db_table sv)
                       (uid rq) (h_chatId h) (h_userText h) (h_rawResponseText h)
                       (h_persona h) (h_audioUrl h) (h_userAudioUrl h) videoUrl),
                videoUrl)), tr2)
        | (Settled (Throw e), tr2) => (Settled (Throw e), tr2)
        | (Pending, tr2) => (Pending, tr2)
        end
    | (Settled (Throw e), tr1) => (Settled (Throw e), tr1)
    | (Pending, tr1) => (Pending, tr1)
    end.
Proof.
  unfold turn_finish, mbind, calling.
  destruct (video_stage sv rq _ _ _ tr) as [[[videoUrl|e]|] tr1]; try reflexivity.
  destruct (saveConversation _ _ _ _ _ _ _ _ _ _ _) as [savedChat table'].
  cbn [fst snd].
  destruct (sign_stage sv _ _ videoUrl _) as [[[[[sa su] sv']|e]|] tr2];
    reflexivity.
Qed.

(** The first half of a turn writes nothing. *)
Lemma validate_locations_write_refused sv rq :
  validate_locations (write_refused sv) rq = validate_locations sv rq.
Proof.
  unfold validate_locations. destruct (locations rq); try reflexivity.
  f_equal. induction items as [|x xs IH]; [reflexivity|].
  cbn [supported_locations]. destruct x; try reflexivity.
  now rewrite IH.
Qed.

Lemma turn_start_write_refused ep sv rq :
  turn_start ep (write_refused sv) rq [] = turn_start ep sv rq [].
Proof.
  unfold turn_start. rewrite validate_locations_write_refused. reflexivity.
Qed.

(** A database that refuses the write changes nothing of what a turn
    answers, and is left as it was. *)
Lemma turn_write_refused ep sv rq :
  o_response (turn ep (write_refused sv) rq) = o_response (turn ep sv rq)
  /\ o_table (turn ep (write_refused sv) rq) = db_table sv.
Proof.
  unfold turn.
  rewrite turn_start_write_refused.
  destruct (turn_start ep sv rq []) as [[[h|e]|] tr]; [|split; reflexivity..].
  rewrite !turn_finish_stages.
  change (video_stage (write_refused sv)) with (video_stage sv).
  destruct (video_stage sv rq (h_persona h) (h_audioUrl h) (h_chatId h) tr)
    as [[[videoUrl|e]|] tr1]; [|split; reflexivity..].
  change (sign_stage (write_refused sv)) with (sign_stage sv).
  destruct (sign_stage sv (h_audioUrl h) (h_userAudioUrl h) videoUrl
              (tr1 ++ [DbSave (h_chatId h)])) as [[[[[sa su] sv']|e]|] tr2];
    [|split; reflexivity..].
  cbn [o_response o_table]. rewrite !answered_chatId.
  split; [reflexivity|].
  now rewrite saveConversation_refused.
Qed.

(** With a cold cache and a database that does not answer there is no
    persona, and the turn fails. *)
Lemma no_persona_without_database ep sv rq :
  select_fails (db_faults sv) = true ->
  Personas.personasCache (personas_cache sv) = None ->
  fatal_stages_ok ep sv rq = false.
Proof.
  intros Sf Cold. unfold fatal_stages_ok, resolve_persona.
  assert (P : getPersonas sv = []).
  { unfold getPersonas, Personas.getPersonas, personas_query.
    now rewrite Sf, Cold. }
  assert (C : chat_persona sv rq = None).
  { unfold chat_persona, select_single. rewrite Sf.
    now destruct (chatId rq) as [[|c k]|]. }
  rewrite P, C. cbn [find hd_error].
  now destruct (truthy (personaId rq)), (truthy (personaName rq)).
Qed.

(** X18: a turn is answered under the chat id it was saved under, saved
    or not.  Whenever a chat endpoint answers 200, the chat id of the
    response is the chat id of the request, or the fresh UUID when the
    request gave none, whether the database took the turn or not; the
    table afterwards is the table before, or holds a chat of that id and
    of the user that ends with the turn: the text that the response
    gives as transcribed, then the raw text of which the response gives
    the cleaned form.  A database that answers the reads as before and
    refuses the write changes nothing of the response, and is left as
    it was.  And with a database that answers no read and an empty
    persona cache every turn is answered 500. *)
Theorem turn_answers_its_chat_id (ep : endpoint) (sv : services) (rq : request) :
  let o := turn ep sv rq in
  (response_status o = Some 200 ->
     response_chatId o = Some (currentChatId sv rq)
     /\ (o_table o = db_table sv
         \/ exists c, In c (o_table o) /\ c_id c = currentChatId sv rq
                      /\ c_user_id c = uid rq
                      /\ exists before u a,
                           c_messages c = before ++ [u; a]
                           /\ m_role u = user /\ m_role a = assistant
                           /\ Some (m_content u) = response_transcribed o
                           /\ Some (Clean.cleanResponseText (m_content a))
                              = response_text o))
  /\ (o_response (turn ep (write_refused sv) rq) = o_response o
      /\ o_table (turn ep (write_refused sv) rq) = db_table sv)
  /\ (select_fails (db_faults sv) = true ->
      Personas.personasCache (personas_cache sv) = None ->
      o_response o = Some error_response /\ o_table o = db_table sv).
Proof.
  cbv zeta. split; [|split; [apply turn_write_refused|]].
  - unfold response_status, response_chatId, response_text, response_transcribed.
    destruct (turn_cases ep sv rq)
      as [(_ & R & _)|[(_ & R & _)
         |(_ & p & userText & raw & a & ua & v & sa & su & sv' & T & R)]];
      rewrite R; try discriminate.
    intros _. rewrite T. cbn [payload]. rewrite answered_chatId.
    split; [reflexivity|].
    destruct (saveConversation (db_faults sv) (db_clock sv) (db_table sv) (uid rq)
                (currentChatId sv rq) userText raw p a ua v)
      as [[c|] t'] eqn:Sv; cbn [fst snd].
    + pose proof (saveConversation_row_id _ _ _ _ _ _ _ _ _ _ _ _ _ Sv) as I.
      right. pose proof Sv as Saved. apply saveConversation_saved in Saved.
      exists c. split; [|split; [exact I|split]].
      * destruct Saved as [row Fl N ->|e Fl].
        -- apply in_or_app. right. now left.
        -- destruct (filter_In_singleton _ _ _ Fl) as [Ie Oe].
           apply in_map_iff. exists e. unfold rewrite_row. now rewrite Oe.
      * destruct Saved as [row Fl N ->|e Fl]; [reflexivity|].
        cbn [set_messages c_user_id].
        destruct (filter_In_singleton _ _ _ Fl) as [_ O].
        unfold owned_by in O. apply andb_true_iff in O. now apply eqb_eq.
      * destruct Saved as [row Fl N ->|e Fl].
        -- exists [], (user_message (db_clock sv) userText ua),
             (assistant_message (db_clock sv) raw p a v).
           repeat split.
        -- exists (c_messages e), (user_message (db_clock sv) userText ua),
             (assistant_message (db_clock sv) raw p a v).
           repeat split.
    + left. now apply saveConversation_null_unchanged in Sv.
  - intros Sf Cold.
    pose proof (no_persona_without_database ep sv rq Sf Cold) as F.
    destruct (turn_cases ep sv rq)
      as [(_ & R & T)|[(F' & _)|(F' & _)]]; [now split | congruence | congruence].
Qed.

(** The sample turn is answered under the fresh chat id, with a database
    that refuses the write as without. *)
Lemma turn_answers_its_chat_id_witness :
  response_chatId (turn text_endpoint sample_services sample_request)
  = Some (js "c-9")
  /\ response_chatId (turn text_endpoint (write_refused sample_services)
                        sample_request)
     = Some (js "c-9")
  /\ o_table (turn text_endpoint (write_refused sample_services) sample_request)
     = [].
Proof.
  destruct (turn_answers_its_chat_id text_endpoint sample_services sample_request)
    as (Ok200 & (Same & Kept) & _).
  assert (C : response_chatId (turn text_endpoint sample_services sample_request)
              = Some (js "c-9")) by (apply Ok200; reflexivity).
  split; [exact C|]. split; [|exact Kept].
  unfold response_chatId in *. now rewrite Same.
Defined.

(** X19: what a turn answered is what the chat shows afterwards.  When
    a chat endpoint answers 200 and the database took the turn, [GET
    /api/chats/:uid/:chatId] for the user and the chat id of the
    response answers 200, and the last two messages it serves are the
    user's, whose content is the cleaned form of the text that the
    response gave as transcribed, and the assistant's, whose content is
    the response text itself. *)
Theorem turn_text_is_served_again
    (w : env) (ps : list persona) (ep : endpoint) (sv : services) (rq : request) :
  let o := turn ep sv rq in
  forall transcribedText responseText chatId,
    response_transcribed o = Some transcribedText ->
    response_text o = Some responseText ->
    response_chatId o = Some chatId ->
    o_table o <> db_table sv ->
    let r := Chats.get_chat_handler w (db_faults sv) ps (o_table o) (uid rq) chatId in
    Chats.status r = 200
    /\ exists before,
         map m_content (Chats.served_messages r)
         = before ++ [Clean.cleanResponseText transcribedText; responseText]
         /\ skipn (length before) (map m_role (Chats.served_messages r))
            = [user; assistant].
Proof.
  cbv zeta. intros tt rt cid.
  unfold response_transcribed, response_text, response_chatId.
  destruct (turn_cases ep sv rq)
    as [(_ & R & _)|[(_ & R & _)
       |(_ & p & userText & raw & a & ua & v & sa & su & sv' & T & R)]];
    rewrite R; try discriminate.
  rewrite T. cbn [payload].
  destruct (saveConversation (db_faults sv) (db_clock sv) (db_table sv) (uid rq)
              (currentChatId sv rq) userText raw p a ua v)
    as [[c|] t'] eqn:Sv; cbn [fst snd].
  2:{ intros _ _ _ N. exfalso. apply N.
      now apply saveConversation_null_unchanged in Sv. }
  pose proof (saveConversation_row_id _ _ _ _ _ _ _ _ _ _ _ _ _ Sv) as I.
  intros Ett Ert Ecid _. inversion Ett; subst tt. inversion Ert; subst rt.
  assert (Ec : cid = currentChatId sv rq).
  { rewrite I in Ecid. destruct (currentChatId sv rq); now inversion Ecid. }
  subst cid. clear Ett Ert Ecid.
  pose proof (DbReadsFacts.saveConversation_some_reads _ _ _ _ _ _ _ _ _ _ _ _ _ Sv)
    as Sf.
  assert (Sel : select_single (db_faults sv) t' (currentChatId sv rq) (uid rq) = Ok c).
  { unfold select_single. rewrite Sf.
    pose proof Sv as Saved. apply saveConversation_saved in Saved.
    destruct Saved as [row Fl N ->|e Fl].
    - rewrite filter_app, Fl. cbn [filter app]. unfold owned_by at 1.
      cbn [c_id c_user_id]. now rewrite !JsStringFacts.eqb_refl.
    - rewrite filter_map_preserved by (intros; apply rewrite_row_owned).
      rewrite Fl. cbn [map]. unfold rewrite_row.
      destruct (filter_In_singleton _ _ _ Fl) as [_ ->]. reflexivity. }
  unfold Chats.get_chat_handler, getChat. rewrite Sel.
  cbn [v_chat Chats.status Chats.payload Chats.served_messages c_messages].
  split; [reflexivity|].
  assert (Ms : exists before,
             c_messages c = before ++ [user_message (db_clock sv) userText ua;
                                       assistant_message (db_clock sv) raw p a v]).
  { pose proof Sv as Saved. apply saveConversation_saved in Saved.
    destruct Saved as [row Fl N ->|e Fl]; [now exists [] | now exists (c_messages e)]. }
  destruct Ms as (before & Ms). rewrite Ms.
  exists (map (fun m => Clean.cleanResponseText (m_content m)) before).
  unfold Chats.signMediaUrlsInMessages. rewrite !map_map, !map_app. cbn [map].
  rewrite !ChatsFacts.sign_message_content, !ChatsFacts.sign_message_role.
  cbn [Chats.clean_message Chats.with_content m_content m_role
       user_message assistant_message].
  split.
  - f_equal. apply map_ext. intros m. now rewrite ChatsFacts.sign_message_content.
  - rewrite skipn_app, !length_map, Nat.sub_diag, skipn_all2
      by (rewrite length_map; lia).
    reflexivity.
Qed.

(** The sample turn, then the chat. *)
Lemma turn_text_is_served_again_witness :
  exists before,
    map m_content
      (Chats.served_messages
         (Chats.get_chat_handler Chats.unsigned_world no_faults [sample_persona]
            (o_table (turn text_endpoint sample_services sample_request))
            (js "u-1") (js "c-9")))
    = before ++ [js "hi"; js "Good evening."].
Proof.
  destruct (turn_text_is_served_again Chats.unsigned_world [sample_persona]
              text_endpoint sample_services sample_request
              (js "hi") (js "Good evening.") (js "c-9")
              eq_refl eq_refl eq_refl) as (_ & before & C & _).
  - vm_compute. discriminate.
  - exists before. exact C.
Defined.

End TurnLogFacts.

(* ================================================================== *)
(** * Facts about locations, ages and the number of polls *)

Module LocationsFacts.
Import JsString JsStringFacts Json BrightData Locations.

Lemma assoc_In k (l : list (jsstring * list jsstring)) :
  (exists v, assoc k l = Some v) <-> In k (map fst l).
Proof.
  induction l as [|[k' v'] t IH]; cbn [assoc map fst In].
  - split; [intros [v H]; discriminate | tauto].
  - destruct (eqb k' k) eqn:E.
    + apply eqb_eq in E. split; [now left | intros _; now exists v'].
    + apply eqb_neq in E. rewrite IH. tauto.
Qed.

Lemma subreddits_not_empty k v :
  assoc k LOCATION_SUBREDDITS = Some v -> exists s rest, v = s :: rest.
Proof.
  unfold LOCATION_SUBREDDITS. cbn [assoc].
  repeat match goal with
         | |- (if ?c then _ else _) = _ -> _ =>
             destruct c; [intros H; inversion H; eauto|]
         end.
  discriminate.
Qed.

(** X20: the server accepts the locations it lists, and no others.
    [isLocationSupported] holds of a location exactly when its lower
    case is one of the nineteen locations that [getSupportedLocations]
    returns, whatever the spelling; a name that every object inherits,
    such as [constructor], is not among them; and every location that is
    accepted has at least one subreddit to crawl. *)
Theorem locations_listed_are_those_accepted
    (toLowerCase : jsstring -> jsstring) (location : jsstring) :
  length getSupportedLocations = 19
  /\ (isLocationSupported toLowerCase location = true
      <-> In (toLowerCase location) getSupportedLocations)
  /\ (isLocationSupported toLowerCase location = true ->
      exists subreddit rest,
        table_entry toLowerCase location = Listed (subreddit :: rest)
        /\ getSubredditsForLocation toLowerCase location
           = Listed (subreddit :: rest))
  /\ (In (toLowerCase location) (inherited_keys ++ inherited_nullary) ->
      isLocationSupported toLowerCase location = false
      /\ getSubredditsForLocation toLowerCase location = Inherited).
Proof.
  split; [reflexivity|]. unfold isLocationSupported, getSubredditsForLocation,
    table_entry, getSupportedLocations.
  split; [|split].
  - rewrite <- assoc_In.
    destruct (assoc (toLowerCase location) LOCATION_SUBREDDITS) as [v|];
      split; try discriminate; eauto. intros [v H]. discriminate.
  - destruct (assoc (toLowerCase location) LOCATION_SUBREDDITS) as [v|] eqn:A;
      [|discriminate].
    intros _. destruct (subreddits_not_empty _ _ A) as (s & rest & ->).
    exists s, rest. split; reflexivity.
  - intros I.
    assert (K : existsb (eqb (toLowerCase location)) inherited_keys
                || existsb (eqb (toLowerCase location)) inherited_nullary = true).
    { rewrite <- existsb_app. apply existsb_exists.
      exists (toLowerCase location). split; [exact I | apply eqb_refl]. }
    assert (A : assoc (toLowerCase location) LOCATION_SUBREDDITS = None).
    { destruct (assoc _ LOCATION_SUBREDDITS) as [v|] eqn:A; [|reflexivity].
      exfalso. assert (L : In (toLowerCase location) (map fst LOCATION_SUBREDDITS))
        by (apply assoc_In; eauto).
      revert I L. generalize (toLowerCase location). intros k I L.
      cbn in L.
      repeat match goal with
             | H : _ \/ _ |- _ => destruct H as [H|H]
             | H : False |- _ => destruct H
             end; subst k; vm_compute in I;
        repeat match goal with
               | H : _ \/ _ |- _ => destruct H as [H|H]
               | H : False |- _ => destruct H
               | H : _ = _ |- _ => discriminate H
               end. }
    rewrite A, K. split; reflexivity.
Qed.

Lemma locations_listed_are_those_accepted_witness :
  isLocationSupported lower_ascii (js "Ottawa") = true
  /\ isLocationSupported lower_ascii (js "constructor") = false
  /\ isLocationSupported lower_ascii (js "paris") = false.
Proof.
  destruct (locations_listed_are_those_accepted lower_ascii (js "Ottawa"))
    as (_ & Listed_ & _).
  destruct (locations_listed_are_those_accepted lower_ascii (js "constructor"))
    as (_ & _ & _ & Inh).
  split; [apply Listed_; vm_compute; tauto|].
  split; [apply Inh; vm_compute; tauto | reflexivity].
Defined.

End LocationsFacts.

Module TimeAgoFacts.
Import JsString TimeAgo.

(** X21: the age of a post in words.  For a valid date less than [2^52]
    milliseconds from now, [getTimeAgo] says [Less than 1 hour ago] for
    every age below one hour, also for a date in the future; [1 hour
    ago] from one hour on and the number of whole hours with [hours]
    from two hours up to a day; [1 day ago] from one day on and the
    number of whole days with [days] from two days up to a week; and
    from a week on, as for an invalid date, what [toLocaleDateString]
    prints. *)
Theorem getTimeAgo_labels
    (toLocaleDateString : option Z -> jsstring) (now date : Z) :
  (Z.abs (now - date) < 2 ^ 52)%Z ->
  let age := (now - date)%Z in
  let label := getTimeAgo toLocaleDateString now (Some date) in
  ((age < 3600000)%Z -> label = js "Less than 1 hour ago")
  /\ ((3600000 <= age < 7200000)%Z -> label = js "1 hour ago")
  /\ ((7200000 <= age < 86400000)%Z ->
      label = decimal (age / 3600000) ++ js " hours ago"
      /\ (2 <= age / 3600000 <= 23)%Z)
  /\ ((86400000 <= age < 172800000)%Z -> label = js "1 day ago")
  /\ ((172800000 <= age < 604800000)%Z ->
      label = decimal (age / 86400000) ++ js " days ago"
      /\ (2 <= age / 86400000 <= 6)%Z)
  /\ ((604800000 <= age)%Z -> label = toLocaleDateString (Some date))
  /\ getTimeAgo toLocaleDateString now None = toLocaleDateString None.
Proof.
  intros _. cbv zeta. unfold getTimeAgo.
  change (1000 * 60 * 60)%Z with 3600000%Z.
  set (age := (now - date)%Z).
  assert (Days : (age / 3600000 / 24 = age / 86400000)%Z)
    by (rewrite Z.div_div by lia; reflexivity).
  rewrite Days.
  pose proof (Z.div_mod age 3600000%Z ltac:(lia)) as Eh.
  pose proof (Z.mod_pos_bound age 3600000%Z eq_refl) as Bh.
  pose proof (Z.div_mod age 86400000%Z ltac:(lia)) as Ed.
  pose proof (Z.mod_pos_bound age 86400000%Z eq_refl) as Bd.
  set (h := (age / 3600000)%Z) in *. set (d := (age / 86400000)%Z) in *.
  clearbody h d.
  refine (conj _ (conj _ (conj _ (conj _ (conj _ (conj _ _)))))).
  - intros A. destruct (Z.ltb_spec h 1); [reflexivity | lia].
  - intros [A B]. assert (E : h = 1%Z) by lia. rewrite E. reflexivity.
  - intros [A B]. split; [|lia].
    destruct (Z.ltb_spec h 1); [lia|].
    destruct (Z.ltb_spec h 24); [|lia].
    destruct (Z.ltb_spec 1 h); [|lia].
    reflexivity.
  - intros [A B]. assert (E : d = 1%Z) by lia.
    destruct (Z.ltb_spec h 1); [lia|].
    destruct (Z.ltb_spec h 24); [lia|].
    rewrite E. reflexivity.
  - intros [A B]. split; [|lia].
    destruct (Z.ltb_spec h 1); [lia|].
    destruct (Z.ltb_spec h 24); [lia|].
    destruct (Z.ltb_spec d 7); [|lia].
    destruct (Z.ltb_spec 1 d); [|lia].
    reflexivity.
  - intros A.
    destruct (Z.ltb_spec h 1); [lia|].
    destruct (Z.ltb_spec h 24); [lia|].
    destruct (Z.ltb_spec d 7); [lia | reflexivity].
  - reflexivity.
Qed.

(** A post of five hours and a half ago, and one of tomorrow. *)
Lemma getTimeAgo_labels_witness :
  getTimeAgo (fun _ => js "1/2/2025") 1735812000000 (Some 1735792200000%Z)
  = js "5 hours ago"
  /\ getTimeAgo (fun _ => js "1/2/2025") 1735812000000 (Some 1735898400000%Z)
     = js "Less than 1 hour ago".
Proof.
  destruct (getTimeAgo_labels (fun _ => js "1/2/2025") 1735812000000
              1735792200000 ltac:(reflexivity)) as (_ & _ & Hours & _).
  destruct (getTimeAgo_labels (fun _ => js "1/2/2025") 1735812000000
              1735898400000 ltac:(reflexivity)) as (Future & _).
  split.
  - destruct Hours as [E _]; [split; [discriminate | reflexivity]|].
    rewrite E. reflexivity.
  - apply Future. reflexivity.
Defined.

End TimeAgoFacts.

Module PollingFacts.
Import JsString Json BrightData BrightDataFacts.

(** With no final answer and iterations that outlast their pause by 214
    ms at most, the [k]-th test comes before [3214 * k] ms: the loop asks
    fifteen times and gives up at the sixteenth test. *)
Lemma wait_loop_counts scan w :
  (forall j, poll_once scan w j = None) ->
  (forall j, j < 15 -> (delay w j <= 214)%N) ->
  forall fuel k now, 15 - k < fuel -> k <= 15 ->
    (3000 * N.of_nat k <= now <= 3214 * N.of_nat k)%N ->
    wait_loop fuel scan w k now
    = (Thrown (Error "Crawl timeout: Results not ready within 60 seconds"), 15).
Proof.
  intros Pending Prompt fuel.
  induction fuel as [|f IH]; intros k now Hf Hk Hn; [lia|].
  cbn [wait_loop]. unfold maxWaitTime.
  destruct (N.ltb_spec now 45000) as [T|T].
  - assert (K : k < 15) by lia.
    rewrite Pending. unfold pollInterval.
    pose proof (Prompt k K) as D.
    replace (k + 1) with (S k) by lia. apply IH; lia.
  - assert (K : k = 15) by lia. now subst k.
Qed.

(** X22: the wait asks at most fifteen times.  Given room for sixteen
    iterations or more, the polling loop of [waitForCrawlCompletion]
    never wants another one and makes at most fifteen status requests;
    when no answer is final it throws the timeout, whose message speaks
    of 60 seconds while the deadline is 45; and when moreover no
    iteration outlasts its pause of 3 seconds by more than 214 ms, it
    has then asked exactly fifteen times. *)
Theorem wait_asks_at_most_fifteen_times
    (scan_fuel : nat) (w : polls) (poll_fuel : nat) :
  15 < poll_fuel ->
  fst (wait_loop poll_fuel scan_fuel w 0 0) <> PollsExhausted
  /\ snd (wait_loop poll_fuel scan_fuel w 0 0) <= 15
  /\ ((forall j, poll_once scan_fuel w j = None) ->
      waitForCrawlCompletion poll_fuel scan_fuel w
      = Thrown (Error "Crawl timeout: Results not ready within 60 seconds")
      /\ ((forall j, j < 15 -> (delay w j <= 214)%N) ->
          snd (wait_loop poll_fuel scan_fuel w 0 0) = 15)).
Proof.
  intros Room.
  destruct (wait_loop_bounded poll_fuel scan_fuel w 0 0) as [A B];
    [rewrite polls_left_start; lia|].
  rewrite polls_left_start in B.
  split; [exact A|]. split; [exact B|].
  intros Pending. split.
  - apply wait_loop_timeout; [exact Pending | rewrite polls_left_start; lia].
  - intros Prompt.
    rewrite (wait_loop_counts scan_fuel w Pending Prompt poll_fuel 0 0%N);
      [reflexivity | lia | lia | lia].
Qed.

(** A snapshot that stays in progress is asked for fifteen times. *)
Lemma wait_asks_at_most_fifteen_times_witness :
  wait_loop 16 0 never_ready 0 0
  = (Thrown (Error "Crawl timeout: Results not ready within 60 seconds"), 15).
Proof.
  destruct (wait_asks_at_most_fifteen_times 0 never_ready 16 ltac:(lia))
    as (_ & _ & Pending).
  destruct (Pending (fun j => eq_refl)) as [Timeout Count].
  assert (Prompt : forall j, j < 15 -> (delay never_ready j <= 214)%N)
    by (intros j H; cbn [delay never_ready]; lia).
  specialize (Count Prompt).
  unfold waitForCrawlCompletion in Timeout.
  destruct (wait_loop 16 0 never_ready 0 0) as [r n].
  cbn [fst snd] in *. now subst.
Defined.

End PollingFacts.
